(** * Silvereye: content loader, navigation and contact form

    A shallow embedding of the three script modules of the site
    (js/contentLoader.js, js/navigation.js, js/main.js) and the properties
    of the written specification that concern them.

    Conventions of the embedding.
    - A JavaScript string is a [string]; every [ascii] stands for one code
      unit below 256.
    - JSON documents and the values the scripts compute with are [Js.value]s.
    - Code that can throw returns a [Js.completion]; code that also reads or
      changes the page threads a world record through a state-and-exception
      monad.  An [await] is a sequencing point: the function that awaits is
      run to its end, event handlers of other modules are not interleaved.
      Where the order of events matters, a model of its own takes them one
      by one: the callbacks of the first pass of [init] ([FirstPass]), and
      the timers of the throttle and of the notifications ([Throttle],
      [Notifications]).
    - Markup assembled with template literals is kept as the list of the
      template pieces that were emitted ([Markup.piece]); [Markup.html] maps
      such a list to the text the script assigns to innerHTML. *)

From Stdlib Require Import List ZArith Lia Bool Ascii String Permutation.
Import ListNotations.
Local Open Scope string_scope.
Set Warnings "-register-all".

(* ===================================================================== *)
(** * Part I: the embedding *)
(* ===================================================================== *)

(** ** JavaScript strings, values and completions *)

Module Js.

(** WhiteSpace and LineTerminator code units below 256: TAB, LF, VT, FF, CR,
    SPACE and NO-BREAK SPACE.  This is the class [\s] of regular expressions
    and the set that [String.prototype.trim] strips. *)
Definition is_space (c : ascii) : bool :=
  let n := nat_of_ascii c in
  (Nat.leb 9 n && Nat.leb n 13) || Nat.eqb n 32 || Nat.eqb n 160.

Fixpoint trimStart (s : string) : string :=
  match s with
  | EmptyString => EmptyString
  | String c s' => if is_space c then trimStart s' else s
  end.

Fixpoint trimEnd (s : string) : string :=
  match s with
  | EmptyString => EmptyString
  | String c s' =>
      match trimEnd s' with
      | EmptyString => if is_space c then EmptyString else String c EmptyString
      | r => String c r
      end
  end.

(** [s.trim()] *)
Definition trim (s : string) : string := trimEnd (trimStart s).

(** Every code unit of a string passes a test. *)
Fixpoint all_chars (p : ascii -> bool) (s : string) : bool :=
  match s with
  | EmptyString => true
  | String c s' => p c && all_chars p s'
  end.

Definition non_space (c : ascii) : bool := negb (is_space c).

(** Truthiness of a string: only the empty string is falsy. *)
Definition truthy_string (s : string) : bool :=
  match s with EmptyString => false | _ => true end.

(** A number of a document, as far as the scripts can observe it: whether it
    is zero (0 and -0 are the falsy numbers that [JSON.parse] builds), and
    the text that Number::toString gives for it, be it plain decimal, with a
    fraction or in exponent form. *)
Record number : Type := mkNumber {
  is_zero : bool;
  numeral : string
}.

(** The values of the scripts: [undefined] and the values [JSON.parse]
    builds; an object is the list of its own properties, each key once.  The
    scripts only test the numbers of the documents for truthiness or
    interpolate them into text. *)
Inductive value : Type :=
| VUndefined
| VNull
| VBool (b : bool)
| VNum (n : number)
| VStr (s : string)
| VArr (items : list value)
| VObj (fields : list (string * value)).

Inductive error : Type :=
| TypeError (what : string)
| ReferenceError (name : string)
| SyntaxError
| NetworkError.

(** The outcome of evaluating a piece of code: a value, or a thrown error. *)
Inductive completion (A : Type) : Type :=
| Normal (a : A)
| Thrown (e : error).
Arguments Normal {A} a.
Arguments Thrown {A} e.

Definition bindc {A B} (c : completion A) (k : A -> completion B) : completion B :=
  match c with
  | Normal a => k a
  | Thrown e => Thrown e
  end.

(** ToBoolean *)
Definition truthy (v : value) : bool :=
  match v with
  | VUndefined | VNull => false
  | VBool b => b
  | VNum n => negb (is_zero n)
  | VStr s => truthy_string s
  | VArr _ | VObj _ => true
  end.

Fixpoint assoc {A : Type} (k : string) (l : list (string * A)) : option A :=
  match l with
  | [] => None
  | (k', a) :: l' => if String.eqb k k' then Some a else assoc k l'
  end.

(** [v.k] for the property names the scripts read (title, description, date,
    tags, cta, text, link, items, intro, body, subtitle, render, type,
    download, url, filename): reading a property of [undefined] or [null]
    throws; an object yields its field or [undefined]; primitives and arrays
    have none of these names except [link] on strings, which the scripts
    read only from a value whose [text] is truthy, hence never from a
    string. *)
Definition get (v : value) (k : string) : completion value :=
  match v with
  | VUndefined | VNull => Thrown (TypeError ("Cannot read properties: " ++ k))
  | VObj fields =>
      match assoc k fields with
      | Some x => Normal x
      | None => Normal VUndefined
      end
  | _ => Normal VUndefined
  end.

(** [a || b] *)
Definition or_else (a b : value) : value := if truthy a then a else b.

(** [v === false] *)
Definition is_false (v : value) : bool :=
  match v with VBool false => true | _ => false end.

(** The decimal digits of an integer (of the day of a date). *)
Definition digit (n : Z) : string :=
  String (ascii_of_nat (48 + Z.to_nat n)) EmptyString.

Fixpoint digits (fuel : nat) (n : Z) : string :=
  match fuel with
  | O => EmptyString
  | S f => if Z.ltb n 10 then digit n else digits f (n / 10) ++ digit (n mod 10)
  end.

Definition string_of_Z (n : Z) : string :=
  if Z.ltb n 0 then "-" ++ digits (S (Z.to_nat (Z.log2 (- n)))) (- n)
  else digits (S (Z.to_nat (Z.log2 n))) n.

Fixpoint join (sep : string) (l : list string) : string :=
  match l with
  | [] => EmptyString
  | [x] => x
  | x :: l' => x ++ sep ++ join sep l'
  end.

(** An object has a property of its own under a key. *)
Definition has_own (k : string) (fields : list (string * value)) : bool :=
  match assoc k fields with
  | Some _ => true
  | None => false
  end.

(** ToString, as a template literal and the setter of [textContent] apply
    it.  An object is converted through its [toString], then its [valueOf].
    An object of a JSON document inherits both, and the inherited [toString]
    answers [[object Object]]; but when the document gives the object a
    property [toString] of its own, that property is no function, [valueOf]
    (the inherited one, or again a property that is no function) yields no
    primitive value either, and the conversion throws a TypeError.  An array
    is joined with commas: [null] and [undefined] elements count as empty
    texts, the other elements are converted in their order. *)
Fixpoint to_string (v : value) : completion string :=
  match v with
  | VUndefined => Normal "undefined"
  | VNull => Normal "null"
  | VBool true => Normal "true"
  | VBool false => Normal "false"
  | VNum n => Normal (numeral n)
  | VStr s => Normal s
  | VArr items =>
      bindc
        ((fix elements (l : list value) : completion (list string) :=
            match l with
            | [] => Normal []
            | x :: l' =>
                bindc (match x with
                       | VUndefined | VNull => Normal EmptyString
                       | _ => to_string x
                       end)
                  (fun s => bindc (elements l') (fun ss => Normal (s :: ss)))
            end) items)
        (fun texts => Normal (join "," texts))
  | VObj fields =>
      if has_own "toString" fields
      then Thrown (TypeError "Cannot convert object to primitive value")
      else Normal "[object Object]"
  end.

(** A value can be converted to a string. *)
Definition printable (v : value) : bool :=
  match to_string v with
  | Normal _ => true
  | Thrown _ => false
  end.

End Js.

(** ** Regular expressions over code units *)

Module Regex.

(** The fragment of regular expressions the scripts use: character classes,
    concatenation and one-or-more repetition (with the empty language, the
    empty word, alternation and star, which derivatives need).  A pattern of
    this fragment has no back-reference and no look-around, so whether the
    engine finds a match depends on the language of the pattern alone; the
    matcher below decides it with derivatives. *)
Inductive regex : Type :=
| Void
| Eps
| Class (p : ascii -> bool)
| Cat (r1 r2 : regex)
| Alt (r1 r2 : regex)
| Star (r : regex).

(** [r+] *)
Definition Plus (r : regex) : regex := Cat r (Star r).

(** A literal code unit. *)
Definition Chr (c : ascii) : regex := Class (Ascii.eqb c).

Fixpoint nullable (r : regex) : bool :=
  match r with
  | Void => false
  | Eps => true
  | Class _ => false
  | Cat r1 r2 => nullable r1 && nullable r2
  | Alt r1 r2 => nullable r1 || nullable r2
  | Star _ => true
  end.

Fixpoint deriv (c : ascii) (r : regex) : regex :=
  match r with
  | Void => Void
  | Eps => Void
  | Class p => if p c then Eps else Void
  | Cat r1 r2 =>
      if nullable r1 then Alt (Cat (deriv c r1) r2) (deriv c r2)
      else Cat (deriv c r1) r2
  | Alt r1 r2 => Alt (deriv c r1) (deriv c r2)
  | Star r1 => Cat (deriv c r1) (Star r1)
  end.

(** Whether the whole of [s] is a word of [r]. *)
Fixpoint matches (r : regex) (s : string) : bool :=
  match s with
  | EmptyString => nullable r
  | String c s' => matches (deriv c r) s'
  end.

(** The words of a regular expression. *)
Inductive lang : regex -> string -> Prop :=
| LEps : lang Eps EmptyString
| LClass p c : p c = true -> lang (Class p) (String c EmptyString)
| LCat r1 r2 s1 s2 : lang r1 s1 -> lang r2 s2 -> lang (Cat r1 r2) (s1 ++ s2)
| LAltL r1 r2 s : lang r1 s -> lang (Alt r1 r2) s
| LAltR r1 r2 s : lang r2 s -> lang (Alt r1 r2) s
| LStarNil r : lang (Star r) EmptyString
| LStarCons r s1 s2 : lang r s1 -> lang (Star r) s2 -> lang (Star r) (s1 ++ s2).

End Regex.

(** ** State and exceptions *)

Module Eff.

(** A computation over a world [W]: it ends normally with a result or with a
    thrown error, and in both cases leaves a world behind. *)
Definition M (W A : Type) : Type := W -> Js.completion A * W.

Definition ret {W A} (a : A) : M W A := fun w => (Js.Normal a, w).

Definition bind {W A B} (m : M W A) (k : A -> M W B) : M W B :=
  fun w =>
    match m w with
    | (Js.Normal a, w') => k a w'
    | (Js.Thrown e, w') => (Js.Thrown e, w')
    end.

Definition throw {W A} (e : Js.error) : M W A := fun w => (Js.Thrown e, w).

Definition lift {W A} (c : Js.completion A) : M W A := fun w => (c, w).

Definition read {W A} (f : W -> A) : M W A := fun w => (Js.Normal (f w), w).

Definition modify {W} (f : W -> W) : M W unit := fun w => (Js.Normal tt, f w).

(** [try { body } catch (e) { handler e }] *)
Definition try_catch {W A} (body : M W A) (handler : Js.error -> M W A) : M W A :=
  fun w =>
    match body w with
    | (Js.Normal a, w') => (Js.Normal a, w')
    | (Js.Thrown e, w') => handler e w'
    end.

(** [try { body } catch (e) { handler e } finally { final }]: the finally
    block runs whatever the outcome of the other two, and an error it throws
    replaces that outcome. *)
Definition try_catch_finally {W A}
  (body : M W A) (handler : Js.error -> M W A) (final : M W unit) : M W A :=
  fun w =>
    let (r, w') := try_catch body handler w in
    match final w' with
    | (Js.Normal _, w'') => (r, w'')
    | (Js.Thrown e, w'') => (Js.Thrown e, w'')
    end.

(** [items.forEach(f)] over an array. *)
Fixpoint forEach {W A} (f : A -> M W unit) (items : list A) : M W unit :=
  match items with
  | [] => ret tt
  | x :: rest => bind (f x) (fun _ => forEach f rest)
  end.

End Eff.

Declare Scope eff_scope.
Delimit Scope eff_scope with eff.
Notation "x <- m ;; k" := (Eff.bind m (fun x => k))
  (at level 61, m at next level, right associativity) : eff_scope.
Notation "m ;; k" := (Eff.bind m (fun _ => k))
  (at level 61, right associativity) : eff_scope.

Declare Scope compl_scope.
Delimit Scope compl_scope with compl.
Notation "x <- m ;; k" := (Js.bindc m (fun x => k))
  (at level 61, m at next level, right associativity) : compl_scope.

(** ** js/main.js: the contact form *)

Module App.

(** *** The page as the module sees it *)

Inductive field : Type := FName | FEmail | FMessage.

(** An input of the form: its current and initial text, and whether it
    carries the class [error]. *)
Record input : Type := mkInput {
  value : string;
  defaultValue : string;
  errorClass : bool
}.

Record button : Type := mkButton {
  disabled : bool;
  textContent : string
}.

(** The contact form: its three inputs (#name, #email, #message), the
    [.field-error] elements appended so far, each with the field beside which
    it was appended, and the submit button if there is one. *)
Record form : Type := mkForm {
  nameInput : input;
  emailInput : input;
  messageInput : input;
  fieldErrors : list (field * string);
  submitBtn : option button
}.

(** What an identifier is bound to. *)
Inductive binding : Type :=
| BText (s : string)
| BElement
| BOther.

(** A lexical scope: the identifiers declared in one block, function or
    module. *)
Definition scope : Type := list (string * binding).

(** [alerts] are the notifications appended to the body so far, as (type,
    message); [console] the lines logged; [scopes] the chain of lexical
    scopes, innermost first. *)
Record world : Type := mkWorld {
  theForm : form;
  alerts : list (string * string);
  console : list string;
  scopes : list scope
}.

Definition M : Type -> Type := Eff.M world.

Definition set_form (f : form -> form) (w : world) : world :=
  mkWorld (f (theForm w)) (alerts w) (console w) (scopes w).

Definition set_scopes (f : list scope -> list scope) (w : world) : world :=
  mkWorld (theForm w) (alerts w) (console w) (f (scopes w)).

Definition get_input (fld : field) (f : form) : input :=
  match fld with
  | FName => nameInput f
  | FEmail => emailInput f
  | FMessage => messageInput f
  end.

Definition map_input (fld : field) (g : input -> input) (f : form) : form :=
  match fld with
  | FName => mkForm (g (nameInput f)) (emailInput f) (messageInput f) (fieldErrors f) (submitBtn f)
  | FEmail => mkForm (nameInput f) (g (emailInput f)) (messageInput f) (fieldErrors f) (submitBtn f)
  | FMessage => mkForm (nameInput f) (emailInput f) (g (messageInput f)) (fieldErrors f) (submitBtn f)
  end.

Definition map_inputs (g : input -> input) (f : form) : form :=
  mkForm (g (nameInput f)) (g (emailInput f)) (g (messageInput f)) (fieldErrors f) (submitBtn f).

Definition set_fieldErrors (l : list (field * string)) (f : form) : form :=
  mkForm (nameInput f) (emailInput f) (messageInput f) l (submitBtn f).

Definition set_button (b : option button) (f : form) : form :=
  mkForm (nameInput f) (emailInput f) (messageInput f) (fieldErrors f) b.

(** *** Lexical scopes *)

(** Entering a block opens a scope; leaving it, normally or by a throw,
    drops the scope with its declarations. *)
Definition block {A} (m : M A) : M A :=
  fun w =>
    let (r, w') := m (set_scopes (cons []) w) in
    (r, set_scopes (@tl scope) w').

(** [const x = ...] in the innermost scope. *)
Definition declare (x : string) (b : binding) : M unit :=
  Eff.modify (set_scopes (fun ss =>
    match ss with
    | [] => [[(x, b)]]
    | s :: rest => ((x, b) :: s) :: rest
    end)).

Fixpoint lookup (x : string) (ss : list scope) : option binding :=
  match ss with
  | [] => None
  | s :: rest =>
      match Js.assoc x s with
      | Some b => Some b
      | None => lookup x rest
      end
  end.

(** Reading an identifier: resolved along the scope chain, a ReferenceError
    when no scope declares it. *)
Definition resolve (x : string) : M binding :=
  fun w =>
    match lookup x (scopes w) with
    | Some b => (Js.Normal b, w)
    | None => (Js.Thrown (Js.ReferenceError x), w)
    end.

(** *** Configuration *)

Definition contactFormSelector : string := "#contact-form".

(** [[^\s@]] *)
Definition local_char (c : ascii) : bool :=
  negb (Js.is_space c || Ascii.eqb c "@").

(** [/^[^\s@]+@[^\s@]+\.[^\s@]+$/] *)
Definition emailRegex : Regex.regex :=
  Regex.Cat (Regex.Plus (Regex.Class local_char))
    (Regex.Cat (Regex.Chr "@")
       (Regex.Cat (Regex.Plus (Regex.Class local_char))
          (Regex.Cat (Regex.Chr ".")
             (Regex.Plus (Regex.Class local_char))))).

(** [emailRegex.test(s)]: the pattern is anchored at both ends, so the test
    asks whether the whole string is a word of it. *)
Definition emailRegex_test (s : string) : bool := Regex.matches emailRegex s.

Definition successMessageDuration : Z := 5000.

Local Open Scope eff_scope.

(** *** Notifications and logging *)

(** [showNotification(message, type)]: an alert element of class
    [alert-type] is appended to the body.  Its later removal by timer is
    left out: [alerts] records what was shown. *)
Definition showNotification (message type : string) : M unit :=
  Eff.modify (fun w =>
    mkWorld (theForm w) (alerts w ++ [(type, message)]) (console w) (scopes w)).

Definition showSuccessMessage (message : string) : M unit :=
  showNotification message "success".

Definition showErrorMessage (message : string) : M unit :=
  showNotification message "danger".

Definition log (line : string) : M unit :=
  Eff.modify (fun w =>
    mkWorld (theForm w) (alerts w) (console w ++ [line]) (scopes w)).

(** [logEvent(eventName, eventData)] *)
Definition logEvent (eventName : string) : M unit :=
  log ("Event: " ++ eventName).

(** *** Validation *)

(** [showFieldError(field, message)]: the field gets the class [error] and
    a [.field-error] element with the message is appended to its parent. *)
Definition showFieldError (fld : field) (message : string) : M unit :=
  Eff.modify (set_form (fun f =>
    set_fieldErrors (fieldErrors f ++ [(fld, message)])
      (map_input fld (fun i => mkInput (value i) (defaultValue i) true) f))).

(** [clearErrors(form)]: the class [error] is taken off every element that
    has it and every [.field-error] element is removed. *)
Definition clearErrors : M unit :=
  Eff.modify (set_form (fun f =>
    set_fieldErrors []
      (map_inputs (fun i => mkInput (value i) (defaultValue i) false) f))).

Definition input_value (fld : field) : M string :=
  Eff.read (fun w => value (get_input fld (theForm w))).

(** [validateForm(form)] *)
Definition validateForm : M bool :=
  clearErrors ;;
  let isValid := true in
  (* Validate name *)
  name <- input_value FName ;;
  isValid <-
    (if negb (Js.truthy_string (Js.trim name))
     then showFieldError FName "Name is required" ;; Eff.ret false
     else Eff.ret isValid) ;;
  (* Validate email *)
  email <- input_value FEmail ;;
  isValid <-
    (if negb (Js.truthy_string (Js.trim email))
     then showFieldError FEmail "Email is required" ;; Eff.ret false
     else if negb (emailRegex_test email)
     then showFieldError FEmail "Please enter a valid email" ;; Eff.ret false
     else Eff.ret isValid) ;;
  (* Validate message *)
  message <- input_value FMessage ;;
  isValid <-
    (if negb (Js.truthy_string (Js.trim message))
     then showFieldError FMessage "Message is required" ;; Eff.ret false
     else if Nat.ltb (String.length (Js.trim message)) 10
     then showFieldError FMessage "Message must be at least 10 characters" ;;
          Eff.ret false
     else Eff.ret isValid) ;;
  Eff.ret isValid.

(** *** Submission *)

(** [form.querySelector('button[type="submit"]')]: the button, or null. *)
Definition querySubmit : M (option button) :=
  Eff.read (fun w => submitBtn (theForm w)).

(** [submitBtn.textContent], a TypeError on null. *)
Definition get_textContent (b : option button) : M string :=
  match b with
  | Some _ =>
      fun w =>
        match submitBtn (theForm w) with
        | Some b' => (Js.Normal (textContent b'), w)
        | None => (Js.Normal EmptyString, w)
        end
  | None => Eff.throw (Js.TypeError "Cannot read properties of null")
  end.

(** [submitBtn.disabled = d], a TypeError on null. *)
Definition set_disabled (b : option button) (d : bool) : M unit :=
  match b with
  | Some _ =>
      Eff.modify (set_form (fun f =>
        set_button (option_map (fun b' => mkButton d (textContent b'))
                      (submitBtn f)) f))
  | None => Eff.throw (Js.TypeError "Cannot set properties of null")
  end.

(** [submitBtn.textContent = t], a TypeError on null. *)
Definition set_textContent (b : option button) (t : string) : M unit :=
  match b with
  | Some _ =>
      Eff.modify (set_form (fun f =>
        set_button (option_map (fun b' => mkButton (disabled b') t)
                      (submitBtn f)) f))
  | None => Eff.throw (Js.TypeError "Cannot set properties of null")
  end.

(** Text of a binding assigned to [textContent]. *)
Definition binding_text (b : binding) : string :=
  match b with
  | BText s => s
  | BElement => "[object HTMLElement]"
  | BOther => "[object Object]"
  end.

(** [form.reset()]: every input returns to its initial text. *)
Definition reset : M unit :=
  Eff.modify (set_form
    (map_inputs (fun i => mkInput (defaultValue i) (defaultValue i) (errorClass i)))).

(** [await new Promise(resolve => setTimeout(resolve, 1500))]: the timer
    always fires, so the await always resumes normally. *)
Definition simulated_delay : M unit := Eff.ret tt.

(** [handleFormSubmit(form)].  Each block of the source is a [block] here and
    each [const] a [declare], so that an identifier is read where the source
    reads it and found only if a scope of the chain declares it. *)
Definition handleFormSubmit : M unit :=
  block (
    declare "form" BElement ;;
    (* Validate form *)
    valid <- validateForm ;;
    if negb valid then Eff.ret tt else
    (* Get form data *)
    declare "formData" BOther ;;
    declare "data" BOther ;;
    Eff.try_catch_finally
      (block (
         (* Show loading state *)
         btn <- querySubmit ;;
         declare "submitBtn" BElement ;;
         originalText <- get_textContent btn ;;
         declare "originalText" (BText originalText) ;;
         set_disabled btn true ;;
         set_textContent btn "Sending..." ;;
         (* Simulate API call *)
         simulated_delay ;;
         (* Success feedback *)
         showSuccessMessage "Message sent successfully! We'll be in touch soon." ;;
         reset ;;
         logEvent "form_submission"))
      (fun error => block (
         declare "error" BOther ;;
         log "Form submission error:" ;;
         showErrorMessage "An error occurred. Please try again later." ;;
         logEvent "form_error"))
      (block (
         (* Reset button state *)
         btn <- querySubmit ;;
         declare "submitBtn" BElement ;;
         set_disabled btn false ;;
         originalText <- resolve "originalText" ;;
         set_textContent btn (binding_text originalText)))).

(** The scope of the module: the declarations of the enclosing function
    expression of js/main.js. *)
Definition module_scope : scope :=
  map (fun x => (x, BOther))
    ["config"; "init"; "setupContactForm"; "handleFormSubmit"; "validateForm";
     "showFieldError"; "clearErrors"; "showSuccessMessage"; "showErrorMessage";
     "showNotification"; "logEvent"; "addAnimations"].

(** The global declarations of the three scripts. *)
Definition global_scope : scope :=
  map (fun x => (x, BOther)) ["ContentLoader"; "Navigation"; "App"].

End App.

(** ** js/navigation.js: menu toggle and scroll tracking *)

Module Navigation.

Definition activeClass : string := "active".

(** *** classList *)

Definition classList : Type := list string.

Definition contains (c : string) (l : classList) : bool :=
  existsb (String.eqb c) l.

Definition remove (c : string) (l : classList) : classList :=
  filter (fun x => negb (String.eqb c x)) l.

Definition add (c : string) (l : classList) : classList :=
  if contains c l then l else (l ++ [c])%list.

Definition toggle (c : string) (l : classList) : classList :=
  if contains c l then remove c l else (l ++ [c])%list.

(** *** setupMenuToggle *)

(** The class lists of #menu-toggle and #nav-menu. *)
Record menu : Type := mkMenu {
  menuToggle : classList;
  navMenu : classList
}.

(** The listeners that [setupMenuToggle] registers.  [DocumentClick] carries
    whether [event.target.closest('#navbar')] found an element. *)
Inductive listener : Type :=
| ToggleClick
| LinkClick
| DocumentClick (isClickInside : bool).

Definition run (l : listener) (m : menu) : menu :=
  match l with
  | ToggleClick =>
      mkMenu (toggle activeClass (menuToggle m)) (toggle activeClass (navMenu m))
  | LinkClick =>
      mkMenu (remove activeClass (menuToggle m)) (remove activeClass (navMenu m))
  | DocumentClick isClickInside =>
      if negb isClickInside && contains activeClass (navMenu m)
      then mkMenu (remove activeClass (menuToggle m)) (remove activeClass (navMenu m))
      else m
  end.

(** A click runs the listeners of the elements it passes while bubbling; any
    history of the menu is a sequence of listener runs. *)
Definition runs (ls : list listener) (m : menu) : menu :=
  fold_left (fun m l => run l m) ls m.

(** *** setupScrollTracking *)

(** A [.section] element: its [offsetTop] and its id attribute (null when
    it has none). *)
Record section : Type := mkSection {
  offsetTop : Z;
  sectionId : option string
}.

(** A [.nav-menu a] element: its data-section attribute (null when it has
    none) and its class list. *)
Record navLink : Type := mkNavLink {
  dataSection : option string;
  linkClasses : classList
}.

(** [a === b] on results of [getAttribute] (a string or null). *)
Definition attr_eqb (a b : option string) : bool :=
  match a, b with
  | Some x, Some y => String.eqb x y
  | None, None => true
  | _, _ => false
  end.

(** The loop over the sections: [current] starts as the empty string and is
    overwritten by the id of every section with
    [window.scrollY >= sectionTop - 100]. *)
Definition currentSection (scrollY : Z) (sections : list section) : option string :=
  fold_left
    (fun current s =>
       if Z.geb scrollY (offsetTop s - 100) then sectionId s else current)
    sections (Some EmptyString).

Definition updateLink (current : option string) (l : navLink) : navLink :=
  let cl := remove activeClass (linkClasses l) in
  mkNavLink (dataSection l)
    (if attr_eqb (dataSection l) current then add activeClass cl else cl).

(** One run of the scroll listener (the throttle decides when it runs, not
    what it does). *)
Definition onScroll (scrollY : Z) (sections : list section) (links : list navLink)
  : list navLink :=
  map (updateLink (currentSection scrollY sections)) links.

End Navigation.

(** ** Markup written through innerHTML *)

Module Markup.

Definition quote : string := String (ascii_of_nat 34) EmptyString.
Definition newline : string := String (ascii_of_nat 10) EmptyString.

Fixpoint spaces (n : nat) : string :=
  match n with
  | O => EmptyString
  | S n' => String " " (spaces n')
  end.

(** [name="v"] *)
Definition attribute (name v : string) : string :=
  name ++ "=" ++ quote ++ v ++ quote.

(** The symbol that opens the download label, as the bytes that stand in
    the source file. *)
Definition download_symbol : string :=
  fold_right (fun n s => String (ascii_of_nat n) s) EmptyString
    [195; 176; 197; 184; 226; 128; 156; 194; 165]%nat.

(** The pieces of markup that the template literals of js/contentLoader.js
    emit, one constructor per template, with the interpolated texts as
    arguments. *)
Inductive piece : Type :=
| Heading (text : string)
| Paragraph (text : string)
| DateMeta (date : string)
| TagsOpen
| TagBadge (tag : string)
| TagsClose
| ActionLink (href text : string)
| TypeBadge (type : string)
| DownloadLink (url download filename : string).

(** The text of a piece, as the template literal spells it. *)
Definition html_of (p : piece) : string :=
  match p with
  | Heading text => "<h3>" ++ text ++ "</h3>"
  | Paragraph text => "<p>" ++ text ++ "</p>"
  | DateMeta date =>
      "<div " ++ attribute "class" "blog-card-meta" ++ ">" ++ newline
      ++ spaces 28 ++ "<span " ++ attribute "class" "blog-card-date" ++ ">"
      ++ date ++ "</span>" ++ newline
      ++ spaces 24 ++ "</div>"
  | TagsOpen => "<div " ++ attribute "class" "card-tags" ++ ">"
  | TagBadge tag =>
      "<span " ++ attribute "class" "badge badge-primary" ++ ">" ++ tag ++ "</span> "
  | TagsClose => "</div>"
  | ActionLink href text =>
      "<a " ++ attribute "href" href ++ " " ++ attribute "class" "btn btn-primary"
      ++ ">" ++ text ++ "</a>"
  | TypeBadge type =>
      "<span " ++ attribute "class" "badge badge-primary" ++ ">" ++ type ++ "</span>"
  | DownloadLink url download filename =>
      "<a " ++ attribute "href" url ++ " " ++ attribute "class" "btn btn-primary"
      ++ " " ++ attribute "download" download ++ " " ++ attribute "target" "_blank"
      ++ ">" ++ newline
      ++ spaces 28 ++ download_symbol ++ " Download " ++ filename ++ newline
      ++ spaces 24 ++ "</a>"
  end.

(** The string assigned to innerHTML. *)
Definition html (ps : list piece) : string :=
  String.concat EmptyString (map html_of ps).

Definition is_date_badge (p : piece) : bool :=
  match p with DateMeta _ => true | _ => false end.



End Markup.

(** ** The document tree *)

Module Dom.

(** An element with its tag, id ([""] when it has none), class attribute,
    other attributes and children; a text node; or markup that was written
    through innerHTML (kept as written, not parsed into elements). *)
Inductive node : Type :=
| Element (tag id className : string) (attrs : list (string * string))
    (children : list node)
| Text (data : string)
| Markup (pieces : list Markup.piece).

(** An element is referred to by the positions that lead to it from the
    roots of the document. *)
Definition path : Type := list nat.

(** *** Selectors *)

Inductive selector : Type :=
| ById (id : string)                            (* #id *)
| TagAttr (tag attr v : string)                 (* tag[attr="v"] *)
| ClassAttr (class attr v : string).            (* .class[attr="v"] *)

(** ASCII white space, at which the DOM splits a class attribute: TAB, LF,
    FF, CR and SPACE. *)
Definition is_ascii_space (c : ascii) : bool :=
  let n := nat_of_ascii c in
  Nat.eqb n 9 || Nat.eqb n 10 || Nat.eqb n 12 || Nat.eqb n 13 || Nat.eqb n 32.

(** The tokens of a class attribute. *)
Fixpoint tokens_from (cur : string) (s : string) : list string :=
  match s with
  | EmptyString => match cur with EmptyString => [] | _ => [cur] end
  | String c s' =>
      if is_ascii_space c
      then match cur with
           | EmptyString => tokens_from EmptyString s'
           | _ => cur :: tokens_from EmptyString s'
           end
      else tokens_from (cur ++ String c EmptyString) s'
  end.

Definition classes (className : string) : list string :=
  tokens_from EmptyString className.

Definition has_attr (attr v : string) (attrs : list (string * string)) : bool :=
  match Js.assoc attr attrs with
  | Some v' => String.eqb v v'
  | None => false
  end.

Definition matches (sel : selector) (n : node) : bool :=
  match n with
  | Element tag id className attrs _ =>
      match sel with
      | ById i => String.eqb id i
      | TagAttr t a v => String.eqb tag t && has_attr a v attrs
      | ClassAttr c a v => existsb (String.eqb c) (classes className) && has_attr a v attrs
      end
  | _ => false
  end.

(** *** Search in document order *)

Definition first_in (find1 : node -> option path)
  : nat -> list node -> option path :=
  fix go (i : nat) (ns : list node) : option path :=
    match ns with
    | [] => None
    | n :: ns' =>
        match find1 n with
        | Some q => Some (i :: q)
        | None => go (S i) ns'
        end
    end.

Fixpoint find (p : node -> bool) (n : node) : option path :=
  if p n then Some []
  else match n with
       | Element _ _ _ _ children => first_in (find p) 0 children
       | _ => None
       end.

(** [document.querySelector(sel)]: the first matching element in document
    order, or null. *)
Definition querySelector (sel : selector) (doc : list node) : option path :=
  first_in (find (matches sel)) 0 doc.

(** *** Reading and changing the tree at a path *)

(** The node that a path reaches from a node. *)
Fixpoint sub (q : path) (n : node) : option node :=
  match q with
  | [] => Some n
  | i :: q' =>
      match n with
      | Element _ _ _ _ children =>
          match nth_error children i with
          | Some c => sub q' c
          | None => None
          end
      | _ => None
      end
  end.

(** The node that a path reaches from the roots of the document. *)
Definition node_at (q : path) (doc : list node) : option node :=
  match q with
  | [] => None
  | i :: q' =>
      match nth_error doc i with
      | Some n => sub q' n
      | None => None
      end
  end.

(** Replace the [i]-th node of a list by the nodes [f] makes of it. *)
Fixpoint splice (i : nat) (f : node -> list node) (ns : list node) : list node :=
  match ns, i with
  | [], _ => []
  | n :: ns', O => (f n ++ ns')%list
  | n :: ns', S i' => n :: splice i' f ns'
  end.

(** Replace the node a path reaches from [n] by the nodes [f] makes of
    it. *)
Fixpoint alter_in (q : path) (f : node -> list node) (n : node) : list node :=
  match q with
  | [] => f n
  | i :: q' =>
      match n with
      | Element tag id cn attrs children =>
          [Element tag id cn attrs (splice i (alter_in q' f) children)]
      | _ => [n]
      end
  end.

Definition alter (q : path) (f : node -> list node) (doc : list node)
  : list node :=
  match q with
  | [] => doc
  | i :: q' => splice i (alter_in q' f) doc
  end.

(** [el.remove()] *)
Definition remove_at (q : path) (doc : list node) : list node :=
  alter q (fun _ => []) doc.

Definition with_children (f : list node -> list node) (n : node) : list node :=
  match n with
  | Element tag id cn attrs children => [Element tag id cn attrs (f children)]
  | _ => [n]
  end.

(** [el.innerHTML = ...] and [el.textContent = ...] replace the children. *)
Definition set_children (q : path) (children : list node) (doc : list node)
  : list node :=
  alter q (with_children (fun _ => children)) doc.

(** [el.appendChild(child)] *)
Definition append_child (q : path) (child : node) (doc : list node) : list node :=
  alter q (with_children (fun cs => (cs ++ [child])%list)) doc.

(** How many nodes of a tree, and of a list of trees, pass a test. *)
Fixpoint count (p : node -> bool) (n : node) : nat :=
  (if p n then 1 else 0)
  + match n with
    | Element _ _ _ _ children => list_sum (map (count p) children)
    | _ => 0
    end.

Definition count_in (p : node -> bool) (ns : list node) : nat :=
  list_sum (map (count p) ns).

(** A test that does not look at the children of an element. *)
Definition shallow (p : node -> bool) : Prop :=
  forall tag id cn attrs children children',
    p (Element tag id cn attrs children) = p (Element tag id cn attrs children').

Definition children_of (n : node) : list node :=
  match n with
  | Element _ _ _ _ children => children
  | _ => []
  end.

Definition id_of (n : node) : string :=
  match n with
  | Element _ id _ _ _ => id
  | _ => EmptyString
  end.

(** The children that markup [ps] written through innerHTML leaves: none
    for the empty string. *)
Definition inner (ps : list Markup.piece) : list node :=
  match ps with
  | [] => []
  | _ => [Markup ps]
  end.

(** The children that text [s] written through textContent leaves. *)
Definition text_inner (s : string) : list node :=
  match s with
  | EmptyString => []
  | _ => [Text s]
  end.

End Dom.

(** ** js/contentLoader.js *)

Module ContentLoader.

Import Markup.

(** *** The world of the loader *)

(** A response of the server: whether its status is a success, and the
    document its body parses to (none when the body is not JSON). *)
Record response : Type := mkResponse {
  ok : bool;
  body : option Js.value
}.

(** What a fetch of a URL meets: a response, or nothing (the network
    fails and the fetch rejects). *)
Definition network : Type := string -> option response.

(** The page, the URLs fetched so far and the lines written with
    [console.error]. *)
Record world : Type := mkWorld {
  document : list Dom.node;
  requests : list string;
  console : list string
}.

Definition M : Type -> Type := Eff.M world.

Local Open Scope eff_scope.

Definition querySelector (sel : Dom.selector) : M (option Dom.path) :=
  Eff.read (fun w => Dom.querySelector sel (document w)).

Definition change_document (f : list Dom.node -> list Dom.node) : M unit :=
  Eff.modify (fun w => mkWorld (f (document w)) (requests w) (console w)).

Definition console_error (line : string) : M unit :=
  Eff.modify (fun w => mkWorld (document w) (requests w) (console w ++ [line])).

(** [await fetch(url)] *)
Definition fetch (net : network) (url : string) : M response :=
  fun w =>
    let w' := mkWorld (document w) (requests w ++ [url]) (console w) in
    match net url with
    | Some r => (Js.Normal r, w')
    | None => (Js.Thrown Js.NetworkError, w')
    end.

(** [await response.json()] *)
Definition json (r : response) : M Js.value :=
  match body r with
  | Some v => Eff.ret v
  | None => Eff.throw Js.SyntaxError
  end.

Definition content_url (contentType : string) : string :=
  "content/" ++ contentType ++ ".json".

(** [load(contentType)] *)
Definition load (net : network) (contentType : string) : M Js.value :=
  Eff.try_catch
    (response <- fetch net (content_url contentType) ;;
     if negb (ok response)
     then console_error ("Failed to load content: " ++ contentType) ;;
          Eff.ret Js.VNull
     else data <- json response ;;
          Eff.ret data)
    (fun error =>
       console_error ("Error loading content file: " ++ contentType) ;;
       Eff.ret Js.VNull).

(** *** Dates *)

Definition is_digit (c : ascii) : bool :=
  let n := nat_of_ascii c in Nat.leb 48 n && Nat.leb n 57.

Fixpoint all_digits (s : string) : bool :=
  match s with
  | EmptyString => true
  | String c s' => is_digit c && all_digits s'
  end.

Fixpoint number_of (acc : nat) (s : string) : nat :=
  match s with
  | EmptyString => acc
  | String c s' => number_of (10 * acc + (nat_of_ascii c - 48)) s'
  end.

Definition month_name (m : nat) : option string :=
  nth_error
    ["January"; "February"; "March"; "April"; "May"; "June"; "July";
     "August"; "September"; "October"; "November"; "December"] (m - 1).

(** Modelled from the spec: [formatDate], which [createCard] calls and whose
    definition is not among the source files.  The spec: a date is
    "formatted into a human-readable long form, e.g. 2026-01-15 becomes
    January 15, 2026".  The model reads a calendar date YYYY-MM-DD and writes
    the name of the month, the day without leading zero, a comma and the
    year; of any other argument the spec says nothing, and the model answers
    [Invalid Date]. *)
Definition formatDate (d : Js.value) : string :=
  match d with
  | Js.VStr s =>
      let year := String.substring 0 4 s in
      let month := String.substring 5 2 s in
      let day := String.substring 8 2 s in
      if Nat.eqb (String.length s) 10
         && String.eqb (String.substring 4 1 s) "-"
         && String.eqb (String.substring 7 1 s) "-"
         && all_digits year && all_digits month && all_digits day
         && Nat.leb 1 (number_of 0 month) && Nat.leb (number_of 0 month) 12
         && Nat.leb 1 (number_of 0 day) && Nat.leb (number_of 0 day) 31
      then match month_name (number_of 0 month) with
           | Some name =>
               name ++ " " ++ Js.string_of_Z (Z.of_nat (number_of 0 day))
               ++ ", " ++ year
           | None => "Invalid Date"
           end
      else "Invalid Date"
  | _ => "Invalid Date"
  end.

(** *** Cards *)

Local Open Scope compl_scope.

(** [document.createElement('div')] with its class attribute and the markup
    assigned to its innerHTML. *)
Definition div (className : string) (cardHTML : list piece) : Dom.node :=
  Dom.Element "div" EmptyString className [] (Dom.inner cardHTML).

(** [tags.forEach(tag => { cardHTML += ... })]: one badge per tag, each tag
    converted to a string in its turn. *)
Fixpoint appendBadges (cardHTML : list piece) (tags : list Js.value)
  : Js.completion (list piece) :=
  match tags with
  | [] => Js.Normal cardHTML
  | tag :: rest =>
      badge <- Js.to_string tag ;;
      appendBadges (cardHTML ++ [TagBadge badge])%list rest
  end.

(** [createCard(item, cardType)] *)
Definition createCard (item : Js.value) (cardType : string)
  : Js.completion Dom.node :=
  title <- Js.get item "title" ;;
  heading <- Js.to_string (Js.or_else title (Js.VStr EmptyString)) ;;
  let cardHTML := [Heading heading] in
  description <- Js.get item "description" ;;
  cardHTML <-
    (if Js.truthy description
     then paragraph <- Js.to_string description ;;
          Js.Normal (cardHTML ++ [Paragraph paragraph])%list
     else Js.Normal cardHTML) ;;
  date <- (if String.eqb cardType "blog" then Js.get item "date"
           else Js.Normal (Js.VBool false)) ;;
  let cardHTML :=
    if Js.truthy date then DateMeta (formatDate date) :: cardHTML else cardHTML in
  tags <- Js.get item "tags" ;;
  cardHTML <-
    (if Js.truthy tags
     then match tags with
          | Js.VArr ts =>
              cardHTML <- appendBadges (cardHTML ++ [TagsOpen])%list ts ;;
              Js.Normal (cardHTML ++ [TagsClose])%list
          | _ => Js.Thrown (Js.TypeError "item.tags.forEach is not a function")
          end
     else Js.Normal cardHTML) ;;
  cta <- Js.get item "cta" ;;
  text <- (if Js.truthy cta then Js.get cta "text" else Js.Normal cta) ;;
  cardHTML <-
    (if Js.truthy text
     then link <- Js.get cta "link" ;;
          href <- Js.to_string (Js.or_else link (Js.VStr "#")) ;;
          label <- Js.to_string text ;;
          Js.Normal (cardHTML ++ [ActionLink href label])%list
     else Js.Normal cardHTML) ;;
  Js.Normal (div ("card " ++ cardType ++ "-card") cardHTML).

(** [createResourceCard(item)] *)
Definition createResourceCard (item : Js.value) : Js.completion Dom.node :=
  title <- Js.get item "title" ;;
  heading <- Js.to_string (Js.or_else title (Js.VStr EmptyString)) ;;
  let cardHTML := [Heading heading] in
  description <- Js.get item "description" ;;
  cardHTML <-
    (if Js.truthy description
     then paragraph <- Js.to_string description ;;
          Js.Normal (cardHTML ++ [Paragraph paragraph])%list
     else Js.Normal cardHTML) ;;
  type <- Js.get item "type" ;;
  cardHTML <-
    (if Js.truthy type
     then badge <- Js.to_string type ;;
          Js.Normal (cardHTML ++ [TypeBadge badge])%list
     else Js.Normal cardHTML) ;;
  download <- Js.get item "download" ;;
  cardHTML <-
    (if Js.truthy download
     then url <- Js.get download "url" ;;
          href <- Js.to_string url ;;
          filename <- Js.get download "filename" ;;
          name <- Js.to_string (Js.or_else filename (Js.VStr EmptyString)) ;;
          label <- Js.to_string (Js.or_else filename (Js.VStr "File")) ;;
          Js.Normal (cardHTML ++ [DownloadLink href name label])%list
     else Js.Normal cardHTML) ;;
  Js.Normal (div "card resource-card" cardHTML).

Local Close Scope compl_scope.

(** [items.forEach(item => container.appendChild(create(item)))]; a value
    that is not an array has no [forEach]. *)
Definition appendEach (create : Js.value -> Js.completion Dom.node)
  (container : Dom.path) (items : Js.value) : M unit :=
  match items with
  | Js.VArr l =>
      Eff.forEach
        (fun item =>
           card <- Eff.lift (create item) ;;
           change_document (Dom.append_child container card))
        l
  | _ => Eff.throw (Js.TypeError "items.forEach is not a function")
  end.

(** [renderCards(items, selector, cardType)] *)
Definition renderCards (items : Js.value) (selector : Dom.selector)
  (cardType : string) : M unit :=
  container <- querySelector selector ;;
  match container with
  | None => Eff.ret tt
  | Some c =>
      if negb (Js.truthy items) then Eff.ret tt
      else
        change_document (Dom.set_children c []) ;;
        appendEach (fun item => createCard item cardType) c items
  end.

(** [renderResources(items, selector)] *)
Definition renderResources (items : Js.value) (selector : Dom.selector) : M unit :=
  container <- querySelector selector ;;
  match container with
  | None => Eff.ret tt
  | Some c =>
      if negb (Js.truthy items) then Eff.ret tt
      else
        change_document (Dom.set_children c []) ;;
        appendEach createResourceCard c items
  end.

(** [renderText(content, selector)] *)
Definition renderText (content : Js.value) (selector : Dom.selector) : M unit :=
  container <- querySelector selector ;;
  match container with
  | None => Eff.ret tt
  | Some c =>
      if negb (Js.truthy content) then Eff.ret tt
      else
        let html := [] in
        title <- Eff.lift (Js.get content "title") ;;
        html <-
          (if Js.truthy title
           then heading <- Eff.lift (Js.to_string title) ;;
                Eff.ret (html ++ [Heading heading])%list
           else Eff.ret html) ;;
        body <- Eff.lift (Js.get content "body") ;;
        html <-
          (if Js.truthy body
           then paragraph <- Eff.lift (Js.to_string body) ;;
                Eff.ret (html ++ [Paragraph paragraph])%list
           else Eff.ret html) ;;
        change_document (Dom.set_children c (Dom.inner html))
  end.

(** *** init *)

Definition element_id (c : Dom.path) : M string :=
  Eff.read (fun w =>
    match Dom.node_at c (document w) with
    | Some n => Dom.id_of n
    | None => EmptyString
    end).

Definition remove_if_found (el : option Dom.path) : M unit :=
  match el with
  | Some q => change_document (Dom.remove_at q)
  | None => Eff.ret tt
  end.

(** [handleConditionalRendering(content, selector)] *)
Definition handleConditionalRendering (content : Js.value)
  (selector : Dom.selector) : M unit :=
  container <- querySelector selector ;;
  match container with
  | None => Eff.ret tt
  | Some c =>
      (* content && content.render === false *)
      hidden <-
        (if Js.truthy content
         then render <- Eff.lift (Js.get content "render") ;;
              Eff.ret (Js.is_false render)
         else Eff.ret false) ;;
      if hidden
      then
        id <- element_id c ;;
        change_document (Dom.remove_at c) ;;
        navLink <- querySelector (Dom.TagAttr "a" "data-section" id) ;;
        remove_if_found navLink ;;
        navSpacer <- querySelector (Dom.ClassAttr "nav-spacer" "data-section" id) ;;
        remove_if_found navSpacer
      else Eff.ret tt
  end.

Definition sectionsToCheck : list (string * Dom.selector) :=
  [("about", Dom.ById "about");
   ("blog", Dom.ById "blog-section");
   ("booking", Dom.ById "booking");
   ("contact", Dom.ById "contact");
   ("hero", Dom.ById "home");
   ("services", Dom.ById "services");
   ("resources", Dom.ById "resources")].

(** The body of the callback that [init] starts for every entry of
    [sectionsToCheck], without awaiting any of them. *)
Definition checkSection (net : network) (entry : string * Dom.selector) : M unit :=
  content <- load net (fst entry) ;;
  handleConditionalRendering content (snd entry).

(** [a && a.k] *)
Definition and_get (a : Js.value) (k : string) : M Js.value :=
  if Js.truthy a then Eff.lift (Js.get a k) else Eff.ret a.

(** The six load-and-render steps inside the [try] of [init]. *)

Definition loadHero (net : network) : M unit :=
  heroData <- load net "hero" ;;
  subtitle <- and_get heroData "subtitle" ;;
  if Js.truthy subtitle
  then
    subtitleEl <- querySelector (Dom.ById "hero-subtitle") ;;
    match subtitleEl with
    | Some el =>
        (* the setter of textContent converts its argument to a string *)
        text <- Eff.lift (Js.to_string subtitle) ;;
        change_document (Dom.set_children el (Dom.text_inner text))
    | None => Eff.ret tt
    end
  else Eff.ret tt.

Definition loadAbout (net : network) : M unit :=
  aboutData <- load net "about" ;;
  if Js.truthy aboutData
  then renderText aboutData (Dom.ById "about-content")
  else Eff.ret tt.

Definition loadServices (net : network) : M unit :=
  servicesData <- load net "services" ;;
  items <- and_get servicesData "items" ;;
  if Js.truthy items
  then renderCards items (Dom.ById "services-grid") "service"
  else Eff.ret tt.

Definition loadResources (net : network) : M unit :=
  resourcesData <- load net "resources" ;;
  if Js.truthy resourcesData
  then
    intro <- Eff.lift (Js.get resourcesData "intro") ;;
    (if Js.truthy intro
     then renderText intro (Dom.ById "resources-intro")
     else Eff.ret tt) ;;
    items <- Eff.lift (Js.get resourcesData "items") ;;
    if Js.truthy items
    then renderResources items (Dom.ById "resources-grid")
    else Eff.ret tt
  else Eff.ret tt.

Definition loadBooking (net : network) : M unit :=
  bookingData <- load net "booking" ;;
  if Js.truthy bookingData
  then renderText bookingData (Dom.ById "booking-content")
  else Eff.ret tt.

Definition loadContact (net : network) : M unit :=
  contactData <- load net "contact" ;;
  if Js.truthy contactData
  then renderText contactData (Dom.ById "contact-content")
  else Eff.ret tt.

(** The second pass of [init]: one [try] around the six steps, one [catch]
    that logs. *)
Definition secondPass (net : network) : M unit :=
  Eff.try_catch
    (loadHero net ;; loadAbout net ;; loadServices net ;;
     loadResources net ;; loadBooking net ;; loadContact net)
    (fun error => console_error "Error initializing content loader:").

End ContentLoader.

(** ** The statements of the specification *)

Module Spec.

(** *** Contact form *)

(** "Non-space characters, '@', non-space characters, '.', non-space
    characters", for a given reading [part] of which characters may stand in
    the three parts. *)
Definition email_pattern (part : ascii -> bool) (s : string) : Prop :=
  exists a b c,
    s = a ++ "@" ++ b ++ "." ++ c /\
    a <> EmptyString /\ b <> EmptyString /\ c <> EmptyString /\
    Js.all_chars part a = true /\ Js.all_chars part b = true /\
    Js.all_chars part c = true.

(** The three rules, each a function of its own field alone: the message a
    field gets, if any. *)
Definition name_rule (v : string) : option string :=
  if Js.truthy_string (Js.trim v) then None else Some "Name is required".

Definition email_rule (v : string) : option string :=
  if Js.truthy_string (Js.trim v)
  then if App.emailRegex_test v then None else Some "Please enter a valid email"
  else Some "Email is required".

Definition message_rule (v : string) : option string :=
  if Js.truthy_string (Js.trim v)
  then if Nat.ltb (String.length (Js.trim v)) 10
       then Some "Message must be at least 10 characters"
       else None
  else Some "Message is required".

Definition rule_of (fld : App.field) : string -> option string :=
  match fld with
  | App.FName => name_rule
  | App.FEmail => email_rule
  | App.FMessage => message_rule
  end.

(** The inline error a rule leaves beside its field. *)
Definition inline_error (fld : App.field) (v : string) : list (App.field * string) :=
  match rule_of fld v with
  | Some message => [(fld, message)]
  | None => []
  end.

Definition field_eqb (a b : App.field) : bool :=
  match a, b with
  | App.FName, App.FName | App.FEmail, App.FEmail | App.FMessage, App.FMessage => true
  | _, _ => false
  end.

(** The inline errors shown beside a field. *)
Definition errors_of (fld : App.field) (f : App.form) : list string :=
  map snd (filter (fun e => field_eqb fld (fst e)) (App.fieldErrors f)).

(** Validation accepts the email of a form: after [validateForm] no inline
    error stands beside the email field. *)
Definition email_accepted (w : App.world) : bool :=
  match errors_of App.FEmail (App.theForm (snd (App.validateForm w))) with
  | [] => true
  | _ => false
  end.

(** The form as validation leaves it: every field carries the class [error]
    exactly when its own rule fails, and the inline errors are those of the
    three rules, in the order name, email, message. *)
Definition marked (fld : App.field) (i : App.input) : App.input :=
  App.mkInput (App.value i) (App.defaultValue i)
    (match rule_of fld (App.value i) with Some _ => true | None => false end).

Definition validated (f : App.form) : App.form :=
  App.mkForm
    (marked App.FName (App.nameInput f))
    (marked App.FEmail (App.emailInput f))
    (marked App.FMessage (App.messageInput f))
    (inline_error App.FName (App.value (App.nameInput f))
     ++ inline_error App.FEmail (App.value (App.emailInput f))
     ++ inline_error App.FMessage (App.value (App.messageInput f)))%list
    (App.submitBtn f).

(** All three rules pass. *)
Definition passes (f : App.form) : bool :=
  match App.fieldErrors (validated f) with
  | [] => true
  | _ => false
  end.

(** *** Content documents *)

(** A call-to-action: a label and a target. *)
Record cta : Type := mkCta {
  label : option string;
  target : option string
}.

(** A card record of a card collection document. *)
Record card : Type := mkCard {
  title : option string;
  description : option string;
  date : option string;
  tags : option (list string);
  action : option cta
}.

Definition field {A} (k : string) (enc : A -> Js.value) (o : option A)
  : list (string * Js.value) :=
  match o with
  | Some a => [(k, enc a)]
  | None => []
  end.

Definition cta_json (a : cta) : Js.value :=
  Js.VObj (field "text" Js.VStr (label a) ++ field "link" Js.VStr (target a))%list.

(** The JSON object of a card record: the fields that are present. *)
Definition card_json (c : card) : Js.value :=
  Js.VObj
    (field "title" Js.VStr (title c)
     ++ field "description" Js.VStr (description c)
     ++ field "date" Js.VStr (date c)
     ++ field "tags" (fun ts => Js.VArr (map Js.VStr ts)) (tags c)
     ++ field "cta" cta_json (action c))%list.

(** The value read from a field that may be missing. *)
Definition opt {A} (enc : A -> Js.value) (o : option A) : Js.value :=
  match o with
  | Some a => enc a
  | None => Js.VUndefined
  end.

(** The item of the example blog.json of the content schema. *)
Definition blog_example : Js.value :=
  Js.VObj
    [("title", Js.VStr "Understanding Anxiety");
     ("description", Js.VStr "Anxiety is a normal emotion...");
     ("date", Js.VStr "2026-01-15");
     ("tags", Js.VArr [Js.VStr "Mental Health"; Js.VStr "Anxiety"]);
     ("cta", Js.VObj [("text", Js.VStr "Read Full Article");
                      ("link", Js.VStr "/blog/understanding-anxiety")])].

(** A text is present: given, and not empty. *)
Definition present (o : option string) : bool :=
  match o with
  | Some s => Js.truthy_string s
  | None => false
  end.

Definition text_of (o : option string) : string :=
  match o with
  | Some s => s
  | None => EmptyString
  end.

(** The card has a date. *)
Definition has_date (c : card) : bool := present (date c).

(** What a card shows: "title, description (if present), a date badge
    prefixed before the title only when the kind is blog and a date is
    present, a row of tag badges (if present), and a call-to-action link
    (target defaults to # if absent while label exists)". *)
Definition card_pieces (c : card) (kind : string) : list Markup.piece :=
  ((if String.eqb kind "blog" && has_date c
    then [Markup.DateMeta (ContentLoader.formatDate (Js.VStr (text_of (date c))))]
    else [])
   ++ [Markup.Heading (text_of (title c))]
   ++ (if present (description c)
       then [Markup.Paragraph (text_of (description c))]
       else [])
   ++ match tags c with
      | Some ts => [Markup.TagsOpen] ++ map Markup.TagBadge ts ++ [Markup.TagsClose]
      | None => []
      end
   ++ match action c with
      | Some a =>
          if present (label a)
          then [Markup.ActionLink
                  (if present (target a) then text_of (target a) else "#")
                  (text_of (label a))]
          else []
      | None => []
      end)%list.

(** The card element of a card record. *)
Definition card_element (c : card) (kind : string) : Dom.node :=
  ContentLoader.div ("card " ++ kind ++ "-card") (card_pieces c kind).

(** What [load] is specified to return: the parsed document when the fetch
    of [content/name.json] meets a response with a success status and a JSON
    body, null otherwise. *)
Definition loaded (net : ContentLoader.network) (name : string) : Js.value :=
  match net ("content/" ++ name ++ ".json") with
  | Some (ContentLoader.mkResponse true (Some v)) => v
  | _ => Js.VNull
  end.

(** The document has its render field explicitly equal to false. *)
Definition render_false (content : Js.value) : bool :=
  match content with
  | Js.VObj fields =>
      match Js.assoc "render" fields with
      | Some (Js.VBool false) => true
      | _ => false
      end
  | _ => false
  end.

(** The first element that a selector finds, removed. *)
Definition without_first (sel : Dom.selector) (doc : list Dom.node)
  : list Dom.node :=
  match Dom.querySelector sel doc with
  | Some q => Dom.remove_at q doc
  | None => doc
  end.

(** The id of the section at [c]. *)
Definition section_id (c : Dom.path) (doc : list Dom.node) : string :=
  match Dom.node_at c doc with
  | Some n => Dom.id_of n
  | None => EmptyString
  end.

(** The selectors of the nav link and of the nav spacer of a section. *)
Definition nav_link (id : string) : Dom.selector :=
  Dom.TagAttr "a" "data-section" id.

Definition nav_spacer (id : string) : Dom.selector :=
  Dom.ClassAttr "nav-spacer" "data-section" id.

(** The page without the section at [c], without the first link and without
    the first spacer that carry the section's id as data-section. *)
Definition without_section (c : Dom.path) (doc : list Dom.node) : list Dom.node :=
  without_first (nav_spacer (section_id c doc))
    (without_first (nav_link (section_id c doc))
       (Dom.remove_at c doc)).

(** The URLs of the second pass, in its order. *)
Definition second_pass_urls : list string :=
  map ContentLoader.content_url
    ["hero"; "about"; "services"; "resources"; "booking"; "contact"].

Definition creates (create : Js.value -> Js.completion Dom.node)
  (item : Js.value) : bool :=
  match create item with
  | Js.Normal _ => true
  | Js.Thrown _ => false
  end.

(** A page with a navigation bar (one link per section, a spacer beside the
    About link) and the sections Home, About, Services and Contact with
    their containers. *)
Definition sample_page : list Dom.node :=
  [Dom.Element "nav" "navbar" "navbar" []
     [Dom.Element "a" EmptyString EmptyString
        [("href", "#home"); ("data-section", "home")] [Dom.Text "Home"];
      Dom.Element "a" EmptyString EmptyString
        [("href", "#about"); ("data-section", "about")] [Dom.Text "About"];
      Dom.Element "span" EmptyString "nav-spacer"
        [("data-section", "about")] [];
      Dom.Element "a" EmptyString EmptyString
        [("href", "#services"); ("data-section", "services")]
        [Dom.Text "Services"];
      Dom.Element "a" EmptyString EmptyString
        [("href", "#contact"); ("data-section", "contact")]
        [Dom.Text "Contact"]];
   Dom.Element "section" "home" "section hero" []
     [Dom.Element "p" "hero-subtitle" EmptyString [] []];
   Dom.Element "section" "about" "section" []
     [Dom.Element "div" "about-content" EmptyString [] [Dom.Text "Loading"]];
   Dom.Element "section" "services" "section" []
     [Dom.Element "div" "services-grid" "grid" [] [Dom.Text "Loading"]];
   Dom.Element "section" "contact" "section" []
     [Dom.Element "div" "contact-content" EmptyString [] [Dom.Text "Loading"]]].

Definition sample_world : ContentLoader.world :=
  ContentLoader.mkWorld sample_page [] [].

(** A server on which every document is a text document, except
    [services.json], whose list of items holds a null. *)
Definition broken_services_net : ContentLoader.network :=
  fun url =>
    if String.eqb url "content/services.json"
    then Some (ContentLoader.mkResponse true
                 (Some (Js.VObj [("items", Js.VArr [Js.VNull])])))
    else Some (ContentLoader.mkResponse true
                 (Some (Js.VObj [("title", Js.VStr "Title");
                                 ("body", Js.VStr "Body")]))).

(** A server on which every document is a text document, except
    [about.json], whose title is an object with a property [toString] of its
    own. *)
Definition broken_about_net : ContentLoader.network :=
  fun url =>
    if String.eqb url "content/about.json"
    then Some (ContentLoader.mkResponse true
                 (Some (Js.VObj
                          [("title",
                            Js.VObj [("toString",
                                      Js.VNum (Js.mkNumber true "0"))])])))
    else Some (ContentLoader.mkResponse true
                 (Some (Js.VObj [("title", Js.VStr "Title");
                                 ("body", Js.VStr "Body")]))).

(** A server on which the hero document is missing (404), the network
    fails for the about document, the contact document is not JSON, and the
    services are a well-formed collection; the other fetches meet a
    document with nothing to render. *)
Definition failing_net : ContentLoader.network :=
  fun url =>
    if String.eqb url "content/hero.json"
    then Some (ContentLoader.mkResponse false None)
    else if String.eqb url "content/about.json" then None
    else if String.eqb url "content/contact.json"
    then Some (ContentLoader.mkResponse true None)
    else if String.eqb url "content/services.json"
    then Some (ContentLoader.mkResponse true
                 (Some (Js.VObj
                          [("items",
                            Js.VArr [card_json (mkCard (Some "Workshops")
                                                  None None None None)])])))
    else Some (ContentLoader.mkResponse true (Some (Js.VObj []))).

(** A computation fetches nothing. *)
Definition quiet {A} (m : ContentLoader.M A) : Prop :=
  forall w, ContentLoader.requests (snd (m w)) = ContentLoader.requests w.

(** *** Scroll tracking *)

(** A section's top lies at or above the scroll offset plus 100px. *)
Definition qualifies (scrollY : Z) (s : Navigation.section) : bool :=
  Z.leb (Navigation.offsetTop s) (scrollY + 100).

(** The last section in document order that qualifies. *)
Definition lastQualifying (scrollY : Z) (sections : list Navigation.section)
  : option Navigation.section :=
  hd_error (rev (filter (qualifies scrollY) sections)).

(** A link is marked active. *)
Definition is_active (l : Navigation.navLink) : bool :=
  Navigation.contains Navigation.activeClass (Navigation.linkClasses l).

(** A page with the contact form filled in, its submit button labelled
    [label], nothing shown or logged yet, and the scopes of the module. *)
Definition filled_form (name email message label : string) : App.world :=
  App.mkWorld
    (App.mkForm (App.mkInput name EmptyString false)
       (App.mkInput email EmptyString false)
       (App.mkInput message EmptyString false)
       [] (Some (App.mkButton false label)))
    [] [] [App.module_scope; App.global_scope].

End Spec.

(** ** js/navigation.js: throttle *)

Module Throttle.

(** The closure of one throttled function: the flag [inThrottle] (undefined,
    hence falsy, until the first call) and the times at which the timers it
    has set and that have not fired yet are due, oldest first.  The function
    that is throttled is taken to return normally, as the scroll listener
    does. *)
Record state : Type := mkState {
  inThrottle : bool;
  timers : list Z
}.

Definition initial : state := mkState false [].

(** What happens to the closure: the throttled function is called at some
    time, or the event loop runs the oldest timer of the closure at some
    time. *)
Inductive event : Type :=
| Call (now : Z)
| Fire (now : Z).

Definition time_of (e : event) : Z :=
  match e with
  | Call now => now
  | Fire now => now
  end.

(** One event; the boolean tells whether [func] was applied.  A timer never
    fires before it is due, which is [limit] after it was set (for a limit
    that is not negative; a negative one counts as zero in a browser). *)
Definition step (limit : Z) (e : event) (s : state) : bool * state :=
  match e with
  | Call now =>
      if negb (inThrottle s)
      then (true, mkState true (timers s ++ [now + limit]%Z))
      else (false, s)
  | Fire now =>
      match timers s with
      | due :: rest =>
          if Z.leb due now then (false, mkState false rest) else (false, s)
      | [] => (false, s)
      end
  end.

(** The times at which [func] is applied along a sequence of events. *)
Fixpoint run_times (limit : Z) (trace : list event) (s : state) : list Z :=
  match trace with
  | [] => []
  | e :: rest =>
      let (ran, s') := step limit e s in
      if ran then time_of e :: run_times limit rest s'
      else run_times limit rest s'
  end.

(** The events of a sequence happen in the order of their times, none
    before [now]. *)
Fixpoint ordered (now : Z) (trace : list event) : Prop :=
  match trace with
  | [] => True
  | e :: rest => (now <= time_of e)%Z /\ ordered (time_of e) rest
  end.

(** Consecutive times are at least [limit] apart. *)
Fixpoint spaced (limit : Z) (times : list Z) : Prop :=
  match times with
  | t1 :: (t2 :: _) as rest => (t1 + limit <= t2)%Z /\ spaced limit rest
  | _ => True
  end.

(** The limit of the scroll listener. *)
Definition scrollLimit : Z := 100%Z.

End Throttle.

(** ** js/navigation.js: setupSmoothScroll *)

Module SmoothScroll.

(** [document.getElementById(id)]: the first element with that id in
    document order; null for the empty id. *)
Definition getElementById (id : string) (doc : list Dom.node) : option Dom.path :=
  match id with
  | EmptyString => None
  | _ => Dom.querySelector (Dom.ById id) doc
  end.

(** What a click on a navigation link leads to: whether the default
    navigation was suppressed, and the element that was scrolled into view
    (smoothly, aligned to its top), if any. *)
Record outcome : Type := mkOutcome {
  defaultPrevented : bool;
  scrolledTo : option Dom.path
}.

(** The click listener of a link whose href attribute is [href] (null when
    it has none). *)
Definition onClick (href : option string) (doc : list Dom.node) : outcome :=
  match href with
  | Some (String c targetId) =>
      (* href && href.startsWith('#') *)
      if Ascii.eqb c "#"
      then mkOutcome true (getElementById targetId doc)
      else mkOutcome false None
  | _ => mkOutcome false None
  end.

End SmoothScroll.

(** ** js/main.js: the life of a notification *)

Module Notifications.

(** An alert element of the body.  [alertId] stands for the identity of the
    element, which the closures of its timers hold. *)
Record alert : Type := mkAlert {
  alertId : nat;
  className : string;
  text : string;
  animation : string
}.

(** The two callbacks that [showNotification] sets for an element. *)
Inductive task : Type :=
| SlideOut (id : nat)
| Remove (id : nat).

Definition task_id (t : task) : nat :=
  match t with
  | SlideOut id => id
  | Remove id => id
  end.

(** The alerts in the body, the timers that have not fired yet with the
    times at which they are due, and the number of elements created so
    far. *)
Record page : Type := mkPage {
  body : list alert;
  timers : list (Z * task);
  created : nat
}.

Definition empty : page := mkPage [] [] 0.

(** [showNotification(message, type)] at time [now]. *)
Definition showNotification (now : Z) (message type : string) (p : page) : page :=
  mkPage
    (body p ++ [mkAlert (created p) ("alert alert-" ++ type) message
                  "slideIn 0.3s ease-in-out"])
    (timers p ++ [((now + App.successMessageDuration)%Z, SlideOut (created p))])
    (S (created p)).

(** The body of a timer callback, run at time [now]. *)
Definition run_task (now : Z) (t : task) (p : page) : page :=
  match t with
  | SlideOut id =>
      mkPage
        (map (fun a =>
                if Nat.eqb id (alertId a)
                then mkAlert (alertId a) (className a) (text a)
                       "slideOut 0.3s ease-in-out"
                else a)
           (body p))
        (timers p ++ [((now + 300)%Z, Remove id)])
        (created p)
  | Remove id =>
      mkPage (filter (fun a => negb (Nat.eqb id (alertId a))) (body p))
        (timers p) (created p)
  end.

Fixpoint drop_nth {A} (i : nat) (l : list A) : list A :=
  match l, i with
  | [], _ => []
  | _ :: l', O => l'
  | x :: l', S i' => x :: drop_nth i' l'
  end.

(** What happens to the page: a notification is shown, or the event loop
    runs the [i]-th pending timer. *)
Inductive event : Type :=
| Show (now : Z) (message type : string)
| Fire (now : Z) (i : nat).

(** A timer that is not due yet does not fire. *)
Definition step (e : event) (p : page) : page :=
  match e with
  | Show now message type => showNotification now message type p
  | Fire now i =>
      match nth_error (timers p) i with
      | Some (due, t) =>
          if Z.leb due now
          then run_task now t (mkPage (body p) (drop_nth i (timers p)) (created p))
          else p
      | None => p
      end
  end.

Definition steps (trace : list event) (p : page) : page :=
  fold_left (fun p e => step e p) trace p.

(** The elements that the pending timers hold, and the elements of the
    body. *)
Definition timer_ids (p : page) : list nat :=
  map (fun dt => task_id (snd dt)) (timers p).

Definition alert_ids (p : page) : list nat :=
  map alertId (body p).

(** The timer [t] is the one alert [a] waits for: the slide-out while it
    slides in, the removal once it slides out. *)
Definition awaits (a : alert) (t : task) : Prop :=
  (t = SlideOut (alertId a) /\ animation a = "slideIn 0.3s ease-in-out") \/
  (t = Remove (alertId a) /\ animation a = "slideOut 0.3s ease-in-out").

(** What holds of a page at every moment: every pending timer holds an
    element of the body, every element of the body is held by one pending
    timer, and that timer is the one it waits for. *)
Definition consistent (p : page) : Prop :=
  NoDup (timer_ids p) /\
  NoDup (alert_ids p) /\
  (forall id, In id (alert_ids p) <-> In id (timer_ids p)) /\
  (forall id, In id (timer_ids p) -> id < created p) /\
  (forall a due t,
     In a (body p) -> In (due, t) (timers p) ->
     task_id t = alertId a -> awaits a t).

End Notifications.

(** ** js/navigation.js: one click on the page *)

Module Menu.
(** The menu is open: the nav menu carries the class [active]. *)
Definition open (m : Navigation.menu) : bool :=
  Navigation.contains Navigation.activeClass (Navigation.navMenu m).

(** The target of a click, with whether it lies inside #navbar. *)
Inductive click : Type :=
| OnToggle (inNavbar : bool)
| OnLink (inNavbar : bool)
| Elsewhere (inNavbar : bool).

(** The listeners that one click runs while it bubbles from its target to
    the document. *)
Definition listeners_of (c : click) : list Navigation.listener :=
  match c with
  | OnToggle inNavbar => [Navigation.ToggleClick; Navigation.DocumentClick inNavbar]
  | OnLink inNavbar => [Navigation.LinkClick; Navigation.DocumentClick inNavbar]
  | Elsewhere inNavbar => [Navigation.DocumentClick inNavbar]
  end.

Definition after_click (c : click) (m : Navigation.menu) : Navigation.menu :=
  Navigation.runs (listeners_of c) m.
End Menu.

(** ** js/contentLoader.js: the first pass of init, callback by callback *)

(** The callbacks that [init] starts for the entries of [sectionsToCheck] are
    not awaited: each is suspended at the awaits of [load] and at its own, and
    the event loop resumes them in the order in which their promises settle.
    This model follows one callback from await to await and lets the
    callbacks resume in any order; the steps of the second pass are not
    interleaved with them. *)

Module FirstPass.

(** Where a callback of the first pass is suspended. *)
Inductive stage : Type :=
| Fetching                                (* at [await fetch(url)], in [load] *)
| Parsing (r : ContentLoader.response)    (* at [await response.json()], in [load] *)
| Loaded (content : Js.value)             (* at [await load(type)] *)
| Finished.

(** The page and the callbacks, one for every entry of [sectionsToCheck]. *)
Record state : Type := mkState {
  world : ContentLoader.world;
  stages : list stage
}.

Definition log (line : string) (w : ContentLoader.world) : ContentLoader.world :=
  snd (ContentLoader.console_error line w).

(** [sectionsToCheck.forEach(async ...)]: every callback runs up to its first
    await, which is the fetch of its document; all requests are issued
    before any callback resumes. *)
Definition start (w : ContentLoader.world) : state :=
  mkState
    (ContentLoader.mkWorld (ContentLoader.document w)
       (ContentLoader.requests w
        ++ map (fun e => ContentLoader.content_url (fst e))
             ContentLoader.sectionsToCheck)
       (ContentLoader.console w))
    (map (fun _ => Fetching) ContentLoader.sectionsToCheck).

(** A callback resumes and runs to its next await, or to its end. *)
Definition resume (net : ContentLoader.network) (e : string * Dom.selector)
  (st : stage) (w : ContentLoader.world) : stage * ContentLoader.world :=
  match st with
  | Fetching =>
      match net (ContentLoader.content_url (fst e)) with
      | Some r =>
          if negb (ContentLoader.ok r)
          then (Loaded Js.VNull, log ("Failed to load content: " ++ fst e) w)
          else (Parsing r, w)
      | None => (Loaded Js.VNull, log ("Error loading content file: " ++ fst e) w)
      end
  | Parsing r =>
      match ContentLoader.body r with
      | Some data => (Loaded data, w)
      | None => (Loaded Js.VNull, log ("Error loading content file: " ++ fst e) w)
      end
  | Loaded content =>
      (Finished, snd (ContentLoader.handleConditionalRendering content (snd e) w))
  | Finished => (Finished, w)
  end.

Fixpoint set_nth {A} (i : nat) (x : A) (l : list A) : list A :=
  match l, i with
  | [], _ => []
  | _ :: l', O => x :: l'
  | y :: l', S i' => y :: set_nth i' x l'
  end.

(** The event loop resumes the [i]-th callback. *)
Definition step (net : ContentLoader.network) (i : nat) (s : state) : state :=
  match nth_error ContentLoader.sectionsToCheck i, nth_error (stages s) i with
  | Some e, Some st =>
      let (st', w') := resume net e st (world s) in
      mkState w' (set_nth i st' (stages s))
  | _, _ => s
  end.

(** The callbacks resume in the order in which their promises settle: any
    order. *)
Definition run (net : ContentLoader.network) (schedule : list nat) (s : state)
  : state :=
  fold_left (fun s i => step net i s) schedule s.

(** How often the event loop resumes a callback. *)
Definition resumptions (i : nat) (schedule : list nat) : nat :=
  List.length (filter (Nat.eqb i) schedule).

(** What a suspended callback holds is what was loaded for its entry. *)
Definition sound (net : ContentLoader.network) (e : string * Dom.selector)
  (st : stage) : Prop :=
  match st with
  | Fetching | Finished => True
  | Parsing r =>
      net (ContentLoader.content_url (fst e)) = Some r /\ ContentLoader.ok r = true
  | Loaded content => content = Spec.loaded net (fst e)
  end.

(** How far a callback has come. *)
Definition rank (st : stage) : nat :=
  match st with
  | Fetching => 0
  | Parsing _ => 1
  | Loaded _ => 2
  | Finished => 3
  end.

(** What holds of the first pass at every moment, on a page that was
    [doc0] when the pass started. *)
Definition invariant (net : ContentLoader.network) (doc0 : list Dom.node)
  (s : state) : Prop :=
  (forall p, Dom.shallow p ->
             Dom.count_in p (ContentLoader.document (world s))
             <= Dom.count_in p doc0) /\
  (forall i e st,
     nth_error ContentLoader.sectionsToCheck i = Some e ->
     nth_error (stages s) i = Some st -> sound net e st) /\
  (forall i e,
     nth_error ContentLoader.sectionsToCheck i = Some e ->
     nth_error (stages s) i = Some Finished ->
     Spec.render_false (Spec.loaded net (fst e)) = true ->
     Dom.count_in (Dom.matches (snd e)) doc0 <= 1 ->
     Dom.count_in (Dom.matches (snd e)) (ContentLoader.document (world s)) = 0) /\
  ((forall e, In e ContentLoader.sectionsToCheck ->
              Spec.render_false (Spec.loaded net (fst e)) = false) ->
   ContentLoader.document (world s) = doc0).
End FirstPass.

(** ** Shapes of values and of pages *)

Module Cases.

(** [null] or [undefined]. *)
Definition nullish (v : Js.value) : bool :=
  match v with
  | Js.VUndefined | Js.VNull => true
  | _ => false
  end.

(** The value of [v.k] where reading it does not throw. *)
Definition prop (v : Js.value) (k : string) : Js.value :=
  match Js.get v k with
  | Js.Normal x => x
  | Js.Thrown _ => Js.VUndefined
  end.

(** The text of a value that can be converted to a string. *)
Definition text (v : Js.value) : string :=
  match Js.to_string v with
  | Js.Normal s => s
  | Js.Thrown _ => EmptyString
  end.

(** A value that is written only when it is truthy can be written. *)
Definition writable (v : Js.value) : bool :=
  negb (Js.truthy v) || Js.printable v.

(** The tags of an item can be written: there are none (a falsy value), or
    they are an array of values that can be converted to strings. *)
Definition tags_usable (item : Js.value) : bool :=
  negb (Js.truthy (prop item "tags"))
  || match prop item "tags" with
     | Js.VArr ts => forallb Js.printable ts
     | _ => false
     end.

(** The call to action of an item can be written: it has no truthy label,
    or its target (or [#] in its place) and its label can be converted to
    strings. *)
Definition cta_usable (item : Js.value) : bool :=
  let cta := prop item "cta" in
  let label := if Js.truthy cta then prop cta "text" else cta in
  negb (Js.truthy label)
  || (Js.printable (Js.or_else (prop cta "link") (Js.VStr "#"))
      && Js.printable label).

(** Everything that [createCard] writes of an item can be written. *)
Definition card_writable (item : Js.value) : bool :=
  Js.printable (Js.or_else (prop item "title") (Js.VStr EmptyString))
  && writable (prop item "description")
  && tags_usable item
  && cta_usable item.

(** Everything that [createResourceCard] writes of an item can be
    written. *)
Definition resource_writable (item : Js.value) : bool :=
  Js.printable (Js.or_else (prop item "title") (Js.VStr EmptyString))
  && writable (prop item "description")
  && writable (prop item "type")
  && (negb (Js.truthy (prop item "download"))
      || (Js.printable (prop (prop item "download") "url")
          && writable (prop (prop item "download") "filename"))).



(** How often a code unit occurs in a string. *)
Fixpoint count_char (c : ascii) (s : string) : nat :=
  match s with
  | EmptyString => 0
  | String x s' => (if Ascii.eqb c x then 1 else 0) + count_char c s'
  end.

(** How often a class occurs in a class list. *)
Definition occurrences (c : string) (l : Navigation.classList) : nat :=
  List.length (filter (String.eqb c) l).

(** The six steps of the second pass with the documents they load. *)
Definition second_pass_steps
  : list (string * (ContentLoader.network -> ContentLoader.M unit)) :=
  [("hero", ContentLoader.loadHero); ("about", ContentLoader.loadAbout);
   ("services", ContentLoader.loadServices);
   ("resources", ContentLoader.loadResources);
   ("booking", ContentLoader.loadBooking);
   ("contact", ContentLoader.loadContact)].

(** The steps of the second pass on a server. *)
Definition steps_on (net : ContentLoader.network)
  : list (ContentLoader.M unit) :=
  map (fun s => snd s net) second_pass_steps.

(** Steps run one after the other until one throws. *)
Definition in_sequence (steps : list (ContentLoader.M unit))
  : ContentLoader.M unit :=
  fold_right (fun step rest => Eff.bind step (fun _ => rest)) (Eff.ret tt) steps.

(** The page and the log that steps leave when each is run where the one
    before it ended. *)
Definition after (steps : list (ContentLoader.M unit))
  (w : ContentLoader.world) : ContentLoader.world :=
  fold_left (fun w step => snd (step w)) steps w.

(** What the catch block of the second pass does to the log. *)
Definition caught (w : ContentLoader.world) : ContentLoader.world :=
  snd (ContentLoader.console_error "Error initializing content loader:" w).

(** A server that cannot be reached. *)
Definition unreachable : ContentLoader.network := fun _ => None.

(** The card would carry a date badge: the kind is blog and the item has a
    date. *)
Definition dated (kind : string) (item : Js.value) : bool :=
  String.eqb kind "blog" && Js.truthy (prop item "date").

(** The cards of the items up to the first one of which no card can be
    created. *)
Fixpoint cards_before_throw (create : Js.value -> Js.completion Dom.node)
  (l : list Js.value) : list Dom.node :=
  match l with
  | [] => []
  | item :: rest =>
      match create item with
      | Js.Normal card => card :: cards_before_throw create rest
      | Js.Thrown _ => []
      end
  end.

(** What a container holds after items were rendered into it. *)
Definition rendered (create : Js.value -> Js.completion Dom.node)
  (items : Js.value) : list Dom.node :=
  match items with
  | Js.VArr l => cards_before_throw create l
  | _ => []
  end.

(** The items are an array, and a card can be created of every one. *)
Definition all_creatable (create : Js.value -> Js.completion Dom.node)
  (items : Js.value) : bool :=
  match items with
  | Js.VArr l => forallb (Spec.creates create) l
  | _ => false
  end.

Definition is_download_link (p : Markup.piece) : bool :=
  match p with
  | Markup.DownloadLink _ _ _ => true
  | _ => false
  end.

(** The download link of a resource: its target is the url as a template
    literal writes it, its download attribute the file name or nothing, its
    label the file name or [File]. *)
Definition download_links (download : Js.value) : list Markup.piece :=
  if Js.truthy download
  then [Markup.DownloadLink
          (text (prop download "url"))
          (text (Js.or_else (prop download "filename") (Js.VStr EmptyString)))
          (text (Js.or_else (prop download "filename") (Js.VStr "File")))]
  else [].

End Cases.

(* ===================================================================== *)
(** * Part II: properties *)
(* ===================================================================== *)

(** ** Strings *)

Lemma append_empty_r (s : string) : s ++ EmptyString = s.
Proof. induction s as [|c s IH]; simpl; [reflexivity | now rewrite IH]. Qed.

Lemma append_assoc (a b c : string) : (a ++ b) ++ c = a ++ (b ++ c).
Proof. induction a as [|x a IH]; simpl; [reflexivity | now rewrite IH]. Qed.

Lemma append_eq_empty (a b : string) :
  a ++ b = EmptyString -> a = EmptyString /\ b = EmptyString.
Proof. destruct a; simpl; [auto | discriminate]. Qed.

(** A non-empty concatenation starts in its first part, or its first part is
    empty. *)
Lemma append_eq_cons (a b : string) (c : ascii) (s : string) :
  a ++ b = String c s ->
  (a = EmptyString /\ b = String c s) \/
  (exists a', a = String c a' /\ s = a' ++ b).
Proof.
  destruct a as [|x a]; simpl; intros H.
  - left; auto.
  - right. inversion H; subst. exists a; auto.
Qed.

Lemma length_append (a b : string) :
  String.length (a ++ b) = String.length a + String.length b.
Proof. induction a as [|x a IH]; simpl; [reflexivity | now rewrite IH]. Qed.

Lemma trimStart_length (s : string) :
  String.length (Js.trimStart s) <= String.length s.
Proof.
  induction s as [|c s IH]; simpl; [lia |].
  destruct (Js.is_space c); simpl; lia.
Qed.

Lemma trimEnd_length (s : string) :
  String.length (Js.trimEnd s) <= String.length s.
Proof.
  induction s as [|c s IH]; simpl; [lia |].
  destruct (Js.trimEnd s) as [|d r]; simpl in *.
  - destruct (Js.is_space c); simpl; lia.
  - lia.
Qed.

Lemma trim_length (s : string) :
  String.length (Js.trim s) <= String.length s.
Proof.
  unfold Js.trim.
  pose proof (trimEnd_length (Js.trimStart s)).
  pose proof (trimStart_length s). lia.
Qed.

Lemma all_chars_append p (a b : string) :
  Js.all_chars p (a ++ b) = Js.all_chars p a && Js.all_chars p b.
Proof.
  induction a as [|c a IH]; simpl; [reflexivity |].
  now rewrite IH, andb_assoc.
Qed.

(** A string without white space is its own trim. *)
Lemma trimStart_no_space (s : string) :
  Js.all_chars Js.non_space s = true -> Js.trimStart s = s.
Proof.
  destruct s as [|c s]; simpl; [reflexivity |].
  unfold Js.non_space.
  destruct (Js.is_space c); simpl; [discriminate | reflexivity].
Qed.

Lemma trimEnd_no_space (s : string) :
  Js.all_chars Js.non_space s = true -> Js.trimEnd s = s.
Proof.
  induction s as [|c s IH]; simpl; [reflexivity |].
  intros H. apply andb_prop in H as [Hc Hs]. rewrite (IH Hs).
  destruct s; [| reflexivity].
  unfold Js.non_space in Hc.
  destruct (Js.is_space c); [discriminate | reflexivity].
Qed.

Lemma trim_no_space (s : string) :
  Js.all_chars Js.non_space s = true -> Js.trim s = s.
Proof.
  intros H. unfold Js.trim. rewrite (trimStart_no_space s H).
  now apply trimEnd_no_space.
Qed.

(** ** Regular expressions: the matcher decides the language *)

Lemma lang_empty_nullable (r : Regex.regex) (s : string) :
  Regex.lang r s -> s = EmptyString -> Regex.nullable r = true.
Proof.
  induction 1; intros E; simpl; try reflexivity; try discriminate.
  - apply append_eq_empty in E as [E1 E2]. now rewrite IHlang1, IHlang2.
  - now rewrite IHlang.
  - rewrite IHlang by assumption. apply orb_true_r.
Qed.

Lemma nullable_lang_empty (r : Regex.regex) :
  Regex.nullable r = true -> Regex.lang r EmptyString.
Proof.
  induction r; simpl; intros H; try discriminate.
  - constructor.
  - apply andb_prop in H as [H1 H2].
    change EmptyString with (EmptyString ++ EmptyString).
    constructor; auto.
  - apply orb_prop in H as [H | H].
    + apply Regex.LAltL; auto.
    + apply Regex.LAltR; auto.
  - constructor.
Qed.

Lemma deriv_sound (c : ascii) (r : Regex.regex) :
  forall s, Regex.lang (Regex.deriv c r) s -> Regex.lang r (String c s).
Proof.
  induction r; simpl; intros s H.
  - inversion H.
  - inversion H.
  - destruct (p c) eqn:E; inversion H; subst. now constructor.
  - destruct (Regex.nullable r1) eqn:N.
    + inversion H as [| | | ? ? ? H' | ? ? ? H' | |]; subst.
      * inversion H' as [| |? ? s1 s2 H1 H2 | | | |]; subst.
        change (String c (s1 ++ s2)) with (String c s1 ++ s2).
        constructor; auto.
      * change (String c s) with (EmptyString ++ String c s).
        constructor; auto using nullable_lang_empty.
    + inversion H as [| |? ? s1 s2 H1 H2 | | | |]; subst.
      change (String c (s1 ++ s2)) with (String c s1 ++ s2).
      constructor; auto.
  - inversion H; subst.
    + apply Regex.LAltL; auto.
    + apply Regex.LAltR; auto.
  - inversion H as [| |? ? s1 s2 H1 H2 | | | |]; subst.
    change (String c (s1 ++ s2)) with (String c s1 ++ s2).
    constructor; auto.
Qed.

Lemma deriv_complete (r : Regex.regex) (w : string) :
  Regex.lang r w ->
  forall c s, w = String c s -> Regex.lang (Regex.deriv c r) s.
Proof.
  induction 1; intros c0 s0 E; simpl.
  - discriminate.
  - inversion E; subst. rewrite H. constructor.
  - apply append_eq_cons in E as [[E1 E2] | [a' [E1 E2]]]; subst.
    + rewrite (lang_empty_nullable _ _ H eq_refl).
      apply Regex.LAltR. now apply IHlang2.
    + destruct (Regex.nullable r1).
      * apply Regex.LAltL. constructor; auto.
      * constructor; auto.
  - apply Regex.LAltL; auto.
  - apply Regex.LAltR; auto.
  - discriminate.
  - apply append_eq_cons in E as [[E1 E2] | [a' [E1 E2]]]; subst.
    + now apply IHlang2.
    + constructor; auto.
Qed.

Lemma matches_lang (s : string) :
  forall r, Regex.matches r s = true <-> Regex.lang r s.
Proof.
  induction s as [|c s IH]; intros r; simpl.
  - split; [apply nullable_lang_empty |].
    intros H. now apply (lang_empty_nullable r EmptyString).
  - rewrite IH. split; [apply deriv_sound |].
    intros H. now apply (deriv_complete r (String c s)).
Qed.

Lemma lang_cat_inv (r1 r2 : Regex.regex) (s : string) :
  Regex.lang (Regex.Cat r1 r2) s ->
  exists s1 s2, s = s1 ++ s2 /\ Regex.lang r1 s1 /\ Regex.lang r2 s2.
Proof. intros H. inversion H; subst. eauto. Qed.

Lemma lang_chr (c : ascii) (s : string) :
  Regex.lang (Regex.Chr c) s <-> s = String c EmptyString.
Proof.
  unfold Regex.Chr. split; intros H.
  - inversion H as [| ? c' E | | | | |]; subst.
    apply Ascii.eqb_eq in E. now subst.
  - subst. constructor. apply Ascii.eqb_refl.
Qed.

Lemma lang_star_class_all (r : Regex.regex) (s : string) :
  Regex.lang r s ->
  forall p, r = Regex.Star (Regex.Class p) -> Js.all_chars p s = true.
Proof.
  induction 1; intros q E; try discriminate.
  - reflexivity.
  - inversion E; subst.
    inversion H as [| ? c Hc | | | | |]; subst. simpl.
    rewrite Hc. simpl. now apply IHlang2.
Qed.

Lemma all_lang_star_class (p : ascii -> bool) (s : string) :
  Js.all_chars p s = true -> Regex.lang (Regex.Star (Regex.Class p)) s.
Proof.
  induction s as [|c s IH]; simpl; intros H.
  - constructor.
  - apply andb_prop in H as [Hc Hs].
    change (String c s) with (String c EmptyString ++ s).
    constructor; [now constructor | auto].
Qed.

(** [[p]+] matches the non-empty strings of code units that pass [p]. *)
Lemma lang_plus_class (p : ascii -> bool) (s : string) :
  Regex.lang (Regex.Plus (Regex.Class p)) s <->
  s <> EmptyString /\ Js.all_chars p s = true.
Proof.
  unfold Regex.Plus. split.
  - intros H. apply lang_cat_inv in H as (s1 & s2 & E & H1 & H2). subst.
    inversion H1 as [| ? c Hc | | | | |]; subst. simpl. split; [discriminate |].
    rewrite Hc. simpl. now apply (lang_star_class_all _ _ H2).
  - intros [Hne H]. destruct s as [|c s]; [contradiction |].
    simpl in H. apply andb_prop in H as [Hc Hs].
    change (String c s) with (String c EmptyString ++ s).
    constructor; [now constructor | now apply all_lang_star_class].
Qed.

(** The words of [emailRegex]. *)
Lemma emailRegex_lang (s : string) :
  Regex.lang App.emailRegex s <-> Spec.email_pattern App.local_char s.
Proof.
  unfold App.emailRegex, Spec.email_pattern. split.
  - intros H.
    apply lang_cat_inv in H as (a & s1 & -> & Ha & H).
    apply lang_cat_inv in H as (x & s2 & -> & Hx & H).
    apply lang_cat_inv in H as (b & s3 & -> & Hb & H).
    apply lang_cat_inv in H as (y & c & -> & Hy & Hc).
    apply lang_chr in Hx, Hy. subst.
    apply lang_plus_class in Ha as [? ?], Hb as [? ?], Hc as [? ?].
    exists a, b, c. repeat split; assumption.
  - intros (a & b & c & -> & Ha & Hb & Hc & Pa & Pb & Pc).
    constructor; [now apply lang_plus_class |].
    constructor; [now apply lang_chr |].
    constructor; [now apply lang_plus_class |].
    constructor; [now apply lang_chr |].
    now apply lang_plus_class.
Qed.

Lemma emailRegex_test_iff (s : string) :
  App.emailRegex_test s = true <-> Spec.email_pattern App.local_char s.
Proof.
  unfold App.emailRegex_test. rewrite matches_lang. apply emailRegex_lang.
Qed.

(** ** The contact form *)

(** [validateForm] runs the three rules one after the other, whatever the
    outcome of the earlier ones. *)
Lemma validateForm_eq (w : App.world) :
  App.validateForm w
  = (Js.Normal (Spec.passes (App.theForm w)), App.set_form Spec.validated w).
Proof.
  destruct w as [[[n nd ne] [e ed ee] [m md me] errs btn] al co sc].
  unfold App.validateForm, Spec.passes, Spec.validated, Spec.marked,
    Spec.inline_error, Spec.rule_of, Spec.name_rule, Spec.email_rule,
    Spec.message_rule, App.input_value, App.showFieldError, App.clearErrors,
    App.set_form, Eff.bind, Eff.ret, Eff.read, Eff.modify.
  destruct (Js.truthy_string (Js.trim n)) eqn:En;
    destruct (Js.truthy_string (Js.trim e)) eqn:Ee;
    destruct (App.emailRegex_test e) eqn:Er;
    destruct (Js.truthy_string (Js.trim m)) eqn:Em;
    destruct (String.length (Js.trim m) <? 10)%nat eqn:El;
    repeat (cbn -[Js.trim Js.truthy_string App.emailRegex_test Nat.ltb];
            rewrite ?En, ?Ee, ?Er, ?Em, ?El);
    reflexivity.
Qed.

Lemma handleFormSubmit_invalid (w : App.world) :
  Spec.passes (App.theForm w) = false ->
  App.handleFormSubmit w = (Js.Normal tt, App.set_form Spec.validated w).
Proof.
  intros H. unfold App.handleFormSubmit, App.block, App.declare.
  unfold Eff.bind at 1. unfold Eff.modify at 1.
  unfold Eff.bind at 1. cbv beta.
  rewrite validateForm_eq. destruct w as [f al co sc].
  cbn in *. rewrite H. reflexivity.
Qed.

(** A valid submission: the try block runs to its end, the finally block
    enables the button and then fails to resolve [originalText]. *)
Lemma handleFormSubmit_valid (w : App.world) (b : App.button) :
  Spec.passes (App.theForm w) = true ->
  App.submitBtn (App.theForm w) = Some b ->
  App.lookup "originalText" (App.scopes w) = None ->
  App.handleFormSubmit w
  = (Js.Thrown (Js.ReferenceError "originalText"),
     App.mkWorld
       (App.set_button (Some (App.mkButton false "Sending..."))
          (App.map_inputs
             (fun i => App.mkInput (App.defaultValue i) (App.defaultValue i)
                         (App.errorClass i))
             (Spec.validated (App.theForm w))))
       (App.alerts w
        ++ [("success", "Message sent successfully! We'll be in touch soon.")])
       (App.console w ++ ["Event: form_submission"])
       (App.scopes w)).
Proof.
  intros Hp Hb Hs. unfold App.handleFormSubmit, App.block, App.declare.
  unfold Eff.bind at 1. unfold Eff.modify at 1.
  unfold Eff.bind at 1. cbv beta.
  rewrite validateForm_eq. destruct w as [f al co sc].
  destruct f as [ni ei mi errs btn]. cbn in Hb, Hs. subst btn.
  cbn -[Spec.validated Spec.passes] in *. rewrite Hp.
  unfold Spec.validated.
  cbn -[Spec.inline_error Spec.marked App.lookup].
  unfold Eff.try_catch_finally, Eff.try_catch, App.resolve, Eff.bind,
    App.get_textContent, App.set_disabled, App.set_textContent, Eff.modify,
    App.simulated_delay, App.showSuccessMessage, App.showNotification,
    App.reset, App.logEvent, App.log, Eff.ret.
  cbn -[Spec.inline_error Spec.marked]. rewrite Hs. reflexivity.
Qed.

Lemma validateForm_result (w : App.world) (ok : bool) :
  fst (App.validateForm w) = Js.Normal ok -> Spec.passes (App.theForm w) = ok.
Proof. rewrite validateForm_eq. cbn. congruence. Qed.

(** C1 (evaluation of the code; the claim fails on it).  For every form that
    passes validation and has a submit button, on a page where no enclosing
    scope declares [originalText]: the attempt ends with the ReferenceError
    that the finally block raises when it reads [originalText], which the try
    block declared for itself alone.  The button has been enabled again by
    then, but its label is still the pending indicator, not the text it had
    before the attempt. *)
Theorem handleFormSubmit_label_left_pending (w : App.world) (b : App.button) :
  fst (App.validateForm w) = Js.Normal true ->
  App.submitBtn (App.theForm w) = Some b ->
  App.lookup "originalText" (App.scopes w) = None ->
  fst (App.handleFormSubmit w) = Js.Thrown (Js.ReferenceError "originalText") /\
  App.submitBtn (App.theForm (snd (App.handleFormSubmit w)))
  = Some (App.mkButton false "Sending...") /\
  App.alerts (snd (App.handleFormSubmit w))
  = (App.alerts w
     ++ [("success", "Message sent successfully! We'll be in touch soon.")])%list.
Proof.
  intros Hv Hb Hs. apply validateForm_result in Hv.
  rewrite (handleFormSubmit_valid w b Hv Hb Hs). cbn. auto.
Qed.

(** The failing input of C1: the valid submission of the specification, on
    a button labelled "Send Message". *)
Lemma handleFormSubmit_label_left_pending_witness :
  let w := Spec.filled_form "Jane Doe" "jane@example.com"
             "Hello, I'd like to book a session." "Send Message" in
  fst (App.handleFormSubmit w) = Js.Thrown (Js.ReferenceError "originalText") /\
  App.submitBtn (App.theForm (snd (App.handleFormSubmit w)))
  = Some (App.mkButton false "Sending...") /\
  App.alerts (snd (App.handleFormSubmit w))
  = (App.alerts w
     ++ [("success", "Message sent successfully! We'll be in touch soon.")])%list.
Proof.
  intros w.
  apply (handleFormSubmit_label_left_pending w (App.mkButton false "Send Message"));
    vm_compute; reflexivity.
Defined.

(** *** Validation *)

Lemma all_chars_impl (p q : ascii -> bool) (s : string) :
  (forall c, p c = true -> q c = true) ->
  Js.all_chars p s = true -> Js.all_chars q s = true.
Proof.
  intros Hpq. induction s as [|c s IH]; simpl; [reflexivity |].
  intros H. apply andb_prop in H as [Hc Hs].
  now rewrite (Hpq c Hc), IH.
Qed.

Lemma local_char_non_space (c : ascii) :
  App.local_char c = true -> Js.non_space c = true.
Proof.
  unfold App.local_char, Js.non_space.
  destruct (Js.is_space c); simpl; [discriminate | reflexivity].
Qed.

(** A string of the email pattern has no white space, so trimming leaves
    it as it is, and it is not empty. *)
Lemma email_pattern_trim (s : string) :
  Spec.email_pattern App.local_char s ->
  Js.truthy_string (Js.trim s) = true.
Proof.
  intros (a & b & c & -> & Ha & Hb & Hc & Pa & Pb & Pc).
  rewrite trim_no_space.
  - destruct a; [contradiction | reflexivity].
  - rewrite !all_chars_append.
    rewrite (all_chars_impl _ _ a local_char_non_space Pa).
    rewrite (all_chars_impl _ _ b local_char_non_space Pb).
    rewrite (all_chars_impl _ _ c local_char_non_space Pc).
    reflexivity.
Qed.

Lemma email_rule_none (v : string) :
  Spec.email_rule v = None <-> Spec.email_pattern App.local_char v.
Proof.
  unfold Spec.email_rule. rewrite <- emailRegex_test_iff. split.
  - destruct (Js.truthy_string (Js.trim v)); [| discriminate].
    destruct (App.emailRegex_test v); [reflexivity | discriminate].
  - intros H. pose proof H as H'.
    apply emailRegex_test_iff, email_pattern_trim in H'.
    now rewrite H', H.
Qed.

(** The errors beside a field after validation are those of its own rule. *)
Lemma errors_of_validated (fld : App.field) (f : App.form) :
  Spec.errors_of fld (Spec.validated f)
  = map snd (Spec.inline_error fld (App.value (App.get_input fld f))).
Proof.
  unfold Spec.errors_of, Spec.validated, Spec.inline_error.
  destruct fld; cbn;
    destruct (Spec.name_rule (App.value (App.nameInput f)));
    destruct (Spec.email_rule (App.value (App.emailInput f)));
    destruct (Spec.message_rule (App.value (App.messageInput f)));
    reflexivity.
Qed.

(** C4 (amended).  For every form, validation accepts the email exactly
    when it has the form: one or more characters that are neither white
    space nor '@', then '@', then one or more such characters, then '.',
    then one or more such characters. *)
Theorem email_accepted_iff (w : App.world) :
  Spec.email_accepted w = true <->
  Spec.email_pattern App.local_char (App.value (App.emailInput (App.theForm w))).
Proof.
  unfold Spec.email_accepted. rewrite validateForm_eq.
  destruct w as [f al co sc]. cbn [snd App.set_form App.theForm].
  rewrite errors_of_validated. cbn [App.get_input].
  rewrite <- email_rule_none. unfold Spec.inline_error. cbn [Spec.rule_of].
  destruct (Spec.email_rule (App.value (App.emailInput f))); cbn;
    split; intros H; congruence.
Qed.

(** C4 (counterexample).  "a@b@c.d" is made of non-space characters, '@',
    non-space characters, '.', non-space characters (with "b@c" as the
    middle part), and validation rejects it. *)
Lemma email_second_at_rejected :
  Spec.email_pattern Js.non_space "a@b@c.d" /\
  Spec.email_accepted
    (Spec.filled_form "Jane Doe" "a@b@c.d"
       "Hello, I'd like to book a session." "Send Message") = false.
Proof.
  split; [| vm_compute; reflexivity].
  exists "a", "b@c", "d".
  repeat split; try discriminate; reflexivity.
Qed.

(** C7.  The three rules are evaluated one by one, none skipped: after
    [validateForm] the inline errors are those of the name rule, of the email
    rule and of the message rule, each decided by its own field alone.  So a
    submission with an empty name, the email "not-an-email" and any message
    of five characters shows exactly three inline errors, one per field;
    [validateForm] answers false and [handleFormSubmit] returns at once: no
    banner is shown, nothing is logged, the submit button and the texts of
    the fields stay as they were. *)
Theorem three_field_errors (w : App.world) (message : string) :
  App.value (App.nameInput (App.theForm w)) = EmptyString ->
  App.value (App.emailInput (App.theForm w)) = "not-an-email" ->
  App.value (App.messageInput (App.theForm w)) = message ->
  String.length message = 5 ->
  let w' := snd (App.handleFormSubmit w) in
  (forall w0,
     App.fieldErrors (App.theForm (snd (App.validateForm w0)))
     = (Spec.inline_error App.FName (App.value (App.nameInput (App.theForm w0)))
        ++ Spec.inline_error App.FEmail (App.value (App.emailInput (App.theForm w0)))
        ++ Spec.inline_error App.FMessage (App.value (App.messageInput (App.theForm w0))))%list) /\
  fst (App.validateForm w) = Js.Normal false /\
  fst (App.handleFormSubmit w) = Js.Normal tt /\
  (exists m1 m2 m3,
     App.fieldErrors (App.theForm w')
     = [(App.FName, m1); (App.FEmail, m2); (App.FMessage, m3)]) /\
  List.length (Spec.errors_of App.FName (App.theForm w')) = 1 /\
  List.length (Spec.errors_of App.FEmail (App.theForm w')) = 1 /\
  List.length (Spec.errors_of App.FMessage (App.theForm w')) = 1 /\
  App.alerts w' = App.alerts w /\
  App.console w' = App.console w /\
  App.submitBtn (App.theForm w') = App.submitBtn (App.theForm w) /\
  (forall fld, App.value (App.get_input fld (App.theForm w'))
               = App.value (App.get_input fld (App.theForm w))).
Proof.
  intros Hn He Hm Hlen w'.
  assert (Hname : Spec.name_rule EmptyString = Some "Name is required")
    by reflexivity.
  assert (Hemail : Spec.email_rule "not-an-email" = Some "Please enter a valid email")
    by (vm_compute; reflexivity).
  assert (Hmsg : exists m3, Spec.message_rule message = Some m3).
  { unfold Spec.message_rule.
    destruct (Js.truthy_string (Js.trim message)); [| eauto].
    pose proof (trim_length message) as Hle.
    destruct (Nat.ltb_spec (String.length (Js.trim message)) 10); [eauto | lia]. }
  destruct Hmsg as [m3 Hmsg].
  assert (Hv : Spec.validated (App.theForm w)
               = App.mkForm
                   (App.mkInput EmptyString (App.defaultValue (App.nameInput (App.theForm w))) true)
                   (App.mkInput "not-an-email" (App.defaultValue (App.emailInput (App.theForm w))) true)
                   (App.mkInput message (App.defaultValue (App.messageInput (App.theForm w))) true)
                   [(App.FName, "Name is required");
                    (App.FEmail, "Please enter a valid email");
                    (App.FMessage, m3)]
                   (App.submitBtn (App.theForm w))).
  { unfold Spec.validated, Spec.marked, Spec.inline_error.
    cbn [Spec.rule_of]. rewrite Hn, He, Hm, Hname, Hemail, Hmsg. reflexivity. }
  assert (Hp : Spec.passes (App.theForm w) = false).
  { unfold Spec.passes. rewrite Hv. reflexivity. }
  split; [intros w0; rewrite validateForm_eq; destruct w0; reflexivity |].
  split; [rewrite validateForm_eq; cbn; now rewrite Hp |].
  subst w'. rewrite (handleFormSubmit_invalid w Hp).
  destruct w as [f al co sc]. cbn [fst snd App.set_form App.theForm App.alerts
                                   App.console] in *.
  rewrite Hv. cbn.
  repeat split; eauto.
  intros fld. destruct fld; cbn; congruence.
Qed.

(** C7 at the submission of the specification, with the message "hello". *)
Lemma three_field_errors_witness :
  let w := Spec.filled_form EmptyString "not-an-email" "hello" "Send Message" in
  fst (App.validateForm w) = Js.Normal false /\
  fst (App.handleFormSubmit w) = Js.Normal tt /\
  (exists m1 m2 m3,
     App.fieldErrors (App.theForm (snd (App.handleFormSubmit w)))
     = [(App.FName, m1); (App.FEmail, m2); (App.FMessage, m3)]) /\
  App.alerts (snd (App.handleFormSubmit w)) = [].
Proof.
  intros w.
  destruct (three_field_errors w "hello" eq_refl eq_refl eq_refl eq_refl)
    as (_ & Hv & Hr & He & _ & _ & _ & Ha & _).
  repeat split; assumption.
Defined.

(** ** Navigation *)

Lemma contains_remove_same (c : string) (l : Navigation.classList) :
  Navigation.contains c (Navigation.remove c l) = false.
Proof.
  unfold Navigation.contains, Navigation.remove.
  induction l as [|x l IH]; simpl; [reflexivity |].
  destruct (String.eqb c x) eqn:E; simpl; [assumption |].
  now rewrite E.
Qed.

Lemma contains_app (c : string) (l1 l2 : Navigation.classList) :
  Navigation.contains c (l1 ++ l2)%list
  = Navigation.contains c l1 || Navigation.contains c l2.
Proof. unfold Navigation.contains. apply existsb_app. Qed.

Lemma contains_remove_other (c a : string) (l : Navigation.classList) :
  c <> a ->
  Navigation.contains c (Navigation.remove a l) = Navigation.contains c l.
Proof.
  intros Hne. unfold Navigation.contains, Navigation.remove.
  induction l as [|x l IH]; simpl; [reflexivity |].
  destruct (String.eqb a x) eqn:E; simpl.
  - apply String.eqb_eq in E. subst x.
    apply String.eqb_neq in Hne. now rewrite Hne.
  - now rewrite IH.
Qed.

Lemma contains_add_same (c : string) (l : Navigation.classList) :
  Navigation.contains c (Navigation.add c l) = true.
Proof.
  unfold Navigation.add.
  destruct (Navigation.contains c l) eqn:E; [assumption |].
  rewrite contains_app, E. simpl. unfold Navigation.contains. simpl.
  now rewrite String.eqb_refl.
Qed.

Lemma contains_add_other (c a : string) (l : Navigation.classList) :
  c <> a ->
  Navigation.contains c (Navigation.add a l) = Navigation.contains c l.
Proof.
  intros Hne. unfold Navigation.add.
  destruct (Navigation.contains a l); [reflexivity |].
  rewrite contains_app. unfold Navigation.contains at 2. simpl.
  apply String.eqb_neq in Hne. rewrite Hne. now rewrite !orb_false_r.
Qed.

Lemma contains_toggle (c : string) (l : Navigation.classList) :
  Navigation.contains c (Navigation.toggle c l)
  = negb (Navigation.contains c l).
Proof.
  unfold Navigation.toggle.
  destruct (Navigation.contains c l) eqn:E; simpl.
  - apply contains_remove_same.
  - rewrite contains_app, E. unfold Navigation.contains. simpl.
    now rewrite String.eqb_refl.
Qed.

(** Every listener keeps the two elements in step. *)
Lemma run_in_step (l : Navigation.listener) (m : Navigation.menu) :
  Navigation.contains Navigation.activeClass (Navigation.menuToggle m)
  = Navigation.contains Navigation.activeClass (Navigation.navMenu m) ->
  Navigation.contains Navigation.activeClass
    (Navigation.menuToggle (Navigation.run l m))
  = Navigation.contains Navigation.activeClass
      (Navigation.navMenu (Navigation.run l m)).
Proof.
  intros H. destruct l as [| | inside]; simpl.
  - now rewrite !contains_toggle, H.
  - now rewrite !contains_remove_same.
  - destruct (negb inside
              && Navigation.contains Navigation.activeClass (Navigation.navMenu m));
      simpl; [now rewrite !contains_remove_same | assumption].
Qed.

Lemma runs_in_step (ls : list Navigation.listener) :
  forall m,
    Navigation.contains Navigation.activeClass (Navigation.menuToggle m)
    = Navigation.contains Navigation.activeClass (Navigation.navMenu m) ->
    Navigation.contains Navigation.activeClass
      (Navigation.menuToggle (Navigation.runs ls m))
    = Navigation.contains Navigation.activeClass
        (Navigation.navMenu (Navigation.runs ls m)).
Proof.
  unfold Navigation.runs.
  induction ls as [|l ls IH]; intros m H; simpl; [assumption |].
  apply IH. now apply run_in_step.
Qed.

(** C10.  From a state in which neither the menu toggle nor the nav menu
    carries the class [active], after any sequence of runs of the listeners
    (the toggle's, a menu link's, the document's, the latter for a click
    inside or outside the navbar), the toggle carries [active] if and only
    if the menu carries it. *)
Theorem menu_toggle_in_step (m : Navigation.menu) (ls : list Navigation.listener) :
  Navigation.contains Navigation.activeClass (Navigation.menuToggle m) = false ->
  Navigation.contains Navigation.activeClass (Navigation.navMenu m) = false ->
  Navigation.contains Navigation.activeClass
    (Navigation.menuToggle (Navigation.runs ls m)) = true
  <->
  Navigation.contains Navigation.activeClass
    (Navigation.navMenu (Navigation.runs ls m)) = true.
Proof.
  intros Ht Hm. rewrite (runs_in_step ls m); [reflexivity | congruence].
Qed.

(** C10 on a page whose toggle and menu have their classes of the markup:
    a click on the toggle, a click outside, a click on the toggle again and
    on a link. *)
Lemma menu_toggle_in_step_witness :
  let m := Navigation.mkMenu ["menu-toggle"] ["nav-menu"] in
  let ls := [Navigation.ToggleClick; Navigation.DocumentClick true;
             Navigation.DocumentClick false;
             Navigation.ToggleClick; Navigation.DocumentClick true;
             Navigation.LinkClick; Navigation.DocumentClick true] in
  Navigation.contains Navigation.activeClass
    (Navigation.menuToggle (Navigation.runs ls m)) = true
  <->
  Navigation.contains Navigation.activeClass
    (Navigation.navMenu (Navigation.runs ls m)) = true.
Proof.
  intros m ls. apply (menu_toggle_in_step m ls); reflexivity.
Defined.

(** *** Scroll tracking *)

Lemma hd_error_app {A} (l1 l2 : list A) :
  hd_error (l1 ++ l2)%list
  = match hd_error l1 with Some x => Some x | None => hd_error l2 end.
Proof. destruct l1; reflexivity. Qed.

Lemma currentSection_fold (scrollY : Z) (sections : list Navigation.section) :
  forall current,
    fold_left
      (fun current s =>
         if Z.geb scrollY (Navigation.offsetTop s - 100)
         then Navigation.sectionId s else current)
      sections current
    = match Spec.lastQualifying scrollY sections with
      | Some s => Navigation.sectionId s
      | None => current
      end.
Proof.
  unfold Spec.lastQualifying.
  induction sections as [|s ss IH]; intros current; simpl; [reflexivity |].
  rewrite IH. unfold Spec.qualifies at 2.
  replace (Z.geb scrollY (Navigation.offsetTop s - 100))
    with (Z.leb (Navigation.offsetTop s) (scrollY + 100)).
  2:{ rewrite Z.geb_leb.
      destruct (Z.leb_spec (Navigation.offsetTop s) (scrollY + 100));
        destruct (Z.leb_spec (Navigation.offsetTop s - 100) scrollY);
        (reflexivity || lia). }
  destruct (Z.leb (Navigation.offsetTop s) (scrollY + 100)); simpl.
  - rewrite hd_error_app.
    destruct (hd_error (rev (filter (Spec.qualifies scrollY) ss))); reflexivity.
  - reflexivity.
Qed.

(** The value of [current] when the loop over the sections ends. *)
Lemma currentSection_eq (scrollY : Z) (sections : list Navigation.section) :
  Navigation.currentSection scrollY sections
  = match Spec.lastQualifying scrollY sections with
    | Some s => Navigation.sectionId s
    | None => Some EmptyString
    end.
Proof. apply currentSection_fold. Qed.

Lemma attr_eqb_eq (a b : option string) :
  Navigation.attr_eqb a b = true <-> a = b.
Proof.
  destruct a as [x|], b as [y|]; simpl; try (split; congruence).
  rewrite String.eqb_eq. split; congruence.
Qed.

Lemma updateLink_active (current : option string) (l : Navigation.navLink) :
  Spec.is_active (Navigation.updateLink current l)
  = Navigation.attr_eqb (Navigation.dataSection l) current.
Proof.
  unfold Spec.is_active, Navigation.updateLink. simpl.
  destruct (Navigation.attr_eqb (Navigation.dataSection l) current).
  - apply contains_add_same.
  - apply contains_remove_same.
Qed.

Lemma updateLink_other (current : option string) (l : Navigation.navLink)
  (c : string) :
  c <> Navigation.activeClass ->
  Navigation.contains c (Navigation.linkClasses (Navigation.updateLink current l))
  = Navigation.contains c (Navigation.linkClasses l).
Proof.
  intros Hne. unfold Navigation.updateLink. simpl.
  destruct (Navigation.attr_eqb (Navigation.dataSection l) current).
  - rewrite contains_add_other by assumption.
    now apply contains_remove_other.
  - now apply contains_remove_other.
Qed.

(** C9 (amended).  For every list of sections, every scroll offset and
    every list of links, one run of the scroll listener leaves every link in
    its place with its data-section and its other classes, and marks a link
    [active] exactly when its data-section equals the id of the last section
    in document order whose top lies at or above the scroll offset plus
    100px, or, when no section qualifies, when its data-section is the empty
    text (the value the listener starts from).  So when no section
    qualifies, no link is marked whose data-section is not the empty
    text. *)
Theorem scroll_spy_marks_current (scrollY : Z)
  (sections : list Navigation.section) (links : list Navigation.navLink) :
  let links' := Navigation.onScroll scrollY sections links in
  List.length links' = List.length links /\
  (forall i l,
     nth_error links i = Some l ->
     exists l',
       nth_error links' i = Some l' /\
       Navigation.dataSection l' = Navigation.dataSection l /\
       (Spec.is_active l' = true <->
        (exists s, Spec.lastQualifying scrollY sections = Some s /\
                   Navigation.dataSection l = Navigation.sectionId s) \/
        (Spec.lastQualifying scrollY sections = None /\
         Navigation.dataSection l = Some EmptyString)) /\
       (Spec.lastQualifying scrollY sections = None ->
        Navigation.dataSection l <> Some EmptyString ->
        Spec.is_active l' = false) /\
       (forall c, c <> Navigation.activeClass ->
          Navigation.contains c (Navigation.linkClasses l')
          = Navigation.contains c (Navigation.linkClasses l))).
Proof.
  intros links'. subst links'. unfold Navigation.onScroll.
  rewrite currentSection_eq. split; [apply length_map |].
  intros i l Hi.
  exists (Navigation.updateLink
            (match Spec.lastQualifying scrollY sections with
             | Some s => Navigation.sectionId s
             | None => Some EmptyString
             end) l).
  split; [now apply map_nth_error |].
  split; [reflexivity |].
  split; [| split; [| intros c Hc; now apply updateLink_other]].
  - rewrite updateLink_active, attr_eqb_eq.
    destruct (Spec.lastQualifying scrollY sections) as [s|].
    + split; [intros H; left; exists s; auto |].
      intros [(s' & E & H) | [E _]]; [now inversion E; subst | discriminate].
    + split; [intros H; right; auto |].
      intros [(s' & E & _) | [_ H]]; [discriminate | exact H].
  - intros Hnone Hnamed. rewrite Hnone.
    destruct (Spec.is_active _) eqn:E; [| reflexivity].
    rewrite updateLink_active, attr_eqb_eq in E. contradiction.
Qed.

(** C9 (amended) on a page of three sections, scrolled to 650px: the second
    link is marked, the first loses its mark. *)
Lemma scroll_spy_marks_current_witness :
  let sections := [Navigation.mkSection 0 (Some "home");
                   Navigation.mkSection 600 (Some "about");
                   Navigation.mkSection 1400 (Some "services")] in
  let links := [Navigation.mkNavLink (Some "home") ["active"];
                Navigation.mkNavLink (Some "about") [];
                Navigation.mkNavLink (Some "services") []] in
  Spec.lastQualifying 650 sections = Some (Navigation.mkSection 600 (Some "about")) /\
  List.length (Navigation.onScroll 650 sections links) = 3 /\
  map Spec.is_active (Navigation.onScroll 650 sections links)
  = [false; true; false].
Proof.
  intros sections links.
  split; [reflexivity |].
  split; [apply (scroll_spy_marks_current 650 sections links) | reflexivity].
Defined.

(** C9 (counterexample).  A page with one section and two links, one of
    them with an empty data-section attribute, scrolled to 200px above the
    top: no section qualifies, and the link with the empty attribute is
    marked [active]. *)
Lemma empty_data_section_marked_active :
  let sections := [Navigation.mkSection 0 (Some "home")] in
  let links := [Navigation.mkNavLink (Some "home") [];
                Navigation.mkNavLink (Some EmptyString) []] in
  Spec.lastQualifying (-200) sections = None /\
  map Spec.is_active (Navigation.onScroll (-200) sections links)
  = [false; true].
Proof. split; reflexivity. Qed.

(** ** The content loader *)

(** *** load *)

Lemma load_eq (net : ContentLoader.network) (name : string)
  (w : ContentLoader.world) :
  exists lines,
    ContentLoader.load net name w
    = (Js.Normal (Spec.loaded net name),
       ContentLoader.mkWorld (ContentLoader.document w)
         (ContentLoader.requests w ++ [ContentLoader.content_url name])
         (ContentLoader.console w ++ lines)).
Proof.
  unfold ContentLoader.load, Spec.loaded, ContentLoader.content_url,
    Eff.try_catch, Eff.bind, ContentLoader.fetch, ContentLoader.json,
    ContentLoader.console_error, Eff.modify, Eff.ret, Eff.throw.
  destruct (net ("content/" ++ name ++ ".json")) as [[[|] [v|]]|]; cbn.
  - exists []. now rewrite app_nil_r.
  - eexists [_]. reflexivity.
  - eexists [_]. reflexivity.
  - eexists [_]. reflexivity.
  - eexists [_]. reflexivity.
Qed.

(** A load followed by what is done with the document: the continuation
    runs on the loaded document, on the page as it was. *)
Lemma step_eq_document {A} (net : ContentLoader.network) (name : string)
  (k : Js.value -> ContentLoader.M A) (w : ContentLoader.world) :
  exists w1,
    Eff.bind (ContentLoader.load net name) k w = k (Spec.loaded net name) w1 /\
    ContentLoader.document w1 = ContentLoader.document w.
Proof.
  destruct (load_eq net name w) as [lines H].
  unfold Eff.bind. rewrite H. eexists. split; reflexivity.
Qed.

(** C6.  For every content name, [load] fetches [content/name.json] and
    nothing else, leaves the page as it is, and ends normally in every
    case: with the parsed document when the response has a success status
    and a JSON body, with null when the network fails, when the status is
    not a success and when the body does not parse. *)
Theorem load_never_throws (net : ContentLoader.network) (name : string)
  (w : ContentLoader.world) :
  let r := ContentLoader.load net name w in
  ContentLoader.requests (snd r)
  = (ContentLoader.requests w ++ [("content/" ++ name ++ ".json")%string])%list /\
  ContentLoader.document (snd r) = ContentLoader.document w /\
  (exists v, fst r = Js.Normal v) /\
  (forall v, net ("content/" ++ name ++ ".json")
             = Some (ContentLoader.mkResponse true (Some v)) ->
             fst r = Js.Normal v) /\
  (net ("content/" ++ name ++ ".json") = None -> fst r = Js.Normal Js.VNull) /\
  (forall b, net ("content/" ++ name ++ ".json")
             = Some (ContentLoader.mkResponse false b) ->
             fst r = Js.Normal Js.VNull) /\
  (net ("content/" ++ name ++ ".json")
   = Some (ContentLoader.mkResponse true None) ->
   fst r = Js.Normal Js.VNull).
Proof.
  intros r. subst r. destruct (load_eq net name w) as [lines ->].
  cbn [fst snd ContentLoader.requests ContentLoader.document].
  unfold Spec.loaded.
  repeat split; eauto; intros; rewrite H; reflexivity.
Qed.

(** *** The document tree *)

Lemma node_ind_forall (P : Dom.node -> Prop) :
  (forall tag id cn attrs children,
     Forall P children -> P (Dom.Element tag id cn attrs children)) ->
  (forall data, P (Dom.Text data)) ->
  (forall ps, P (Dom.Markup ps)) ->
  forall n, P n.
Proof.
  intros HE HT HM. fix IH 1. intros [tag id cn attrs children | data | ps].
  - apply HE. induction children as [|c cs IHcs]; constructor.
    + apply IH.
    + apply IHcs.
  - apply HT.
  - apply HM.
Qed.

(** A hit of the search among a list of nodes lies in one of them. *)
Lemma first_in_some (find1 : Dom.node -> option Dom.path) (ns : list Dom.node) :
  forall k q,
    Dom.first_in find1 k ns = Some q ->
    exists i n q',
      q = (k + i) :: q' /\ nth_error ns i = Some n /\ find1 n = Some q'.
Proof.
  induction ns as [|n ns IH]; intros k q H; simpl in H; [discriminate |].
  destruct (find1 n) as [q'|] eqn:E.
  - inversion H; subst. exists 0, n, q'. rewrite Nat.add_0_r. auto.
  - apply IH in H as (i & n' & q' & -> & Hn & Hf).
    exists (S i), n', q'. rewrite Nat.add_succ_r. auto.
Qed.

(** What the search finds passes the test, and the path leads to it. *)
Lemma find_sub (p : Dom.node -> bool) (n : Dom.node) :
  forall q, Dom.find p n = Some q ->
            exists n', Dom.sub q n = Some n' /\ p n' = true.
Proof.
  induction n as [tag id cn attrs children IH | data | ps]
    using node_ind_forall; intros q H; simpl in H.
  - destruct (p (Dom.Element tag id cn attrs children)) eqn:E.
    + inversion H; subst. simpl. eauto.
    + apply first_in_some in H as (i & c & q' & -> & Hn & Hf).
      simpl. rewrite Hn.
      rewrite Forall_forall in IH.
      apply (IH c); [eapply nth_error_In; eassumption | assumption].
  - destruct (p (Dom.Text data)) eqn:E; [| discriminate].
    inversion H; subst. simpl. eauto.
  - destruct (p (Dom.Markup ps)) eqn:E; [| discriminate].
    inversion H; subst. simpl. eauto.
Qed.

(** [querySelector] answers with the path of an element that matches. *)
Lemma querySelector_node_at (sel : Dom.selector) (doc : list Dom.node)
  (c : Dom.path) :
  Dom.querySelector sel doc = Some c ->
  exists tag id cn attrs children,
    Dom.node_at c doc = Some (Dom.Element tag id cn attrs children) /\
    Dom.matches sel (Dom.Element tag id cn attrs children) = true.
Proof.
  unfold Dom.querySelector. intros H.
  apply first_in_some in H as (i & n & q' & -> & Hn & Hf).
  apply find_sub in Hf as (n' & Hs & Hm).
  simpl. rewrite Hn, Hs.
  destruct n' as [tag id cn attrs children | |]; try discriminate.
  exists tag, id, cn, attrs, children. auto.
Qed.

Lemma splice_nth (f : Dom.node -> list Dom.node) (ns : list Dom.node) :
  forall i n n',
    nth_error ns i = Some n -> f n = [n'] ->
    nth_error (Dom.splice i f ns) i = Some n'.
Proof.
  induction ns as [|x ns IH]; intros i n n' Hn Hf.
  - destruct i; discriminate.
  - destruct i as [|i]; simpl in *.
    + inversion Hn; subst. now rewrite Hf.
    + eapply IH; eassumption.
Qed.

(** Changing the children of the element at a path leaves it at that path,
    with its tag, id and attributes. *)
Lemma sub_alter_in (f : list Dom.node -> list Dom.node) (q : Dom.path) :
  forall n tag id cn attrs children,
    Dom.sub q n = Some (Dom.Element tag id cn attrs children) ->
    exists n',
      Dom.alter_in q (Dom.with_children f) n = [n'] /\
      Dom.sub q n' = Some (Dom.Element tag id cn attrs (f children)).
Proof.
  induction q as [|i q IH]; intros n tag id cn attrs children H; simpl in H.
  - inversion H; subst. simpl. eauto.
  - destruct n as [t0 i0 c0 a0 cs | |]; try discriminate.
    destruct (nth_error cs i) as [x|] eqn:Hx; [| discriminate].
    destruct (IH _ _ _ _ _ _ H) as (x' & Ha & Hs).
    exists (Dom.Element t0 i0 c0 a0
              (Dom.splice i (Dom.alter_in q (Dom.with_children f)) cs)).
    split; [reflexivity |].
    cbn [Dom.sub]. now rewrite (splice_nth _ _ _ _ _ Hx Ha).
Qed.

Lemma node_at_alter (f : list Dom.node -> list Dom.node) (c : Dom.path)
  (doc : list Dom.node) tag id cn attrs children :
  Dom.node_at c doc = Some (Dom.Element tag id cn attrs children) ->
  Dom.node_at c (Dom.alter c (Dom.with_children f) doc)
  = Some (Dom.Element tag id cn attrs (f children)).
Proof.
  destruct c as [|i q]; simpl; [discriminate |].
  destruct (nth_error doc i) as [x|] eqn:Hx; [| discriminate].
  intros H. destruct (sub_alter_in f q _ _ _ _ _ _ H) as (x' & Ha & Hs).
  cbn [Dom.alter]. now rewrite (splice_nth _ _ _ _ _ Hx Ha).
Qed.

(** Counting the elements that a selector matches. *)

Lemma matches_shallow (sel : Dom.selector) : Dom.shallow (Dom.matches sel).
Proof. intros tag id cn attrs children children'. reflexivity. Qed.

Lemma list_sum_zero (l : list nat) :
  list_sum l = 0 <-> Forall (fun x => x = 0) l.
Proof.
  induction l as [|x l IH]; simpl.
  - split; [constructor | reflexivity].
  - split.
    + intros H. constructor; [lia |]. apply IH. lia.
    + intros H. inversion H; subst. apply IH in H3. lia.
Qed.

Lemma count_in_app (p : Dom.node -> bool) (l1 l2 : list Dom.node) :
  Dom.count_in p (l1 ++ l2)%list = Dom.count_in p l1 + Dom.count_in p l2.
Proof. unfold Dom.count_in. now rewrite map_app, list_sum_app. Qed.

Lemma count_in_cons (p : Dom.node -> bool) (n : Dom.node) (ns : list Dom.node) :
  Dom.count_in p (n :: ns) = Dom.count p n + Dom.count_in p ns.
Proof. reflexivity. Qed.

Lemma first_in_none (find1 : Dom.node -> option Dom.path) (ns : list Dom.node) :
  forall k,
    Dom.first_in find1 k ns = None <-> Forall (fun n => find1 n = None) ns.
Proof.
  induction ns as [|n ns IH]; intros k; simpl.
  - split; [constructor | reflexivity].
  - destruct (find1 n) eqn:E.
    + split; [discriminate |]. intros H. inversion H; subst. congruence.
    + rewrite IH. split.
      * intros H. now constructor.
      * intros H. now inversion H.
Qed.

(** The search finds nothing exactly when nothing passes the test. *)
Lemma find_none_count (p : Dom.node -> bool) (n : Dom.node) :
  Dom.find p n = None <-> Dom.count p n = 0.
Proof.
  induction n as [tag id cn attrs children IH | data | ps]
    using node_ind_forall; simpl.
  - destruct (p (Dom.Element tag id cn attrs children)).
    + split; [discriminate | lia].
    + rewrite first_in_none. simpl. rewrite list_sum_zero, Forall_map.
      rewrite !Forall_forall in *. split; intros H c Hc.
      * apply (IH c Hc), (H c Hc).
      * apply (IH c Hc), (H c Hc).
  - destruct (p (Dom.Text data)); split; (discriminate || lia || reflexivity).
  - destruct (p (Dom.Markup ps)); split; (discriminate || lia || reflexivity).
Qed.

Lemma querySelector_none_count (sel : Dom.selector) (doc : list Dom.node) :
  Dom.querySelector sel doc = None <-> Dom.count_in (Dom.matches sel) doc = 0.
Proof.
  unfold Dom.querySelector, Dom.count_in.
  rewrite first_in_none, list_sum_zero, Forall_map.
  rewrite !Forall_forall. split; intros H n Hn.
  - apply find_none_count, (H n Hn).
  - apply find_none_count, (H n Hn).
Qed.

Lemma splice_count (p : Dom.node -> bool) (g : Dom.node -> list Dom.node)
  (ns : list Dom.node) :
  forall i n,
    nth_error ns i = Some n ->
    Dom.count_in p (Dom.splice i g ns) + Dom.count p n
    = Dom.count_in p ns + Dom.count_in p (g n).
Proof.
  induction ns as [|x ns IH]; intros i n Hn.
  - destruct i; discriminate.
  - destruct i as [|i]; simpl in *.
    + inversion Hn; subst. rewrite count_in_app, count_in_cons. lia.
    + specialize (IH i n Hn). rewrite !count_in_cons. lia.
Qed.

(** Removing the node at a path takes its matches, and no others, out of
    the count. *)
Lemma alter_in_remove_count (p : Dom.node -> bool) (q : Dom.path) :
  Dom.shallow p ->
  forall n x,
    Dom.sub q n = Some x ->
    Dom.count_in p (Dom.alter_in q (fun _ => []) n) + Dom.count p x
    = Dom.count p n.
Proof.
  intros Hp. induction q as [|i q IH]; intros n x H; simpl in H.
  - inversion H; subst. reflexivity.
  - destruct n as [tag id cn attrs cs | |]; try discriminate.
    destruct (nth_error cs i) as [c|] eqn:Hc; [| discriminate].
    specialize (IH c x H).
    pose proof (splice_count p (Dom.alter_in q (fun _ => [])) cs i c Hc) as Hs.
    cbn [Dom.alter_in]. rewrite count_in_cons.
    change (Dom.count_in p []) with 0.
    cbn [Dom.count].
    fold (Dom.count_in p (Dom.splice i (Dom.alter_in q (fun _ => [])) cs)).
    fold (Dom.count_in p cs).
    rewrite (Hp tag id cn attrs _ cs). lia.
Qed.

Lemma remove_at_count (p : Dom.node -> bool) (c : Dom.path)
  (doc : list Dom.node) (x : Dom.node) :
  Dom.shallow p ->
  Dom.node_at c doc = Some x ->
  Dom.count_in p (Dom.remove_at c doc) + Dom.count p x = Dom.count_in p doc.
Proof.
  intros Hp. destruct c as [|i q]; simpl; [discriminate |].
  destruct (nth_error doc i) as [n|] eqn:Hn; [| discriminate].
  intros H. unfold Dom.remove_at. cbn [Dom.alter].
  pose proof (splice_count p (Dom.alter_in q (fun _ => [])) doc i n Hn).
  pose proof (alter_in_remove_count p q Hp n x H). lia.
Qed.

(** Removing the first element that a selector finds adds no match of any
    selector, and leaves none of its own when there was at most one. *)
Lemma without_first_count_le (p : Dom.node -> bool) (sel : Dom.selector)
  (doc : list Dom.node) :
  Dom.shallow p ->
  Dom.count_in p (Spec.without_first sel doc) <= Dom.count_in p doc.
Proof.
  intros Hp. unfold Spec.without_first.
  destruct (Dom.querySelector sel doc) as [c|] eqn:Hc; [| lia].
  destruct (querySelector_node_at _ _ _ Hc)
    as (tag & id & cn & attrs & children & Hn & _).
  pose proof (remove_at_count p c doc _ Hp Hn). lia.
Qed.

Lemma remove_found_count (sel : Dom.selector) (doc : list Dom.node)
  (c : Dom.path) :
  Dom.querySelector sel doc = Some c ->
  Dom.count_in (Dom.matches sel) (Dom.remove_at c doc)
  < Dom.count_in (Dom.matches sel) doc.
Proof.
  intros Hc.
  destruct (querySelector_node_at _ _ _ Hc)
    as (tag & id & cn & attrs & children & Hn & Hm).
  pose proof (remove_at_count _ c doc _ (matches_shallow sel) Hn) as H.
  cbn [Dom.count] in H. rewrite Hm in H. lia.
Qed.

Lemma without_first_gone (sel : Dom.selector) (doc : list Dom.node) :
  Dom.count_in (Dom.matches sel) doc <= 1 ->
  Dom.count_in (Dom.matches sel) (Spec.without_first sel doc) = 0.
Proof.
  intros H1. unfold Spec.without_first.
  destruct (Dom.querySelector sel doc) as [c|] eqn:Hc.
  - pose proof (remove_found_count sel doc c Hc). lia.
  - now apply querySelector_none_count.
Qed.

(** *** The visibility rule *)

(** [content && content.render === false] *)
Lemma hidden_eq (content : Js.value) (w : ContentLoader.world) :
  (if Js.truthy content
   then Eff.bind (Eff.lift (Js.get content "render"))
          (fun render => Eff.ret (Js.is_false render))
   else Eff.ret false) w
  = (Js.Normal (Spec.render_false content), w).
Proof.
  destruct content as [| | [|] | n | [|a s] | l | fields]; cbn;
    try reflexivity.
  - destruct (negb (Js.is_zero n)); reflexivity.
  - unfold Eff.bind, Eff.lift, Eff.ret.
    destruct (Js.assoc "render" fields) as [[| | [|] | | | |]|]; reflexivity.
Qed.

Lemma handleConditionalRendering_eq (content : Js.value) (sel : Dom.selector)
  (w : ContentLoader.world) (c : Dom.path) :
  Dom.querySelector sel (ContentLoader.document w) = Some c ->
  ContentLoader.handleConditionalRendering content sel w
  = (Js.Normal tt,
     ContentLoader.mkWorld
       (if Spec.render_false content
        then Spec.without_section c (ContentLoader.document w)
        else ContentLoader.document w)
       (ContentLoader.requests w) (ContentLoader.console w)).
Proof.
  intros Hc. unfold ContentLoader.handleConditionalRendering.
  unfold Eff.bind at 1. unfold ContentLoader.querySelector at 1.
  unfold Eff.read at 1. rewrite Hc.
  unfold Eff.bind at 1. rewrite hidden_eq.
  destruct (Spec.render_false content); [| destruct w; reflexivity].
  unfold Spec.without_section, Spec.without_first, Spec.section_id,
    Spec.nav_link, Spec.nav_spacer.
  destruct w as [doc reqs cons].
  cbn -[Dom.querySelector Dom.remove_at Dom.node_at].
  unfold Eff.bind, ContentLoader.element_id, Eff.read,
    ContentLoader.change_document, Eff.modify, ContentLoader.querySelector,
    ContentLoader.remove_if_found.
  cbn -[Dom.querySelector Dom.remove_at Dom.node_at].
  set (id := match Dom.node_at c doc with
             | Some n => Dom.id_of n
             | None => EmptyString
             end).
  destruct (Dom.querySelector (Dom.TagAttr "a" "data-section" id)
              (Dom.remove_at c doc)) as [l|];
    cbn -[Dom.querySelector Dom.remove_at Dom.node_at].
  - destruct (Dom.querySelector (Dom.ClassAttr "nav-spacer" "data-section" id)
                (Dom.remove_at l (Dom.remove_at c doc))); reflexivity.
  - destruct (Dom.querySelector (Dom.ClassAttr "nav-spacer" "data-section" id)
                (Dom.remove_at c doc)); reflexivity.
Qed.

(** On a page where a selector matches at most one element, removing the
    section leaves nothing that the selector matches, be it the selector of
    the section, of its nav link or of its nav spacer. *)
Lemma without_section_gone (sel : Dom.selector) (doc : list Dom.node)
  (c : Dom.path) (s : Dom.selector) :
  Dom.querySelector sel doc = Some c ->
  In s [sel; Spec.nav_link (Spec.section_id c doc);
        Spec.nav_spacer (Spec.section_id c doc)] ->
  Dom.count_in (Dom.matches s) doc <= 1 ->
  Dom.querySelector s (Spec.without_section c doc) = None.
Proof.
  intros Hc Hs H1. apply querySelector_none_count.
  unfold Spec.without_section.
  set (id := Spec.section_id c doc) in *.
  set (d1 := Dom.remove_at c doc).
  set (d2 := Spec.without_first (Spec.nav_link id) d1).
  destruct (querySelector_node_at _ _ _ Hc)
    as (tag & i & cn & attrs & children & Hn & _).
  assert (L1 : forall p, Dom.shallow p -> Dom.count_in p d1 <= Dom.count_in p doc).
  { intros p Hp. pose proof (remove_at_count p c doc _ Hp Hn). unfold d1. lia. }
  assert (L2 : forall p, Dom.shallow p -> Dom.count_in p d2 <= Dom.count_in p d1).
  { intros p Hp. apply without_first_count_le, Hp. }
  assert (L3 : forall p, Dom.shallow p ->
                 Dom.count_in p (Spec.without_first (Spec.nav_spacer id) d2)
                 <= Dom.count_in p d2).
  { intros p Hp. apply without_first_count_le, Hp. }
  destruct Hs as [<- | [<- | [<- | []]]].
  - pose proof (remove_found_count sel doc c Hc).
    pose proof (L2 _ (matches_shallow sel)).
    pose proof (L3 _ (matches_shallow sel)). unfold d1 in *. lia.
  - pose proof (L1 _ (matches_shallow (Spec.nav_link id))).
    assert (Dom.count_in (Dom.matches (Spec.nav_link id)) d2 = 0)
      by (apply without_first_gone; lia).
    pose proof (L3 _ (matches_shallow (Spec.nav_link id))). lia.
  - pose proof (L1 _ (matches_shallow (Spec.nav_spacer id))).
    pose proof (L2 _ (matches_shallow (Spec.nav_spacer id))).
    apply without_first_gone. lia.
Qed.

(** C5.  For every section whose container exists, whatever was loaded:
    the rule ends normally, fetches and logs nothing, and leaves the page
    without the container, without the nav link and without the nav spacer
    of the section when the document has its render field equal to false,
    and as it was otherwise; in particular the page is unchanged when the
    document is null (failed load) and when its render field is absent or
    null.  What is removed is gone: where the selector of the section, of
    its nav link or of its nav spacer matched at most one element, it matches
    none afterwards. *)
Theorem section_removed_iff_render_false (content : Js.value)
  (sel : Dom.selector) (w : ContentLoader.world) (c : Dom.path) :
  Dom.querySelector sel (ContentLoader.document w) = Some c ->
  let r := ContentLoader.handleConditionalRendering content sel w in
  fst r = Js.Normal tt /\
  ContentLoader.requests (snd r) = ContentLoader.requests w /\
  ContentLoader.console (snd r) = ContentLoader.console w /\
  ContentLoader.document (snd r)
  = (if Spec.render_false content
     then Spec.without_section c (ContentLoader.document w)
     else ContentLoader.document w) /\
  (forall fields,
     content = Js.VObj fields ->
     Js.assoc "render" fields = Some (Js.VBool false) ->
     ContentLoader.document (snd r)
     = Spec.without_section c (ContentLoader.document w)) /\
  (Spec.render_false content = true ->
   forall s,
     In s [sel; Spec.nav_link (Spec.section_id c (ContentLoader.document w));
           Spec.nav_spacer (Spec.section_id c (ContentLoader.document w))] ->
     Dom.count_in (Dom.matches s) (ContentLoader.document w) <= 1 ->
     Dom.querySelector s (ContentLoader.document (snd r)) = None) /\
  (content = Js.VNull ->
   ContentLoader.document (snd r) = ContentLoader.document w) /\
  (forall fields,
     content = Js.VObj fields ->
     Js.assoc "render" fields = None \/ Js.assoc "render" fields = Some Js.VNull ->
     ContentLoader.document (snd r) = ContentLoader.document w).
Proof.
  intros Hc r. subst r. rewrite (handleConditionalRendering_eq content sel w c Hc).
  cbn [fst snd ContentLoader.requests ContentLoader.console ContentLoader.document].
  repeat split.
  - intros fields -> Hr. cbn. now rewrite Hr.
  - intros Hr s Hs H1. rewrite Hr.
    now apply (without_section_gone sel _ c s).
  - intros ->. reflexivity.
  - intros fields -> [Hr | Hr]; cbn; now rewrite Hr.
Qed.

(** C5 on the sample page: the About document with [render: false] takes
    the About section, its link and its spacer off the page, and nothing
    else. *)
Lemma section_removed_iff_render_false_witness :
  let about := Js.VObj [("title", Js.VStr "About"); ("render", Js.VBool false)] in
  Dom.querySelector (Dom.ById "about") Spec.sample_page = Some [2] /\
  ContentLoader.document
    (snd (ContentLoader.handleConditionalRendering about (Dom.ById "about")
            Spec.sample_world))
  = [Dom.Element "nav" "navbar" "navbar" []
       [Dom.Element "a" EmptyString EmptyString
          [("href", "#home"); ("data-section", "home")] [Dom.Text "Home"];
        Dom.Element "a" EmptyString EmptyString
          [("href", "#services"); ("data-section", "services")]
          [Dom.Text "Services"];
        Dom.Element "a" EmptyString EmptyString
          [("href", "#contact"); ("data-section", "contact")]
          [Dom.Text "Contact"]];
     Dom.Element "section" "home" "section hero" []
       [Dom.Element "p" "hero-subtitle" EmptyString [] []];
     Dom.Element "section" "services" "section" []
       [Dom.Element "div" "services-grid" "grid" [] [Dom.Text "Loading"]];
     Dom.Element "section" "contact" "section" []
       [Dom.Element "div" "contact-content" EmptyString [] [Dom.Text "Loading"]]].
Proof.
  intros about. split; [reflexivity |].
  destruct (section_removed_iff_render_false about (Dom.ById "about")
              Spec.sample_world [2] eq_refl) as (_ & _ & _ & Hd & _).
  rewrite Hd. reflexivity.
Defined.

(** A section whose load failed keeps its place: the callback of the first
    pass leaves the page as it was. *)
Lemma checkSection_failed_load (net : ContentLoader.network)
  (entry : string * Dom.selector) (w : ContentLoader.world) :
  Spec.loaded net (fst entry) = Js.VNull ->
  ContentLoader.document (snd (ContentLoader.checkSection net entry w))
  = ContentLoader.document w.
Proof.
  intros Hnull. unfold ContentLoader.checkSection.
  destruct (step_eq_document net (fst entry)
              (fun content =>
                 ContentLoader.handleConditionalRendering content (snd entry)) w)
    as (w1 & -> & <-).
  rewrite Hnull.
  destruct (Dom.querySelector (snd entry) (ContentLoader.document w1)) as [c|] eqn:Hc.
  - now rewrite (handleConditionalRendering_eq _ _ _ c Hc).
  - unfold ContentLoader.handleConditionalRendering, Eff.bind,
      ContentLoader.querySelector, Eff.read.
    rewrite Hc. reflexivity.
Qed.

(** *** Cards *)

Lemma fold_badges (ts : list string) :
  forall acc,
    ContentLoader.appendBadges acc (map Js.VStr ts)
    = Js.Normal (acc ++ map Markup.TagBadge ts)%list.
Proof.
  induction ts as [|t ts IH]; intros acc; simpl.
  - now rewrite app_nil_r.
  - rewrite IH, <- app_assoc. reflexivity.
Qed.

(** Reading the fields of the JSON object of a card record. *)
Lemma card_json_fields (c : Spec.card) :
  Js.get (Spec.card_json c) "title"
  = Js.Normal (Spec.opt Js.VStr (Spec.title c)) /\
  Js.get (Spec.card_json c) "description"
  = Js.Normal (Spec.opt Js.VStr (Spec.description c)) /\
  Js.get (Spec.card_json c) "date"
  = Js.Normal (Spec.opt Js.VStr (Spec.date c)) /\
  Js.get (Spec.card_json c) "tags"
  = Js.Normal (Spec.opt (fun ts => Js.VArr (map Js.VStr ts)) (Spec.tags c)) /\
  Js.get (Spec.card_json c) "cta"
  = Js.Normal (Spec.opt Spec.cta_json (Spec.action c)).
Proof.
  destruct c as [[t|] [d|] [dt|] [tg|] [a|]]; repeat split; reflexivity.
Qed.

Lemma to_string_or_else (o : option string) (dflt : string) :
  Js.to_string (Js.or_else (Spec.opt Js.VStr o) (Js.VStr dflt))
  = Js.Normal (if Spec.present o then Spec.text_of o else dflt).
Proof. destruct o as [[|]|]; reflexivity. Qed.

(** The call-to-action of [createCard], after whatever was emitted
    before. *)
Lemma cta_part (a : option Spec.cta) (h : list Markup.piece) (cn : string) :
  (text <- (if Js.truthy (Spec.opt Spec.cta_json a)
            then Js.get (Spec.opt Spec.cta_json a) "text"
            else Js.Normal (Spec.opt Spec.cta_json a)) ;;
   cardHTML <-
     (if Js.truthy text
      then link <- Js.get (Spec.opt Spec.cta_json a) "link" ;;
           href <- Js.to_string (Js.or_else link (Js.VStr "#")) ;;
           label <- Js.to_string text ;;
           Js.Normal (h ++ [Markup.ActionLink href label])%list
      else Js.Normal h) ;;
   Js.Normal (ContentLoader.div cn cardHTML))%compl
  = Js.Normal
      (ContentLoader.div cn
         (h ++ match a with
               | Some a =>
                   if Spec.present (Spec.label a)
                   then [Markup.ActionLink
                           (if Spec.present (Spec.target a)
                            then Spec.text_of (Spec.target a) else "#")
                           (Spec.text_of (Spec.label a))]
                   else []
               | None => []
               end)%list).
Proof.
  destruct a as [[[[|l0 l]|] [[|g0 g]|]]|]; cbn; rewrite ?app_nil_r; reflexivity.
Qed.

(** [createCard] on the JSON object of a card record makes the card the
    specification describes. *)
Lemma createCard_card_json (c : Spec.card) (kind : string) :
  ContentLoader.createCard (Spec.card_json c) kind
  = Js.Normal (Spec.card_element c kind).
Proof.
  destruct (card_json_fields c) as (Ht & Hd & Hdt & Htg & Ha).
  unfold ContentLoader.createCard, Spec.card_element, Spec.card_pieces,
    Spec.has_date.
  rewrite Ht, Hd, Htg, Ha. cbn [Js.bindc].
  rewrite to_string_or_else. cbn [Js.bindc].
  replace (if Spec.present (Spec.title c) then Spec.text_of (Spec.title c)
           else EmptyString)
    with (Spec.text_of (Spec.title c))
    by (destruct (Spec.title c) as [[|]|]; reflexivity).
  generalize (Spec.text_of (Spec.title c)) as t. intros t.
  generalize ("card " ++ kind ++ "-card") as cn. intros cn.
  destruct (String.eqb kind "blog"); [rewrite Hdt |]; clear Ht Hd Hdt Htg Ha;
    destruct c as [t0 [[|d0 d]|] [[|dt0 dt]|] [tg|] a];
    cbn [Js.bindc Js.truthy Js.truthy_string Spec.opt Spec.present
         Spec.description Spec.date Spec.tags Spec.action Spec.text_of
         Js.to_string andb];
    rewrite ?fold_badges; cbn [Js.bindc]; rewrite cta_part; cbn [app];
    rewrite <- ?app_assoc; cbn [app]; reflexivity.
Qed.

Lemma existsb_date_tags (ts : list string) :
  existsb Markup.is_date_badge (map Markup.TagBadge ts) = false.
Proof. induction ts; simpl; auto. Qed.

(** Nothing after the heading of a card is a date badge. *)
Lemma no_date_after_heading (c : Spec.card) (kind : string) :
  exists rest,
    Spec.card_pieces c kind
    = ((if String.eqb kind "blog" && Spec.has_date c
        then [Markup.DateMeta
                (ContentLoader.formatDate (Js.VStr (Spec.text_of (Spec.date c))))]
        else [])
       ++ Markup.Heading (Spec.text_of (Spec.title c)) :: rest)%list /\
    existsb Markup.is_date_badge rest = false.
Proof.
  unfold Spec.card_pieces. eexists. split; [reflexivity |].
  rewrite !existsb_app.
  destruct (Spec.present (Spec.description c)); simpl;
    (destruct (Spec.tags c) as [ts|]; simpl;
     [rewrite existsb_app, existsb_date_tags; simpl |]);
    (destruct (Spec.action c) as [a|]; [| reflexivity]);
    destruct (Spec.present (Spec.label a)); reflexivity.
Qed.

(** C2.  For every card record and every kind, [createCard] makes a [div]
    element of class [card kind-card] whose one child is the markup written
    to its innerHTML, and that markup has a date badge exactly when the kind
    is "blog" and the record has a (non-empty) date: then the badge is the
    first piece, the title follows it at once, no other date badge follows,
    and the badge shows the date as [formatDate] writes it, which for
    "2026-01-15" is "January 15, 2026"; otherwise, so for every other kind
    whatever the date, the markup starts with the title and has no date
    badge. *)
Theorem date_badge_iff_blog (c : Spec.card) (kind : string) :
  exists ps,
    ContentLoader.createCard (Spec.card_json c) kind
    = Js.Normal
        (Dom.Element "div" EmptyString ("card " ++ kind ++ "-card") []
           [Dom.Markup ps]) /\
    (if String.eqb kind "blog" && Spec.has_date c
     then exists rest,
            ps = Markup.DateMeta
                   (ContentLoader.formatDate (Js.VStr (Spec.text_of (Spec.date c))))
                 :: Markup.Heading (Spec.text_of (Spec.title c)) :: rest /\
            existsb Markup.is_date_badge rest = false
     else exists rest,
            ps = Markup.Heading (Spec.text_of (Spec.title c)) :: rest /\
            existsb Markup.is_date_badge ps = false) /\
    ContentLoader.formatDate (Js.VStr "2026-01-15") = "January 15, 2026".
Proof.
  exists (Spec.card_pieces c kind).
  rewrite createCard_card_json. unfold Spec.card_element, ContentLoader.div.
  destruct (no_date_after_heading c kind) as (rest & -> & Hrest).
  destruct (String.eqb kind "blog" && Spec.has_date c); cbn [app Dom.inner].
  - split; [reflexivity |]. split; [| reflexivity]. exists rest. auto.
  - split; [reflexivity |]. split; [| reflexivity]. exists rest. auto.
Qed.

(** The item of the example blog.json, as a blog card and as a service
    card. *)
Example createCard_blog_example :
  ContentLoader.createCard Spec.blog_example "blog"
  = Js.Normal
      (ContentLoader.div "card blog-card"
         [Markup.DateMeta "January 15, 2026";
          Markup.Heading "Understanding Anxiety";
          Markup.Paragraph "Anxiety is a normal emotion...";
          Markup.TagsOpen; Markup.TagBadge "Mental Health";
          Markup.TagBadge "Anxiety"; Markup.TagsClose;
          Markup.ActionLink "/blog/understanding-anxiety" "Read Full Article"]).
Proof. reflexivity. Qed.

Example createCard_service_example :
  ContentLoader.createCard Spec.blog_example "service"
  = Js.Normal
      (ContentLoader.div "card service-card"
         [Markup.Heading "Understanding Anxiety";
          Markup.Paragraph "Anxiety is a normal emotion...";
          Markup.TagsOpen; Markup.TagBadge "Mental Health";
          Markup.TagBadge "Anxiety"; Markup.TagsClose;
          Markup.ActionLink "/blog/understanding-anxiety" "Read Full Article"]).
Proof. reflexivity. Qed.

(** The text that is assigned to innerHTML for a heading and a paragraph,
    and the length of the markup of an empty date badge (two tags, two line
    breaks and the indentation of the template). *)
Example html_text_example :
  Markup.html [Markup.Heading "Workshops"; Markup.Paragraph "Group sessions"]
  = "<h3>Workshops</h3><p>Group sessions</p>" /\
  String.length (Markup.html [Markup.DateMeta EmptyString]) = 124.
Proof. split; reflexivity. Qed.





(** The services grid of the sample page after two services were rendered
    into it. *)
Example renderCards_sample :
  Dom.node_at [3; 0]
    (ContentLoader.document
       (snd (ContentLoader.renderCards
               (Js.VArr
                  (map Spec.card_json
                     [Spec.mkCard (Some "Individual Therapy")
                        (Some "One-on-one sessions") None
                        (Some ["Therapy"; "Individual"])
                        (Some (Spec.mkCta (Some "Schedule Now") (Some "#contact")));
                      Spec.mkCard (Some "Workshops") None None None None]))
               (Dom.ById "services-grid") "service" Spec.sample_world)))
  = Some
      (Dom.Element "div" "services-grid" "grid" []
         [ContentLoader.div "card service-card"
            [Markup.Heading "Individual Therapy";
             Markup.Paragraph "One-on-one sessions";
             Markup.TagsOpen; Markup.TagBadge "Therapy";
             Markup.TagBadge "Individual"; Markup.TagsClose;
             Markup.ActionLink "#contact" "Schedule Now"];
          ContentLoader.div "card service-card" [Markup.Heading "Workshops"]]).
Proof. reflexivity. Qed.


(** *** The second pass of init *)

(** Which computations fetch nothing. *)

Lemma quiet_ret {A} (a : A) : Spec.quiet (Eff.ret a).
Proof. intros w. reflexivity. Qed.

Lemma quiet_throw {A} (e : Js.error) : Spec.quiet (@Eff.throw _ A e).
Proof. intros w. reflexivity. Qed.

Lemma quiet_lift {A} (c : Js.completion A) : Spec.quiet (Eff.lift c).
Proof. intros w. reflexivity. Qed.

Lemma quiet_querySelector (sel : Dom.selector) :
  Spec.quiet (ContentLoader.querySelector sel).
Proof. intros w. reflexivity. Qed.

Lemma quiet_change_document (f : list Dom.node -> list Dom.node) :
  Spec.quiet (ContentLoader.change_document f).
Proof. intros w. reflexivity. Qed.

Lemma quiet_console_error (line : string) :
  Spec.quiet (ContentLoader.console_error line).
Proof. intros w. reflexivity. Qed.

Lemma quiet_bind {A B} (m : ContentLoader.M A) (k : A -> ContentLoader.M B) :
  Spec.quiet m -> (forall a, Spec.quiet (k a)) -> Spec.quiet (Eff.bind m k).
Proof.
  intros Hm Hk w. unfold Eff.bind. specialize (Hm w).
  destruct (m w) as [[a | e] w']; cbn in *.
  - now rewrite Hk.
  - assumption.
Qed.

Lemma quiet_forEach {A} (f : A -> ContentLoader.M unit) (l : list A) :
  (forall a, Spec.quiet (f a)) -> Spec.quiet (Eff.forEach f l).
Proof.
  intros Hf. induction l as [|a l IH]; cbn [Eff.forEach].
  - apply quiet_ret.
  - apply quiet_bind; auto.
Qed.

Create HintDb quiet.
#[local] Hint Resolve quiet_ret quiet_throw quiet_lift quiet_querySelector
  quiet_change_document quiet_console_error : quiet.

Ltac quiet_steps :=
  repeat first
    [ apply quiet_bind; [| intros ?]
    | apply quiet_forEach; intros ?
    | solve [auto with quiet]
    | match goal with
      | |- Spec.quiet (match ?x with _ => _ end) => destruct x
      end ].

Lemma quiet_appendEach (create : Js.value -> Js.completion Dom.node)
  (c : Dom.path) (items : Js.value) :
  Spec.quiet (ContentLoader.appendEach create c items).
Proof. unfold ContentLoader.appendEach. quiet_steps. Qed.

Lemma quiet_renderCards (items : Js.value) (sel : Dom.selector) (kind : string) :
  Spec.quiet (ContentLoader.renderCards items sel kind).
Proof.
  unfold ContentLoader.renderCards. quiet_steps. apply quiet_appendEach.
Qed.

Lemma quiet_renderResources (items : Js.value) (sel : Dom.selector) :
  Spec.quiet (ContentLoader.renderResources items sel).
Proof.
  unfold ContentLoader.renderResources. quiet_steps. apply quiet_appendEach.
Qed.

Lemma quiet_renderText (content : Js.value) (sel : Dom.selector) :
  Spec.quiet (ContentLoader.renderText content sel).
Proof. unfold ContentLoader.renderText. quiet_steps. Qed.

Lemma quiet_and_get (a : Js.value) (k : string) :
  Spec.quiet (ContentLoader.and_get a k).
Proof. unfold ContentLoader.and_get. quiet_steps. Qed.

(** A step of the pass: a load, then what is done with the document. *)
Lemma step_eq (net : ContentLoader.network) (name : string)
  (k : Js.value -> ContentLoader.M unit) (w : ContentLoader.world) :
  exists w1,
    Eff.bind (ContentLoader.load net name) k w = k (Spec.loaded net name) w1 /\
    ContentLoader.requests w1
    = (ContentLoader.requests w ++ [ContentLoader.content_url name])%list.
Proof.
  destruct (load_eq net name w) as [lines H].
  unfold Eff.bind. rewrite H. eexists. split; reflexivity.
Qed.

Lemma step_requests (net : ContentLoader.network) (name : string)
  (k : Js.value -> ContentLoader.M unit) (w : ContentLoader.world) :
  (forall v, Spec.quiet (k v)) ->
  ContentLoader.requests (snd (Eff.bind (ContentLoader.load net name) k w))
  = (ContentLoader.requests w ++ [ContentLoader.content_url name])%list.
Proof.
  intros Hk. destruct (step_eq net name k w) as (w1 & -> & <-). apply Hk.
Qed.

(** Every step fetches its own document and nothing else, whether it ends
    normally or not. *)

Lemma loadHero_requests net w :
  ContentLoader.requests (snd (ContentLoader.loadHero net w))
  = (ContentLoader.requests w ++ [ContentLoader.content_url "hero"])%list.
Proof.
  apply step_requests. intros v. quiet_steps. apply quiet_and_get.
Qed.

Lemma loadAbout_requests net w :
  ContentLoader.requests (snd (ContentLoader.loadAbout net w))
  = (ContentLoader.requests w ++ [ContentLoader.content_url "about"])%list.
Proof.
  apply step_requests. intros v.
  destruct (Js.truthy v); [apply quiet_renderText | apply quiet_ret].
Qed.

Lemma loadServices_requests net w :
  ContentLoader.requests (snd (ContentLoader.loadServices net w))
  = (ContentLoader.requests w ++ [ContentLoader.content_url "services"])%list.
Proof.
  apply step_requests. intros v.
  apply quiet_bind; [apply quiet_and_get |]. intros items.
  destruct (Js.truthy items); [apply quiet_renderCards | apply quiet_ret].
Qed.

Lemma loadResources_requests net w :
  ContentLoader.requests (snd (ContentLoader.loadResources net w))
  = (ContentLoader.requests w ++ [ContentLoader.content_url "resources"])%list.
Proof.
  apply step_requests. intros v.
  destruct (Js.truthy v); [| apply quiet_ret].
  apply quiet_bind; [apply quiet_lift |]. intros intro.
  apply quiet_bind.
  - destruct (Js.truthy intro); [apply quiet_renderText | apply quiet_ret].
  - intros _. apply quiet_bind; [apply quiet_lift |]. intros items.
    destruct (Js.truthy items); [apply quiet_renderResources | apply quiet_ret].
Qed.

Lemma loadBooking_requests net w :
  ContentLoader.requests (snd (ContentLoader.loadBooking net w))
  = (ContentLoader.requests w ++ [ContentLoader.content_url "booking"])%list.
Proof.
  apply step_requests. intros v.
  destruct (Js.truthy v); [apply quiet_renderText | apply quiet_ret].
Qed.

Lemma loadContact_requests net w :
  ContentLoader.requests (snd (ContentLoader.loadContact net w))
  = (ContentLoader.requests w ++ [ContentLoader.content_url "contact"])%list.
Proof.
  apply step_requests. intros v.
  destruct (Js.truthy v); [apply quiet_renderText | apply quiet_ret].
Qed.

Lemma steps_on_requests (net : ContentLoader.network) :
  Forall2
    (fun step url =>
       forall w, ContentLoader.requests (snd (step w))
                 = (ContentLoader.requests w ++ [url])%list)
    (Cases.steps_on net) Spec.second_pass_urls.
Proof.
  repeat constructor; intros w;
    [apply loadHero_requests | apply loadAbout_requests
    | apply loadServices_requests | apply loadResources_requests
    | apply loadBooking_requests | apply loadContact_requests].
Qed.

Lemma after_requests (steps : list (ContentLoader.M unit)) (urls : list string) :
  Forall2
    (fun step url =>
       forall w, ContentLoader.requests (snd (step w))
                 = (ContentLoader.requests w ++ [url])%list)
    steps urls ->
  forall n w,
    ContentLoader.requests (Cases.after (firstn n steps) w)
    = (ContentLoader.requests w ++ firstn n urls)%list.
Proof.
  unfold Cases.after.
  induction 1 as [|step url steps urls Hstep _ IH]; intros n w.
  - destruct n; cbn; now rewrite app_nil_r.
  - destruct n as [|n]; cbn [firstn fold_left]; [now rewrite app_nil_r |].
    rewrite IH, Hstep, <- app_assoc. reflexivity.
Qed.

(** Steps in sequence run in their order up to the first one that throws:
    [k] of them end normally, and either these are all, or the next one
    throws and is the last to run. *)
Lemma in_sequence_cases (steps : list (ContentLoader.M unit)) :
  forall w,
    exists k,
      k <= List.length steps /\
      (forall i step,
         i < k -> nth_error steps i = Some step ->
         fst (step (Cases.after (firstn i steps) w)) = Js.Normal tt) /\
      ((k = List.length steps /\
        Cases.in_sequence steps w = (Js.Normal tt, Cases.after steps w)) \/
       (exists step e,
          nth_error steps k = Some step /\
          fst (step (Cases.after (firstn k steps) w)) = Js.Thrown e /\
          Cases.in_sequence steps w
          = (Js.Thrown e, Cases.after (firstn (S k) steps) w))).
Proof.
  induction steps as [|m steps IH]; intros w.
  - exists 0. cbn. split; [lia |]. split; [intros; lia | left; auto].
  - assert (Hseq : Cases.in_sequence (m :: steps) w
                   = match m w with
                     | (Js.Normal _, w1) => Cases.in_sequence steps w1
                     | (Js.Thrown e, w1) => (Js.Thrown e, w1)
                     end) by reflexivity.
    assert (Hafter : forall n,
               Cases.after (firstn (S n) (m :: steps)) w
               = Cases.after (firstn n steps) (snd (m w))) by reflexivity.
    assert (Hall : Cases.after (m :: steps) w = Cases.after steps (snd (m w)))
      by reflexivity.
    rewrite Hseq, Hall. clear Hseq Hall.
    destruct (m w) as [[[] | e] w1] eqn:Em; cbn [snd] in *.
    + destruct (IH w1) as (k & Hk & Hbefore & Hend).
      exists (S k). cbn [List.length]. split; [lia |]. split.
      * intros i step Hi Hn. destruct i as [|i].
        -- cbn in Hn |- *. inversion Hn; subst step. now rewrite Em.
        -- rewrite Hafter. apply Hbefore; [lia | exact Hn].
      * destruct Hend as [[-> Hrun] | (step & e & Hn & He & Hrun)].
        -- left. split; [reflexivity | exact Hrun].
        -- right. exists step, e. rewrite !Hafter. cbn [nth_error]. auto.
    + exists 0. split; [lia |]. split; [intros; lia |].
      right. exists m, e. rewrite Hafter. cbn. rewrite Em. auto.
Qed.

(** The body of the try block of the second pass is the six steps in
    sequence. *)
Lemma secondPass_in_sequence (net : ContentLoader.network)
  (w : ContentLoader.world) :
  ContentLoader.secondPass net w
  = Eff.try_catch (Cases.in_sequence (Cases.steps_on net))
      (fun error => ContentLoader.console_error "Error initializing content loader:")
      w.
Proof.
  unfold ContentLoader.secondPass, Eff.try_catch, Cases.in_sequence,
    Cases.steps_on.
  cbn [map fold_right snd Cases.second_pass_steps]. unfold Eff.bind.
  destruct (ContentLoader.loadHero net w) as [[[] | e] w1]; [| reflexivity].
  destruct (ContentLoader.loadAbout net w1) as [[[] | e] w2]; [| reflexivity].
  destruct (ContentLoader.loadServices net w2) as [[[] | e] w3]; [| reflexivity].
  destruct (ContentLoader.loadResources net w3) as [[[] | e] w4]; [| reflexivity].
  destruct (ContentLoader.loadBooking net w4) as [[[] | e] w5]; [| reflexivity].
  destruct (ContentLoader.loadContact net w5) as [[[] | e] w6]; reflexivity.
Qed.

(** A step whose document failed to load does nothing more. *)

Lemma load_lines (net : ContentLoader.network) (name : string)
  (w : ContentLoader.world) :
  exists lines,
    ContentLoader.load net name w
    = (Js.Normal (Spec.loaded net name),
       ContentLoader.mkWorld (ContentLoader.document w)
         (ContentLoader.requests w ++ [ContentLoader.content_url name])
         (ContentLoader.console w ++ lines)) /\
    (forall line, In line lines ->
                  line = "Failed to load content: " ++ name \/
                  line = "Error loading content file: " ++ name).
Proof.
  unfold ContentLoader.load, Spec.loaded, ContentLoader.content_url,
    Eff.try_catch, Eff.bind, ContentLoader.fetch, ContentLoader.json,
    ContentLoader.console_error, Eff.modify, Eff.ret, Eff.throw.
  destruct (net ("content/" ++ name ++ ".json")) as [[[|] [v|]]|]; cbn.
  - exists []. rewrite app_nil_r. split; [reflexivity | intros line []].
  - eexists [_]. split; [reflexivity |]. intros line [<- | []]. auto.
  - eexists [_]. split; [reflexivity |]. intros line [<- | []]. auto.
  - eexists [_]. split; [reflexivity |]. intros line [<- | []]. auto.
  - eexists [_]. split; [reflexivity |]. intros line [<- | []]. auto.
Qed.

Lemma step_null (net : ContentLoader.network) (name : string)
  (k : Js.value -> ContentLoader.M unit) (w : ContentLoader.world) :
  Spec.loaded net name = Js.VNull ->
  (forall w0, k Js.VNull w0 = (Js.Normal tt, w0)) ->
  exists w',
    Eff.bind (ContentLoader.load net name) k w = (Js.Normal tt, w') /\
    ContentLoader.document w' = ContentLoader.document w /\
    ContentLoader.requests w'
    = (ContentLoader.requests w ++ [ContentLoader.content_url name])%list /\
    (In "Error initializing content loader:" (ContentLoader.console w') ->
     In "Error initializing content loader:" (ContentLoader.console w)).
Proof.
  intros Hnull Hk. destruct (load_lines net name w) as (lines & H & Hl).
  eexists. unfold Eff.bind. rewrite H, Hnull, Hk.
  split; [reflexivity |]. cbn [ContentLoader.document ContentLoader.requests
                               ContentLoader.console].
  repeat split. intros Hin. apply in_app_iff in Hin as [Hin | Hin]; [exact Hin |].
  destruct (Hl _ Hin) as [E | E]; cbn in E; discriminate.
Qed.

Lemma failed_load_step (net : ContentLoader.network) (name : string)
  (step : ContentLoader.network -> ContentLoader.M unit)
  (w : ContentLoader.world) :
  In (name, step) Cases.second_pass_steps ->
  Spec.loaded net name = Js.VNull ->
  fst (step net w) = Js.Normal tt /\
  ContentLoader.document (snd (step net w)) = ContentLoader.document w.
Proof.
  intros Hin Hnull.
  assert (H : exists k,
             step net = Eff.bind (ContentLoader.load net name) k /\
             forall w0, k Js.VNull w0 = (Js.Normal tt, w0)).
  { cbn in Hin.
    destruct Hin as [E | [E | [E | [E | [E | [E | []]]]]]];
      inversion E; subst name step; eexists; split; reflexivity. }
  destruct H as (k & -> & Hk).
  destruct (step_null net name k w Hnull Hk) as (w' & -> & Hd & _).
  split; [reflexivity | exact Hd].
Qed.

(** C3 (amended).  The second pass of [init] always ends normally.  A failed
    load stops nothing: a step whose document did not load ends normally and
    leaves the page as it was, wherever in the pass it runs.  But the six
    steps run in their order inside one try block, each where the one before
    it ended, only up to the first one that throws: [k] steps end normally,
    and either these are all six, or the next step, whose document did load,
    throws, the catch block logs, and what the pass leaves is what that step
    left, with the line of the catch block: none of the later sections is
    loaded or rendered.  The documents fetched are those of the steps that
    ran. *)
Theorem secondPass_load_failures_isolated (net : ContentLoader.network)
  (w : ContentLoader.world) :
  let steps := Cases.steps_on net in
  let r := ContentLoader.secondPass net w in
  fst r = Js.Normal tt /\
  (forall name step w0,
     In (name, step) Cases.second_pass_steps ->
     Spec.loaded net name = Js.VNull ->
     fst (step net w0) = Js.Normal tt /\
     ContentLoader.document (snd (step net w0)) = ContentLoader.document w0) /\
  (exists k,
     k <= 6 /\
     (forall i step,
        i < k -> nth_error steps i = Some step ->
        fst (step (Cases.after (firstn i steps) w)) = Js.Normal tt) /\
     ((k = 6 /\ snd r = Cases.after steps w) \/
      (exists name step e,
         nth_error Cases.second_pass_steps k = Some (name, step) /\
         Spec.loaded net name <> Js.VNull /\
         fst (step net (Cases.after (firstn k steps) w)) = Js.Thrown e /\
         snd r = Cases.caught (Cases.after (firstn (S k) steps) w))) /\
     ContentLoader.requests (snd r)
     = (ContentLoader.requests w
        ++ firstn (S k) Spec.second_pass_urls)%list).
Proof.
  intros steps r. subst steps r. rewrite secondPass_in_sequence.
  unfold Eff.try_catch.
  destruct (in_sequence_cases (Cases.steps_on net) w)
    as (k & Hk & Hbefore & Hend).
  change (List.length (Cases.steps_on net)) with 6 in *.
  destruct Hend as [[-> Hrun] | (m & e & Hn & He & Hrun)]; rewrite Hrun.
  - cbn [fst snd]. split; [reflexivity |]. split; [apply failed_load_step |].
    exists 6. split; [lia |]. split; [exact Hbefore |]. split; [left; auto |].
    rewrite <- (firstn_all (Cases.steps_on net)) at 1.
    change (List.length (Cases.steps_on net)) with 6.
    rewrite (after_requests _ _ (steps_on_requests net)). reflexivity.
  - cbn [fst snd ContentLoader.console_error Eff.modify ContentLoader.requests].
    split; [reflexivity |]. split; [apply failed_load_step |].
    exists k. split; [lia |]. split; [exact Hbefore |].
    split; [| apply (after_requests _ _ (steps_on_requests net))].
    right. unfold Cases.steps_on in Hn. rewrite nth_error_map in Hn.
    destruct (nth_error Cases.second_pass_steps k) as [[name step]|] eqn:Hs;
      [| discriminate].
    cbn in Hn. inversion Hn; subst m.
    exists name, step, e. split; [reflexivity |].
    split; [| split; [exact He | reflexivity]].
    intros Hnull.
    destruct (failed_load_step net name step
                (Cases.after (firstn k (Cases.steps_on net)) w)
                (nth_error_In _ _ Hs) Hnull) as [Hnormal _].
    rewrite Hnormal in He. discriminate.
Qed.

(** C3 (amended) on a server where the hero document is missing, the
    network fails for the about document and the contact document does not
    parse: the three steps end normally wherever they run, and all six
    documents are fetched. *)
Lemma secondPass_load_failures_isolated_witness :
  Spec.loaded Spec.failing_net "hero" = Js.VNull /\
  Spec.loaded Spec.failing_net "about" = Js.VNull /\
  Spec.loaded Spec.failing_net "contact" = Js.VNull /\
  (forall w0,
     fst (ContentLoader.loadHero Spec.failing_net w0) = Js.Normal tt /\
     fst (ContentLoader.loadAbout Spec.failing_net w0) = Js.Normal tt /\
     fst (ContentLoader.loadContact Spec.failing_net w0) = Js.Normal tt) /\
  ContentLoader.requests
    (snd (ContentLoader.secondPass Spec.failing_net Spec.sample_world))
  = ["content/hero.json"; "content/about.json"; "content/services.json";
     "content/resources.json"; "content/booking.json"; "content/contact.json"].
Proof.
  split; [reflexivity |]. split; [reflexivity |]. split; [reflexivity |].
  destruct (secondPass_load_failures_isolated Spec.failing_net Spec.sample_world)
    as (_ & Hnull & _).
  split; [| reflexivity].
  intros w0. split; [| split].
  - apply (Hnull "hero" ContentLoader.loadHero w0); [cbn; tauto | reflexivity].
  - apply (Hnull "about" ContentLoader.loadAbout w0); [cbn; tauto | reflexivity].
  - apply (Hnull "contact" ContentLoader.loadContact w0); [cbn; tauto | reflexivity].
Defined.

(** C3 (counterexample).  On the sample page, with a services document whose
    list of items holds a null and a contact document that is there to be
    rendered: creating the card of the null item throws, the services step
    throws, and the pass ends after the services document.  The resources,
    booking and contact documents are never loaded by the pass, and the
    contact container keeps its placeholder; the about section, before the
    failing one, was rendered. *)
Lemma render_error_blocks_later_sections :
  let r := ContentLoader.secondPass Spec.broken_services_net Spec.sample_world in
  fst (ContentLoader.loadServices Spec.broken_services_net Spec.sample_world)
  = Js.Thrown (Js.TypeError "Cannot read properties: title") /\
  Spec.loaded Spec.broken_services_net "contact"
  = Js.VObj [("title", Js.VStr "Title"); ("body", Js.VStr "Body")] /\
  ContentLoader.requests (snd r)
  = ["content/hero.json"; "content/about.json"; "content/services.json"] /\
  Dom.node_at [2; 0] (ContentLoader.document (snd r))
  = Some (Dom.Element "div" "about-content" EmptyString []
            [Dom.Markup [Markup.Heading "Title"; Markup.Paragraph "Body"]]) /\
  Dom.node_at [4; 0] (ContentLoader.document (snd r))
  = Some (Dom.Element "div" "contact-content" EmptyString [] [Dom.Text "Loading"]).
Proof. repeat split; reflexivity. Qed.

(** Any section can be the failing one: with an about document whose title
    cannot be converted to a string, the about step throws while it writes
    the title, the about container keeps its placeholder, and the pass ends
    after the about document. *)
Example text_error_blocks_later_sections :
  let r := ContentLoader.secondPass Spec.broken_about_net Spec.sample_world in
  fst (ContentLoader.loadAbout Spec.broken_about_net Spec.sample_world)
  = Js.Thrown (Js.TypeError "Cannot convert object to primitive value") /\
  ContentLoader.requests (snd r)
  = ["content/hero.json"; "content/about.json"] /\
  ContentLoader.console (snd r) = ["Error initializing content loader:"] /\
  Dom.node_at [2; 0] (ContentLoader.document (snd r))
  = Some (Dom.Element "div" "about-content" EmptyString [] [Dom.Text "Loading"]).
Proof. repeat split; reflexivity. Qed.

(* ===================================================================== *)
(** * Part III: further properties of the scripts *)
(* ===================================================================== *)

(** ** Cards and resource cards *)

Local Open Scope compl_scope.

Lemma get_prop (v : Js.value) (k : string) :
  Cases.nullish v = false -> Js.get v k = Js.Normal (Cases.prop v k).
Proof.
  unfold Cases.prop. destruct v; simpl; try discriminate; try reflexivity.
  intros _. destruct (Js.assoc k fields); reflexivity.
Qed.

Lemma truthy_not_nullish (v : Js.value) :
  Js.truthy v = true -> Cases.nullish v = false.
Proof. destruct v; simpl; congruence. Qed.

(** Converting a value to a string gives its text, or throws. *)
Lemma to_string_cases (v : Js.value) :
  (Js.printable v = true /\ Js.to_string v = Js.Normal (Cases.text v)) \/
  (Js.printable v = false /\ exists e, Js.to_string v = Js.Thrown e).
Proof.
  unfold Js.printable, Cases.text.
  destruct (Js.to_string v) as [s | e]; [left | right]; eauto.
Qed.

(** The badges of the tags. *)
Lemma appendBadges_cases (ts : list Js.value) :
  forall h,
    (forallb Js.printable ts = true /\
     ContentLoader.appendBadges h ts
     = Js.Normal (h ++ map (fun t => Markup.TagBadge (Cases.text t)) ts)%list) \/
    (forallb Js.printable ts = false /\
     exists e, ContentLoader.appendBadges h ts = Js.Thrown e).
Proof.
  induction ts as [|t ts IH]; intros h; cbn [ContentLoader.appendBadges forallb map].
  - left. now rewrite app_nil_r.
  - destruct (to_string_cases t) as [[-> ->] | [-> [e ->]]]; cbn [Js.bindc andb].
    + destruct (IH (h ++ [Markup.TagBadge (Cases.text t)])%list)
        as [[-> ->] | [-> [e ->]]]; [left | right; eauto].
      split; [reflexivity |]. now rewrite <- app_assoc.
    + right. eauto.
Qed.

Lemma badges_normal (ts : list Js.value) (h : list Markup.piece) :
  match ContentLoader.appendBadges h ts with
  | Js.Normal _ => true
  | Js.Thrown _ => false
  end = forallb Js.printable ts.
Proof.
  destruct (appendBadges_cases ts h) as [[-> ->] | [-> [e ->]]]; reflexivity.
Qed.

Lemma cta_normal (cta : Js.value) (h : list Markup.piece) (cn : string) :
  let label := if Js.truthy cta then Cases.prop cta "text" else cta in
  match
    (text <- (if Js.truthy cta then Js.get cta "text" else Js.Normal cta) ;;
     cardHTML <-
       (if Js.truthy text
        then link <- Js.get cta "link" ;;
             href <- Js.to_string (Js.or_else link (Js.VStr "#")) ;;
             label <- Js.to_string text ;;
             Js.Normal (h ++ [Markup.ActionLink href label])%list
        else Js.Normal h) ;;
     Js.Normal (ContentLoader.div cn cardHTML))
  with
  | Js.Normal _ => true
  | Js.Thrown _ => false
  end
  = negb (Js.truthy label)
    || (Js.printable (Js.or_else (Cases.prop cta "link") (Js.VStr "#"))
        && Js.printable label).
Proof.
  intros label. subst label. unfold Js.printable.
  destruct (Js.truthy cta) eqn:C.
  - rewrite !(get_prop cta _ (truthy_not_nullish _ C)). cbn [Js.bindc].
    destruct (Js.truthy (Cases.prop cta "text")); cbn [Js.bindc negb orb];
      [| reflexivity].
    destruct (Js.to_string (Js.or_else _ _)); cbn [Js.bindc andb];
      [| reflexivity].
    destruct (Js.to_string (Cases.prop cta "text")); reflexivity.
  - cbn [Js.bindc]. rewrite C. reflexivity.
Qed.

Lemma createCard_creates (item : Js.value) (kind : string) :
  Cases.nullish item = false ->
  Cases.dated kind item = false ->
  Spec.creates (fun i => ContentLoader.createCard i kind) item
  = Cases.card_writable item.
Proof.
  intros N Hd. unfold Spec.creates, ContentLoader.createCard,
    Cases.card_writable, Cases.writable, Cases.tags_usable, Cases.cta_usable.
  rewrite !(get_prop item _ N). cbn [Js.bindc].
  unfold Js.printable at 1.
  destruct (Js.to_string (Js.or_else (Cases.prop item "title") _)) as [h|e];
    cbn [Js.bindc andb]; [| reflexivity].
  assert (Hdate : exists dv,
             (if String.eqb kind "blog" then Js.Normal (Cases.prop item "date")
              else Js.Normal (Js.VBool false)) = Js.Normal dv /\
             Js.truthy dv = false).
  { unfold Cases.dated in Hd. destruct (String.eqb kind "blog"); cbn in Hd; eauto. }
  destruct Hdate as (dv & Edv & Hdv).
  assert (Hrest : forall h0 : list Markup.piece,
             match
               (date <- (if String.eqb kind "blog"
                         then Js.Normal (Cases.prop item "date")
                         else Js.Normal (Js.VBool false)) ;;
                let cardHTML :=
                  if Js.truthy date
                  then Markup.DateMeta (ContentLoader.formatDate date) :: h0
                  else h0 in
                cardHTML <-
                  (if Js.truthy (Cases.prop item "tags")
                   then match Cases.prop item "tags" with
                        | Js.VArr ts =>
                            cardHTML <- ContentLoader.appendBadges
                                          (cardHTML ++ [Markup.TagsOpen])%list ts ;;
                            Js.Normal (cardHTML ++ [Markup.TagsClose])%list
                        | _ => Js.Thrown
                                 (Js.TypeError "item.tags.forEach is not a function")
                        end
                   else Js.Normal cardHTML) ;;
                text <- (if Js.truthy (Cases.prop item "cta")
                         then Js.get (Cases.prop item "cta") "text"
                         else Js.Normal (Cases.prop item "cta")) ;;
                cardHTML <-
                  (if Js.truthy text
                   then link <- Js.get (Cases.prop item "cta") "link" ;;
                        href <- Js.to_string (Js.or_else link (Js.VStr "#")) ;;
                        label <- Js.to_string text ;;
                        Js.Normal (cardHTML ++ [Markup.ActionLink href label])%list
                   else Js.Normal cardHTML) ;;
                Js.Normal (ContentLoader.div ("card " ++ kind ++ "-card") cardHTML))
             with
             | Js.Normal _ => true
             | Js.Thrown _ => false
             end
             = (negb (Js.truthy (Cases.prop item "tags"))
                || match Cases.prop item "tags" with
                   | Js.VArr ts => forallb Js.printable ts
                   | _ => false
                   end)
               && (negb (Js.truthy (if Js.truthy (Cases.prop item "cta")
                                    then Cases.prop (Cases.prop item "cta") "text"
                                    else Cases.prop item "cta"))
                   || (Js.printable (Js.or_else
                                       (Cases.prop (Cases.prop item "cta") "link")
                                       (Js.VStr "#"))
                       && Js.printable
                            (if Js.truthy (Cases.prop item "cta")
                             then Cases.prop (Cases.prop item "cta") "text"
                             else Cases.prop item "cta")))).
  { intros h0. rewrite Edv. cbn [Js.bindc]. rewrite Hdv.
    destruct (Js.truthy (Cases.prop item "tags")) eqn:T; cbn [negb orb].
    - destruct (Cases.prop item "tags") eqn:Tg; cbn [Js.bindc andb];
        try reflexivity.
      pose proof (badges_normal items (h0 ++ [Markup.TagsOpen])%list) as Hb.
      destruct (ContentLoader.appendBadges _ items) as [h1 | e];
        rewrite <- Hb; cbn [Js.bindc andb]; [| reflexivity].
      apply cta_normal.
    - cbn [Js.bindc andb]. apply cta_normal. }
  unfold Js.printable at 1.
  destruct (Js.truthy (Cases.prop item "description")); cbn [negb orb andb].
  - destruct (Js.to_string (Cases.prop item "description")) as [d|e];
      cbn [Js.bindc andb]; [apply Hrest | reflexivity].
  - cbn [Js.bindc]. apply Hrest.
Qed.

Lemma printable_or_else (v : Js.value) (dflt : string) :
  Js.printable (Js.or_else v (Js.VStr dflt)) = Cases.writable v.
Proof.
  unfold Js.or_else, Cases.writable. destruct (Js.truthy v); reflexivity.
Qed.

Lemma printable_text (v : Js.value) (s : string) :
  Js.to_string v = Js.Normal s -> Cases.text v = s.
Proof. unfold Cases.text. now intros ->. Qed.

(** X1.  For an item of which no date badge is to be made (the kind is not
    blog, or the item has no date): [createCard] yields a card exactly when
    the item is neither null nor undefined and everything it writes of the
    item can be written: the title (or the empty text in its place) and the
    description, if truthy, can be converted to strings; the tags, if
    truthy, are an array of values that can be converted; and the call to
    action, if it has a truthy label, has a label and a target (or [#]) that
    can be converted.  On a null or undefined item the error is that of
    reading a property.  An object can be converted to a string exactly when
    it has no property [toString] of its own. *)
Theorem createCard_throws_iff (item : Js.value) (kind : string) :
  Cases.dated kind item = false ->
  Spec.creates (fun i => ContentLoader.createCard i kind) item
  = negb (Cases.nullish item) && Cases.card_writable item /\
  (Cases.nullish item = true ->
   exists k, ContentLoader.createCard item kind
             = Js.Thrown (Js.TypeError ("Cannot read properties: " ++ k))) /\
  (forall fields,
     Js.printable (Js.VObj fields) = negb (Js.has_own "toString" fields)).
Proof.
  intros Hd. split; [| split].
  - destruct (Cases.nullish item) eqn:N.
    + destruct item; try discriminate; reflexivity.
    + now apply createCard_creates.
  - intros N. destruct item; try discriminate; cbn; eauto.
  - intros fields. unfold Js.printable. cbn.
    destruct (Js.has_own "toString" fields); reflexivity.
Qed.

(** X1 on a service whose title is an object with a property [toString] of
    its own, and on a service whose tags are a text instead of a list. *)
Lemma createCard_throws_iff_witness :
  let item := Js.VObj [("title", Js.VObj [("toString", Js.VNum (Js.mkNumber true "0"))])] in
  Cases.dated "service" item = false /\
  Spec.creates (fun i => ContentLoader.createCard i "service") item = false /\
  Spec.creates (fun i => ContentLoader.createCard i "service")
    (Js.VObj [("title", Js.VStr "Workshops"); ("tags", Js.VStr "stress")]) = false.
Proof.
  intros item. split; [reflexivity |]. split.
  - destruct (createCard_throws_iff item "service" eq_refl) as (H & _).
    rewrite H. reflexivity.
  - destruct (createCard_throws_iff
                (Js.VObj [("title", Js.VStr "Workshops"); ("tags", Js.VStr "stress")])
                "service" eq_refl) as (H & _).
    rewrite H. reflexivity.
Defined.

(** X2.  [createResourceCard] yields a card exactly when the item is neither
    null nor undefined and its title, description and type, if truthy, and,
    if it has a truthy download, the url and the file name (if truthy) of
    the download can be converted to strings.  The card is then a [div] of
    class [card resource-card] whose one child is the markup written to its
    innerHTML; the markup starts with the heading of the title (empty when
    there is none) and has a download link exactly when [item.download] is
    truthy: a download without file name gets an empty download attribute
    and the label [File], a download without url the target that a template
    literal writes for a missing value. *)
Theorem createResourceCard_throws_iff (item : Js.value) :
  Spec.creates ContentLoader.createResourceCard item
  = negb (Cases.nullish item) && Cases.resource_writable item /\
  (Spec.creates ContentLoader.createResourceCard item = true ->
   exists ps,
     ContentLoader.createResourceCard item
     = Js.Normal
         (Dom.Element "div" EmptyString "card resource-card" []
            [Dom.Markup
               (Markup.Heading
                  (Cases.text (Js.or_else (Cases.prop item "title")
                                 (Js.VStr EmptyString)))
                :: ps)]) /\
     filter Cases.is_download_link ps
     = Cases.download_links (Cases.prop item "download")).
Proof.
  unfold Spec.creates, Cases.resource_writable, Cases.download_links.
  destruct (Cases.nullish item) eqn:N.
  - split; [destruct item; try discriminate; reflexivity |].
    destruct item; try discriminate; cbn; discriminate.
  - unfold ContentLoader.createResourceCard, Cases.writable.
    rewrite !(get_prop item _ N). cbn [Js.bindc negb andb].
    unfold Js.printable at 1.
    destruct (Js.to_string (Js.or_else (Cases.prop item "title") _)) as [h|e] eqn:E1;
      cbn [Js.bindc andb]; [| split; [reflexivity | discriminate]].
    rewrite (printable_text _ _ E1). clear E1.
    assert (Hd : forall h0 : list Markup.piece,
               filter Cases.is_download_link h0 = [] ->
               let r :=
                 (cardHTML <-
                    (if Js.truthy (Cases.prop item "download")
                     then url <- Js.get (Cases.prop item "download") "url" ;;
                          href <- Js.to_string url ;;
                          filename <- Js.get (Cases.prop item "download") "filename" ;;
                          name <- Js.to_string
                                    (Js.or_else filename (Js.VStr EmptyString)) ;;
                          label <- Js.to_string
                                     (Js.or_else filename (Js.VStr "File")) ;;
                          Js.Normal (h0 ++ [Markup.DownloadLink href name label])%list
                     else Js.Normal h0) ;;
                  Js.Normal (ContentLoader.div "card resource-card" cardHTML))%compl in
               match r with Js.Normal _ => true | Js.Thrown _ => false end
               = (negb (Js.truthy (Cases.prop item "download"))
                  || (Js.printable (Cases.prop (Cases.prop item "download") "url")
                      && (negb (Js.truthy (Cases.prop (Cases.prop item "download")
                                             "filename"))
                          || Js.printable (Cases.prop (Cases.prop item "download")
                                             "filename")))) /\
               (match r with Js.Normal _ => true | Js.Thrown _ => false end = true ->
                exists ps,
                  r = Js.Normal (ContentLoader.div "card resource-card" (h0 ++ ps)%list) /\
                  filter Cases.is_download_link ps
                  = (if Js.truthy (Cases.prop item "download")
                     then [Markup.DownloadLink
                             (Cases.text (Cases.prop (Cases.prop item "download") "url"))
                             (Cases.text (Js.or_else
                                            (Cases.prop (Cases.prop item "download")
                                               "filename") (Js.VStr EmptyString)))
                             (Cases.text (Js.or_else
                                            (Cases.prop (Cases.prop item "download")
                                               "filename") (Js.VStr "File")))]
                     else []))).
    { intros h0 Hh0 r. subst r.
      destruct (Js.truthy (Cases.prop item "download")) eqn:D; cbn [negb orb].
      - rewrite !(get_prop _ _ (truthy_not_nullish _ D)). cbn [Js.bindc].
        unfold Js.printable at 1.
        destruct (Js.to_string (Cases.prop _ "url")) as [u|e] eqn:Eu;
          cbn [Js.bindc andb]; [| split; [reflexivity | discriminate]].
        replace (negb (Js.truthy (Cases.prop (Cases.prop item "download") "filename"))
                 || Js.printable (Cases.prop (Cases.prop item "download") "filename"))
          with (Js.printable
                  (Js.or_else (Cases.prop (Cases.prop item "download") "filename")
                     (Js.VStr EmptyString)))
          by apply printable_or_else.
        unfold Js.printable.
        destruct (Js.to_string
                    (Js.or_else (Cases.prop (Cases.prop item "download") "filename")
                       (Js.VStr EmptyString))) as [n|e] eqn:En;
          cbn [Js.bindc]; [| split; [reflexivity | discriminate]].
        assert (El : exists l, Js.to_string
                                 (Js.or_else (Cases.prop (Cases.prop item "download")
                                                "filename") (Js.VStr "File"))
                               = Js.Normal l).
        { unfold Js.or_else in *.
          destruct (Js.truthy (Cases.prop (Cases.prop item "download") "filename"));
            cbn; eauto. }
        destruct El as [l El]. rewrite El. cbn [Js.bindc].
        split; [reflexivity |]. intros _. eexists. split; [reflexivity |].
        rewrite (printable_text _ _ Eu), (printable_text _ _ En),
          (printable_text _ _ El). reflexivity.
      - cbn [Js.bindc]. split; [reflexivity |]. intros _. exists [].
        rewrite app_nil_r. auto. }
    unfold Js.printable.
    destruct (Js.truthy (Cases.prop item "description")); cbn [negb orb andb];
      [destruct (Js.to_string (Cases.prop item "description")) as [d|e];
       cbn [Js.bindc andb]; [| split; [reflexivity | discriminate]] |];
      (destruct (Js.truthy (Cases.prop item "type")); cbn [negb orb andb];
       [destruct (Js.to_string (Cases.prop item "type")) as [t|e];
        cbn [Js.bindc andb]; [| split; [reflexivity | discriminate]] |]);
      cbn [Js.bindc];
      match goal with
      | |- context [Js.Normal (?h0 ++ [Markup.DownloadLink _ _ _])%list] =>
          destruct (Hd h0 eq_refl) as [Hn Hs]
      end;
      (split; [exact Hn |]; intros Hc; destruct (Hs Hc) as (ps & -> & Hf);
       eexists; split; [reflexivity |];
       cbn [app filter Cases.is_download_link]; exact Hf).
Qed.

Local Close Scope compl_scope.

(** ** The renderers *)

Lemma forEach_cards (create : Js.value -> Js.completion Dom.node)
  (c : Dom.path) (l : list Js.value) :
  forall (w : ContentLoader.world) tag id cn attrs children,
    Dom.node_at c (ContentLoader.document w)
    = Some (Dom.Element tag id cn attrs children) ->
    exists r w',
      Eff.forEach
        (fun item =>
           Eff.bind (Eff.lift (create item))
             (fun card => ContentLoader.change_document (Dom.append_child c card)))
        l w
      = (r, w') /\
      (r = Js.Normal tt <-> forallb (Spec.creates create) l = true) /\
      Dom.node_at c (ContentLoader.document w')
      = Some (Dom.Element tag id cn attrs
                (children ++ Cases.cards_before_throw create l)) /\
      ContentLoader.requests w' = ContentLoader.requests w /\
      ContentLoader.console w' = ContentLoader.console w.
Proof.
  induction l as [|item l IH]; intros w tag id cn attrs children Hc.
  - exists (Js.Normal tt), w. cbn. rewrite app_nil_r. repeat split; auto.
  - cbn [Eff.forEach Cases.cards_before_throw forallb]. unfold Spec.creates at 1.
    unfold Eff.bind at 1. unfold Eff.bind at 1. unfold Eff.lift at 1.
    destruct (create item) as [card | e].
    + unfold ContentLoader.change_document at 1. unfold Eff.modify at 1.
      set (w1 := ContentLoader.mkWorld
                   (Dom.append_child c card (ContentLoader.document w))
                   (ContentLoader.requests w) (ContentLoader.console w)).
      assert (Hc1 : Dom.node_at c (ContentLoader.document w1)
                    = Some (Dom.Element tag id cn attrs (children ++ [card]))).
      { unfold w1, Dom.append_child. cbn [ContentLoader.document].
        now apply (node_at_alter (fun cs => (cs ++ [card])%list)). }
      destruct (IH w1 _ _ _ _ _ Hc1) as (r & w' & Hrun & Hr & Hn & Hq & Hl).
      exists r, w'. rewrite Hrun, Hn, <- app_assoc. cbn [andb app].
      repeat split; auto; apply Hr.
    + exists (Js.Thrown e), w. rewrite app_nil_r. cbn [andb].
      repeat split; auto; discriminate.
Qed.

(** What both renderers do, for the way each creates a card. *)
Lemma render_items_outcome
  (render : Js.value -> Dom.selector -> ContentLoader.M unit)
  (create : Js.value -> Js.completion Dom.node) :
  (forall items sel,
     render items sel
     = Eff.bind (ContentLoader.querySelector sel)
         (fun container =>
            match container with
            | None => Eff.ret tt
            | Some c =>
                if negb (Js.truthy items) then Eff.ret tt
                else Eff.bind
                       (ContentLoader.change_document (Dom.set_children c []))
                       (fun _ => ContentLoader.appendEach create c items)
            end)) ->
  forall (items : Js.value) (sel : Dom.selector) (w : ContentLoader.world),
    let r := render items sel w in
    ContentLoader.requests (snd r) = ContentLoader.requests w /\
    ContentLoader.console (snd r) = ContentLoader.console w /\
    (Dom.querySelector sel (ContentLoader.document w) = None \/
     Js.truthy items = false ->
     r = (Js.Normal tt, w)) /\
    (forall c,
       Dom.querySelector sel (ContentLoader.document w) = Some c ->
       Js.truthy items = true ->
       (fst r = Js.Normal tt <-> Cases.all_creatable create items = true) /\
       exists tag id cn attrs before,
         Dom.node_at c (ContentLoader.document w)
         = Some (Dom.Element tag id cn attrs before) /\
         Dom.node_at c (ContentLoader.document (snd r))
         = Some (Dom.Element tag id cn attrs (Cases.rendered create items))).
Proof.
  intros Hrender items sel w r. subst r. rewrite Hrender.
  match goal with
  | |- context [Eff.bind (ContentLoader.querySelector sel) ?k w] =>
      change (Eff.bind (ContentLoader.querySelector sel) k w)
        with (k (Dom.querySelector sel (ContentLoader.document w)) w)
  end.
  cbv beta.
  destruct (Dom.querySelector sel (ContentLoader.document w)) as [c|] eqn:Hc.
  2:{ cbn. split; [reflexivity |]. split; [reflexivity |].
      split; [reflexivity | intros c H; discriminate]. }
  destruct (Js.truthy items) eqn:T; cbn [negb].
  2:{ cbn. split; [reflexivity |]. split; [reflexivity |].
      split; [reflexivity | intros c' _ H; discriminate]. }
  destruct (querySelector_node_at _ _ _ Hc)
    as (tag & id & cn & attrs & before & Hn & _).
  set (w0 := ContentLoader.mkWorld
               (Dom.set_children c [] (ContentLoader.document w))
               (ContentLoader.requests w) (ContentLoader.console w)).
  match goal with
  | |- context [Eff.bind (ContentLoader.change_document ?f) ?k w] =>
      change (Eff.bind (ContentLoader.change_document f) k w) with (k tt w0)
  end.
  cbv beta.
  assert (Hn0 : Dom.node_at c (ContentLoader.document w0)
                = Some (Dom.Element tag id cn attrs [])).
  { unfold w0, Dom.set_children. cbn [ContentLoader.document].
    now apply (node_at_alter (fun _ => []) c _ tag id cn attrs before). }
  destruct items as [| | b | n | s | l | fields];
    try discriminate; unfold ContentLoader.appendEach.
  1-3,5: (cbn [Eff.throw fst snd]; split; [reflexivity |];
          split; [reflexivity |]; split;
          [intros [H | H]; discriminate |];
          intros c' Hc' _; inversion Hc'; subst c';
          split; [split; discriminate |];
          exists tag, id, cn, attrs, before; split; [exact Hn | exact Hn0]).
  destruct (forEach_cards create c l w0 _ _ _ _ _ Hn0)
    as (r & w' & Hrun & Hr & Hn' & Hq & Hl).
  rewrite Hrun. cbn [fst snd].
  split; [exact Hq |]. split; [exact Hl |].
  split; [intros [H | H]; discriminate |].
  intros c' Hc' _. inversion Hc'; subst c'.
  split; [destruct r as [[] | e]; exact Hr |].
  exists tag, id, cn, attrs, before. split; [exact Hn | exact Hn'].
Qed.

(** X3.  [renderCards] on any items, selector and page: nothing is fetched
    or logged; without container, or with falsy items, the page is left as
    it is and the call ends normally; otherwise the container keeps its tag,
    id and attributes, loses its earlier children, and holds the cards of
    the items up to the first one of which no card can be created (none
    when the items are not an array), and the call ends normally exactly
    when the items are an array of which every card can be created. *)
Theorem renderCards_outcome (items : Js.value) (sel : Dom.selector)
  (kind : string) (w : ContentLoader.world) :
  let create := fun item => ContentLoader.createCard item kind in
  let r := ContentLoader.renderCards items sel kind w in
  ContentLoader.requests (snd r) = ContentLoader.requests w /\
  ContentLoader.console (snd r) = ContentLoader.console w /\
  (Dom.querySelector sel (ContentLoader.document w) = None \/
   Js.truthy items = false ->
   r = (Js.Normal tt, w)) /\
  (forall c,
     Dom.querySelector sel (ContentLoader.document w) = Some c ->
     Js.truthy items = true ->
     (fst r = Js.Normal tt <-> Cases.all_creatable create items = true) /\
     exists tag id cn attrs before,
       Dom.node_at c (ContentLoader.document w)
       = Some (Dom.Element tag id cn attrs before) /\
       Dom.node_at c (ContentLoader.document (snd r))
       = Some (Dom.Element tag id cn attrs (Cases.rendered create items))).
Proof.
  intros create.
  apply (render_items_outcome
           (fun items sel => ContentLoader.renderCards items sel kind) create).
  reflexivity.
Qed.

(** X4.  [renderResources] on any items, selector and page: nothing is
    fetched or logged; without container, or with falsy items, the page is
    left as it is; otherwise the container is emptied and holds the resource
    cards of the items up to the first one of which no card can be created
    (none when the items are not an array), and the call ends normally
    exactly when the items are an array of which every resource card can be
    created. *)
Theorem renderResources_outcome (items : Js.value) (sel : Dom.selector)
  (w : ContentLoader.world) :
  let r := ContentLoader.renderResources items sel w in
  ContentLoader.requests (snd r) = ContentLoader.requests w /\
  ContentLoader.console (snd r) = ContentLoader.console w /\
  (Dom.querySelector sel (ContentLoader.document w) = None \/
   Js.truthy items = false ->
   r = (Js.Normal tt, w)) /\
  (forall c,
     Dom.querySelector sel (ContentLoader.document w) = Some c ->
     Js.truthy items = true ->
     (fst r = Js.Normal tt
      <-> Cases.all_creatable ContentLoader.createResourceCard items = true) /\
     exists tag id cn attrs before,
       Dom.node_at c (ContentLoader.document w)
       = Some (Dom.Element tag id cn attrs before) /\
       Dom.node_at c (ContentLoader.document (snd r))
       = Some (Dom.Element tag id cn attrs
                 (Cases.rendered ContentLoader.createResourceCard items))).
Proof.
  apply (render_items_outcome ContentLoader.renderResources
           ContentLoader.createResourceCard).
  reflexivity.
Qed.


(** ** The visibility rule, again *)

Lemma handleConditionalRendering_absent (content : Js.value)
  (sel : Dom.selector) (w : ContentLoader.world) :
  Dom.querySelector sel (ContentLoader.document w) = None ->
  ContentLoader.handleConditionalRendering content sel w = (Js.Normal tt, w).
Proof.
  intros Hc. unfold ContentLoader.handleConditionalRendering, Eff.bind,
    ContentLoader.querySelector, Eff.read.
  rewrite Hc. reflexivity.
Qed.

(** X6.  On a page where the selector of a section matches at most one
    element, applying the visibility rule a second time changes nothing and
    ends normally, whatever the document says. *)
Theorem visibility_rule_idempotent (content : Js.value) (sel : Dom.selector)
  (w : ContentLoader.world) :
  Dom.count_in (Dom.matches sel) (ContentLoader.document w) <= 1 ->
  let w1 := snd (ContentLoader.handleConditionalRendering content sel w) in
  ContentLoader.handleConditionalRendering content sel w1 = (Js.Normal tt, w1).
Proof.
  intros H1 w1. subst w1.
  destruct (Dom.querySelector sel (ContentLoader.document w)) as [c|] eqn:Hc.
  - rewrite (handleConditionalRendering_eq content sel w c Hc). cbn [snd].
    destruct (Spec.render_false content) eqn:R.
    + apply handleConditionalRendering_absent. cbn [ContentLoader.document].
      apply (without_section_gone sel _ c sel Hc); [left; reflexivity | exact H1].
    + destruct w as [doc reqs cons]. cbn [ContentLoader.document
        ContentLoader.requests ContentLoader.console] in *.
      rewrite (handleConditionalRendering_eq content sel
                 (ContentLoader.mkWorld doc reqs cons) c Hc). cbn.
      now rewrite R.
  - rewrite (handleConditionalRendering_absent content sel w Hc). cbn [snd].
    now apply handleConditionalRendering_absent.
Qed.

(** X6 on the sample page, for the About document with [render: false]. *)
Lemma visibility_rule_idempotent_witness :
  let about := Js.VObj [("title", Js.VStr "About"); ("render", Js.VBool false)] in
  let w1 := snd (ContentLoader.handleConditionalRendering about (Dom.ById "about")
                   Spec.sample_world) in
  Dom.count_in (Dom.matches (Dom.ById "about")) Spec.sample_page = 1 /\
  ContentLoader.handleConditionalRendering about (Dom.ById "about") w1
  = (Js.Normal tt, w1).
Proof.
  intros about w1. split; [reflexivity |].
  apply (visibility_rule_idempotent about (Dom.ById "about") Spec.sample_world).
  cbn. lia.
Defined.

Lemma without_section_count_le (p : Dom.node -> bool) (c : Dom.path)
  (doc : list Dom.node) (x : Dom.node) :
  Dom.shallow p ->
  Dom.node_at c doc = Some x ->
  Dom.count_in p (Spec.without_section c doc) + Dom.count p x
  <= Dom.count_in p doc.
Proof.
  intros Hp Hx. unfold Spec.without_section.
  pose proof (remove_at_count p c doc x Hp Hx).
  pose proof (without_first_count_le p
                (Spec.nav_link (Spec.section_id c doc)) (Dom.remove_at c doc) Hp).
  pose proof (without_first_count_le p
                (Spec.nav_spacer (Spec.section_id c doc))
                (Spec.without_first (Spec.nav_link (Spec.section_id c doc))
                   (Dom.remove_at c doc)) Hp).
  lia.
Qed.

(** X7.  Once the visibility rule has removed a section, a selector all of
    whose matches lay inside that section finds nothing, so that rendering
    text, cards or resources into it leaves the page as it is and ends
    normally. *)
Theorem hidden_section_not_rendered (content : Js.value) (sel : Dom.selector)
  (w : ContentLoader.world) (c : Dom.path) (section : Dom.node)
  (target : Dom.selector) :
  Dom.querySelector sel (ContentLoader.document w) = Some c ->
  Dom.node_at c (ContentLoader.document w) = Some section ->
  Spec.render_false content = true ->
  Dom.count_in (Dom.matches target) (ContentLoader.document w)
  = Dom.count (Dom.matches target) section ->
  let w1 := snd (ContentLoader.handleConditionalRendering content sel w) in
  Dom.querySelector target (ContentLoader.document w1) = None /\
  (forall text, ContentLoader.renderText text target w1 = (Js.Normal tt, w1)) /\
  (forall items kind,
     ContentLoader.renderCards items target kind w1 = (Js.Normal tt, w1)) /\
  (forall items,
     ContentLoader.renderResources items target w1 = (Js.Normal tt, w1)).
Proof.
  intros Hc Hx R Hcount w1. subst w1.
  rewrite (handleConditionalRendering_eq content sel w c Hc), R. cbn [snd].
  set (w1 := ContentLoader.mkWorld _ _ _).
  assert (Hnone : Dom.querySelector target (ContentLoader.document w1) = None).
  { apply querySelector_none_count. unfold w1. cbn [ContentLoader.document].
    pose proof (without_section_count_le _ c _ section
                  (matches_shallow target) Hx). lia. }
  split; [exact Hnone |]. split; [| split].
  - intros text. unfold ContentLoader.renderText, Eff.bind,
      ContentLoader.querySelector, Eff.read. now rewrite Hnone.
  - intros items kind. unfold ContentLoader.renderCards, Eff.bind,
      ContentLoader.querySelector, Eff.read. now rewrite Hnone.
  - intros items. unfold ContentLoader.renderResources, Eff.bind,
      ContentLoader.querySelector, Eff.read. now rewrite Hnone.
Qed.

(** X7 on the sample page: after the About section is removed, rendering
    the About text finds no container. *)
Lemma hidden_section_not_rendered_witness :
  let about := Js.VObj [("title", Js.VStr "About"); ("render", Js.VBool false)] in
  let w1 := snd (ContentLoader.handleConditionalRendering about (Dom.ById "about")
                   Spec.sample_world) in
  Dom.querySelector (Dom.ById "about-content") Spec.sample_page = Some [2; 0] /\
  ContentLoader.renderText about (Dom.ById "about-content") w1 = (Js.Normal tt, w1).
Proof.
  intros about w1. split; [reflexivity |].
  destruct (hidden_section_not_rendered about (Dom.ById "about")
              Spec.sample_world [2]
              (Dom.Element "section" "about" "section" []
                 [Dom.Element "div" "about-content" EmptyString []
                    [Dom.Text "Loading"]])
              (Dom.ById "about-content"))
    as (_ & H & _);
    [reflexivity | reflexivity | reflexivity | reflexivity | apply H].
Defined.

(** ** The second pass when nothing can be loaded *)

Ltac null_step Hnull :=
  match goal with
  | |- context [Eff.bind (ContentLoader.load ?net ?name) ?k ?w] =>
      let w' := fresh "w" in
      let E := fresh "E" in
      let D := fresh "D" in
      let R := fresh "R" in
      let C := fresh "C" in
      destruct (step_null net name k w) as (w' & E & D & R & C);
      [apply Hnull; cbn; tauto | reflexivity | rewrite E]
  end.

(** X8.  When none of the six documents of the second pass can be loaded
    (or they are null), the pass fetches its six URLs in order, ends
    normally, leaves the page as it was and does not log the error of its
    catch block. *)
Theorem secondPass_nothing_loaded (net : ContentLoader.network)
  (w : ContentLoader.world) :
  (forall name,
     In name ["hero"; "about"; "services"; "resources"; "booking"; "contact"] ->
     Spec.loaded net name = Js.VNull) ->
  let r := ContentLoader.secondPass net w in
  fst r = Js.Normal tt /\
  ContentLoader.document (snd r) = ContentLoader.document w /\
  ContentLoader.requests (snd r)
  = (ContentLoader.requests w ++ Spec.second_pass_urls)%list /\
  (In "Error initializing content loader:" (ContentLoader.console (snd r)) ->
   In "Error initializing content loader:" (ContentLoader.console w)).
Proof.
  intros Hnull r. subst r.
  assert (Hrun : exists w',
             ContentLoader.secondPass net w = (Js.Normal tt, w') /\
             ContentLoader.document w' = ContentLoader.document w /\
             ContentLoader.requests w'
             = (ContentLoader.requests w ++ Spec.second_pass_urls)%list /\
             (In "Error initializing content loader:" (ContentLoader.console w') ->
              In "Error initializing content loader:" (ContentLoader.console w))).
  { unfold ContentLoader.secondPass, Eff.try_catch.
    unfold ContentLoader.loadHero, ContentLoader.loadAbout,
      ContentLoader.loadServices, ContentLoader.loadResources,
      ContentLoader.loadBooking, ContentLoader.loadContact.
    unfold Eff.bind at 1. cbv beta. null_step Hnull.
    unfold Eff.bind at 1. cbv beta. null_step Hnull.
    unfold Eff.bind at 1. cbv beta. null_step Hnull.
    unfold Eff.bind at 1. cbv beta. null_step Hnull.
    unfold Eff.bind at 1. cbv beta. null_step Hnull.
    null_step Hnull.
    eexists. split; [reflexivity |].
    split;
      [repeat match goal with
              | H : ContentLoader.document _ = _ |- _ => rewrite H; clear H
              end; reflexivity |].
    split; [| tauto].
    repeat match goal with
           | H : ContentLoader.requests _ = _ |- _ => rewrite H; clear H
           end.
    rewrite <- !app_assoc. reflexivity. }
  destruct Hrun as (w' & -> & Hd & Hr & Hc). cbn [fst snd]. auto.
Qed.

(** X8 on the sample page, with a server that cannot be reached. *)
Lemma secondPass_nothing_loaded_witness :
  ContentLoader.document
    (snd (ContentLoader.secondPass Cases.unreachable Spec.sample_world))
  = Spec.sample_page.
Proof.
  destruct (secondPass_nothing_loaded Cases.unreachable Spec.sample_world)
    as (_ & Hd & _); [reflexivity | exact Hd].
Defined.

(** ** The first pass of init, in any order *)

(** [load] is the two resumptions of the model, after the request. *)
Lemma resume_load (net : ContentLoader.network) (e : string * Dom.selector)
  (w : ContentLoader.world) :
  exists content w',
    (FirstPass.resume net e FirstPass.Fetching w = (FirstPass.Loaded content, w') \/
     exists r,
       FirstPass.resume net e FirstPass.Fetching w = (FirstPass.Parsing r, w) /\
       FirstPass.resume net e (FirstPass.Parsing r) w
       = (FirstPass.Loaded content, w')) /\
    content = Spec.loaded net (fst e) /\
    ContentLoader.load net (fst e) w
    = (Js.Normal content,
       ContentLoader.mkWorld (ContentLoader.document w')
         (ContentLoader.requests w ++ [ContentLoader.content_url (fst e)])
         (ContentLoader.console w')).
Proof.
  unfold ContentLoader.load, Spec.loaded,
    Eff.try_catch, Eff.bind, ContentLoader.fetch, ContentLoader.json,
    FirstPass.resume, FirstPass.log,
    ContentLoader.console_error, Eff.modify, Eff.ret, Eff.throw.
  change ("content/" ++ fst e ++ ".json") with (ContentLoader.content_url (fst e)).
  destruct (net (ContentLoader.content_url (fst e))) as [[[|] [v|]]|];
    cbn -[ContentLoader.content_url append].
  - exists v, w. split; [right; eexists; split; reflexivity |].
    destruct w; split; reflexivity.
  - eexists _, _. split; [right; eexists; split; reflexivity |].
    split; reflexivity.
  - eexists _, _. split; [left; reflexivity |]. split; reflexivity.
  - eexists _, _. split; [left; reflexivity |]. split; reflexivity.
  - eexists _, _. split; [left; reflexivity |]. split; reflexivity.
Qed.

Lemma nth_error_set_nth_eq {A} (l : list A) :
  forall i x y, nth_error l i = Some y ->
                nth_error (FirstPass.set_nth i x l) i = Some x.
Proof.
  induction l as [|z l IH]; intros i x y H; destruct i; cbn in *;
    try discriminate; [reflexivity | eapply IH; eassumption].
Qed.

Lemma nth_error_set_nth_neq {A} (l : list A) :
  forall i j x, i <> j ->
                nth_error (FirstPass.set_nth i x l) j = nth_error l j.
Proof.
  induction l as [|z l IH]; intros i j x H; destruct i, j; cbn;
    try reflexivity; [congruence | apply IH; congruence].
Qed.

(** The visibility rule, whatever it is given: it ends normally, fetches
    nothing, adds no element, and changes the page only for a document with
    [render: false]. *)
Lemma handleConditionalRendering_cases (content : Js.value)
  (sel : Dom.selector) (w : ContentLoader.world) :
  let r := ContentLoader.handleConditionalRendering content sel w in
  fst r = Js.Normal tt /\
  ContentLoader.requests (snd r) = ContentLoader.requests w /\
  (forall p, Dom.shallow p ->
             Dom.count_in p (ContentLoader.document (snd r))
             <= Dom.count_in p (ContentLoader.document w)) /\
  (Spec.render_false content = false ->
   ContentLoader.document (snd r) = ContentLoader.document w) /\
  (Spec.render_false content = true ->
   Dom.count_in (Dom.matches sel) (ContentLoader.document w) <= 1 ->
   Dom.count_in (Dom.matches sel) (ContentLoader.document (snd r)) = 0).
Proof.
  intros r. subst r.
  destruct (Dom.querySelector sel (ContentLoader.document w)) as [c|] eqn:Hc.
  - rewrite (handleConditionalRendering_eq content sel w c Hc).
    cbn [fst snd ContentLoader.requests ContentLoader.document].
    destruct (querySelector_node_at _ _ _ Hc)
      as (tag & id & cn & attrs & children & Hn & _).
    split; [reflexivity |]. split; [reflexivity |]. split; [| split].
    + intros p Hp. destruct (Spec.render_false content); [| lia].
      pose proof (without_section_count_le p c _ _ Hp Hn). lia.
    + intros ->. reflexivity.
    + intros -> H1. apply querySelector_none_count.
      apply (without_section_gone sel _ c sel Hc); [left; reflexivity | exact H1].
  - rewrite (handleConditionalRendering_absent content sel w Hc).
    cbn [fst snd]. repeat split; auto.
    intros _ _. now apply querySelector_none_count.
Qed.

Lemma sound_loaded (net : ContentLoader.network) (e : string * Dom.selector)
  (r : ContentLoader.response) :
  net (ContentLoader.content_url (fst e)) = Some r ->
  ContentLoader.ok r = true ->
  Spec.loaded net (fst e)
  = match ContentLoader.body r with Some v => v | None => Js.VNull end.
Proof.
  intros Hn Hok. unfold Spec.loaded.
  change ("content/" ++ fst e ++ ".json") with (ContentLoader.content_url (fst e)).
  rewrite Hn. destruct r as [ok body]. cbn in *. subst ok.
  destruct body; reflexivity.
Qed.

Lemma loaded_not_ok (net : ContentLoader.network) (e : string * Dom.selector) :
  match net (ContentLoader.content_url (fst e)) with
  | Some r => ContentLoader.ok r = false
  | None => True
  end ->
  Spec.loaded net (fst e) = Js.VNull.
Proof.
  unfold Spec.loaded.
  change ("content/" ++ fst e ++ ".json") with (ContentLoader.content_url (fst e)).
  destruct (net (ContentLoader.content_url (fst e))) as [[ok body]|];
    [| reflexivity].
  cbn. intros ->. reflexivity.
Qed.

(** One resumption of a callback. *)
Lemma resume_cases (net : ContentLoader.network) (e : string * Dom.selector)
  (st : FirstPass.stage) (w : ContentLoader.world) :
  FirstPass.sound net e st ->
  let st' := fst (FirstPass.resume net e st w) in
  let w' := snd (FirstPass.resume net e st w) in
  FirstPass.sound net e st' /\
  Nat.min 3 (S (FirstPass.rank st)) <= FirstPass.rank st' /\
  ContentLoader.requests w' = ContentLoader.requests w /\
  ((st' <> FirstPass.Finished \/ st = FirstPass.Finished) /\
   ContentLoader.document w' = ContentLoader.document w \/
   st = FirstPass.Loaded (Spec.loaded net (fst e)) /\
   st' = FirstPass.Finished /\
   w' = snd (ContentLoader.handleConditionalRendering
               (Spec.loaded net (fst e)) (snd e) w)).
Proof.
  intros Hs st' w'. subst st' w'.
  destruct st as [| r | content |]; cbn [FirstPass.resume FirstPass.sound FirstPass.rank] in *.
  - destruct (net (ContentLoader.content_url (fst e))) as [r|] eqn:Hn.
    + destruct (ContentLoader.ok r) eqn:Hok; cbn [negb fst snd FirstPass.sound FirstPass.rank].
      * repeat split; auto. left. split; [left; discriminate | reflexivity].
      * split; [symmetry; apply loaded_not_ok; now rewrite Hn |].
        split; [cbn; lia |]. split; [reflexivity |].
        left. split; [left; discriminate | reflexivity].
    + cbn [fst snd FirstPass.sound FirstPass.rank].
      split; [symmetry; apply loaded_not_ok; now rewrite Hn |].
      split; [cbn; lia |]. split; [reflexivity |].
      left. split; [left; discriminate | reflexivity].
  - destruct Hs as [Hn Hok]. pose proof (sound_loaded net e r Hn Hok) as Hl.
    destruct (ContentLoader.body r); cbn [fst snd FirstPass.sound FirstPass.rank];
      (split; [symmetry; exact Hl |]; split; [cbn; lia |]; split; [reflexivity |];
       left; split; [left; discriminate | reflexivity]).
  - subst content. cbn [fst snd FirstPass.sound FirstPass.rank].
    split; [exact I |]. split; [cbn; lia |].
    split; [apply handleConditionalRendering_cases |].
    right. auto.
  - cbn [fst snd]. repeat split; auto.
Qed.

Lemma step_invariant (net : ContentLoader.network) (doc0 : list Dom.node)
  (i : nat) (s : FirstPass.state) :
  FirstPass.invariant net doc0 s -> FirstPass.invariant net doc0 (FirstPass.step net i s).
Proof.
  intros (Hcount & Hsound & Hgone & Hsame). unfold FirstPass.step.
  destruct (nth_error ContentLoader.sectionsToCheck i) as [e|] eqn:He;
    [| repeat split; assumption].
  destruct (nth_error (FirstPass.stages s) i) as [st|] eqn:Hst;
    [| repeat split; assumption].
  pose proof (resume_cases net e st (FirstPass.world s) (Hsound i e st He Hst))
    as (Hs' & _ & _ & Hdoc).
  destruct (FirstPass.resume net e st (FirstPass.world s)) as [st' w'].
  cbn [fst snd] in Hs', Hdoc.
  assert (Hle : forall p, Dom.shallow p ->
                  Dom.count_in p (ContentLoader.document w')
                  <= Dom.count_in p (ContentLoader.document (FirstPass.world s))).
  { intros p Hp. destruct Hdoc as [[_ ->] | (_ & _ & ->)]; [lia |].
    now apply handleConditionalRendering_cases. }
  unfold FirstPass.invariant. cbn [FirstPass.world FirstPass.stages].
  split; [| split; [| split]].
  - intros p Hp. specialize (Hle p Hp). specialize (Hcount p Hp). lia.
  - intros j e' st0 He' Hj. destruct (Nat.eq_dec i j) as [<- | Hne].
    + rewrite (nth_error_set_nth_eq _ _ _ _ Hst) in Hj.
      inversion Hj; subst st0. congruence.
    + rewrite (nth_error_set_nth_neq _ _ _ _ Hne) in Hj. eauto.
  - intros j e' He' Hj Hr H1. destruct (Nat.eq_dec i j) as [<- | Hne].
    + rewrite (nth_error_set_nth_eq _ _ _ _ Hst) in Hj.
      inversion Hj; subst st'. assert (e' = e) by congruence. subst e'.
      destruct Hdoc as [[[Hf | ->] Hd] | (_ & _ & ->)].
      * congruence.
      * rewrite Hd. eauto.
      * apply handleConditionalRendering_cases; [exact Hr |].
        specialize (Hcount _ (matches_shallow (snd e))). lia.
    + rewrite (nth_error_set_nth_neq _ _ _ _ Hne) in Hj.
      specialize (Hgone j e' He' Hj Hr H1).
      specialize (Hle _ (matches_shallow (snd e'))). lia.
  - intros Hno. destruct Hdoc as [[_ ->] | (_ & _ & ->)]; [auto |].
    rewrite <- (Hsame Hno).
    apply handleConditionalRendering_cases, Hno.
    eapply nth_error_In. exact He.
Qed.

Lemma run_invariant (net : ContentLoader.network) (doc0 : list Dom.node)
  (schedule : list nat) :
  forall s, FirstPass.invariant net doc0 s -> FirstPass.invariant net doc0 (FirstPass.run net schedule s).
Proof.
  unfold FirstPass.run.
  induction schedule as [|i schedule IH]; intros s Hs; [exact Hs |].
  cbn [fold_left]. apply IH. now apply step_invariant.
Qed.

Lemma start_invariant (net : ContentLoader.network) (w : ContentLoader.world) :
  FirstPass.invariant net (ContentLoader.document w) (FirstPass.start w).
Proof.
  unfold FirstPass.invariant, FirstPass.start. cbn [FirstPass.world FirstPass.stages
    ContentLoader.document].
  split; [intros; lia |]. split; [| split; [| reflexivity]].
  - intros i e st _ Hst. apply nth_error_In, in_map_iff in Hst as (x & <- & _).
    exact I.
  - intros i e _ Hst. apply nth_error_In, in_map_iff in Hst as (x & Hx & _).
    discriminate.
Qed.

Lemma first_pass_step_requests (net : ContentLoader.network) (i : nat) (s : FirstPass.state) :
  (forall j e st,
     nth_error ContentLoader.sectionsToCheck j = Some e ->
     nth_error (FirstPass.stages s) j = Some st -> FirstPass.sound net e st) ->
  ContentLoader.requests (FirstPass.world (FirstPass.step net i s))
  = ContentLoader.requests (FirstPass.world s).
Proof.
  intros Hsound. unfold FirstPass.step.
  destruct (nth_error ContentLoader.sectionsToCheck i) as [e|] eqn:He;
    [| reflexivity].
  destruct (nth_error (FirstPass.stages s) i) as [st|] eqn:Hst; [| reflexivity].
  pose proof (resume_cases net e st (FirstPass.world s) (Hsound i e st He Hst))
    as (_ & _ & Hr & _).
  destruct (FirstPass.resume net e st (FirstPass.world s)) as [st' w'].
  exact Hr.
Qed.

Lemma run_requests (net : ContentLoader.network) (doc0 : list Dom.node)
  (schedule : list nat) :
  forall s,
    FirstPass.invariant net doc0 s ->
    ContentLoader.requests (FirstPass.world (FirstPass.run net schedule s))
    = ContentLoader.requests (FirstPass.world s).
Proof.
  unfold FirstPass.run.
  induction schedule as [|i schedule IH]; intros s Hs; [reflexivity |].
  cbn [fold_left]. rewrite (IH _ (step_invariant net doc0 i s Hs)).
  apply first_pass_step_requests, Hs.
Qed.

(** X9.  The first pass of [init], for every order in which the callbacks
    resume: the seven requests are those issued at the start, in the order
    of [sectionsToCheck], and none is added later; no selector matches more
    elements than before; and when no loaded document has [render: false]
    the page is as it was. *)
Theorem first_pass_any_order (net : ContentLoader.network)
  (schedule : list nat) (w : ContentLoader.world) :
  let s := FirstPass.run net schedule (FirstPass.start w) in
  ContentLoader.requests (FirstPass.world s)
  = (ContentLoader.requests w
     ++ map (fun e => ContentLoader.content_url (fst e))
          ContentLoader.sectionsToCheck)%list /\
  (forall sel,
     Dom.count_in (Dom.matches sel) (ContentLoader.document (FirstPass.world s))
     <= Dom.count_in (Dom.matches sel) (ContentLoader.document w)) /\
  ((forall e, In e ContentLoader.sectionsToCheck ->
              Spec.render_false (Spec.loaded net (fst e)) = false) ->
   ContentLoader.document (FirstPass.world s) = ContentLoader.document w).
Proof.
  intros s. subst s.
  pose proof (run_invariant net _ schedule _ (start_invariant net w))
    as (Hcount & _ & _ & Hsame).
  split; [| split].
  - rewrite (run_requests net _ schedule _ (start_invariant net w)). reflexivity.
  - intros sel. apply Hcount, matches_shallow.
  - exact Hsame.
Qed.

Lemma step_stage (net : ContentLoader.network) (i j : nat)
  (s : FirstPass.state) (e : string * Dom.selector) (st : FirstPass.stage) :
  nth_error ContentLoader.sectionsToCheck i = Some e ->
  nth_error (FirstPass.stages s) i = Some st ->
  FirstPass.sound net e st ->
  exists st',
    nth_error (FirstPass.stages (FirstPass.step net j s)) i = Some st' /\
    (if Nat.eqb i j then Nat.min 3 (S (FirstPass.rank st)) else FirstPass.rank st) <= FirstPass.rank st'.
Proof.
  intros He Hst Hs. unfold FirstPass.step.
  destruct (Nat.eqb i j) eqn:E.
  - apply Nat.eqb_eq in E. subst j. rewrite He, Hst.
    pose proof (resume_cases net e st (FirstPass.world s) Hs) as (_ & Hr & _).
    destruct (FirstPass.resume net e st (FirstPass.world s)) as [st' w'].
    cbn [fst FirstPass.stages] in *. exists st'.
    split; [eapply nth_error_set_nth_eq; eassumption | exact Hr].
  - apply Nat.eqb_neq in E.
    destruct (nth_error ContentLoader.sectionsToCheck j) as [e'|];
      [| exists st; split; [exact Hst | lia]].
    destruct (nth_error (FirstPass.stages s) j) as [st0|];
      [| exists st; split; [exact Hst | lia]].
    destruct (FirstPass.resume net e' st0 (FirstPass.world s)) as [st' w'].
    cbn [FirstPass.stages]. exists st. split; [| lia].
    rewrite nth_error_set_nth_neq; [exact Hst | congruence].
Qed.

Lemma run_rank (net : ContentLoader.network) (doc0 : list Dom.node)
  (i : nat) (e : string * Dom.selector) (schedule : list nat) :
  nth_error ContentLoader.sectionsToCheck i = Some e ->
  forall s st,
    FirstPass.invariant net doc0 s ->
    nth_error (FirstPass.stages s) i = Some st ->
    exists st',
      nth_error (FirstPass.stages (FirstPass.run net schedule s)) i = Some st' /\
      Nat.min 3 (FirstPass.rank st + FirstPass.resumptions i schedule) <= FirstPass.rank st'.
Proof.
  intros He. unfold FirstPass.run, FirstPass.resumptions.
  induction schedule as [|j schedule IH]; intros s st Hs Hst.
  - exists st. cbn [fold_left filter List.length].
    split; [exact Hst | rewrite Nat.add_0_r; apply Nat.le_min_r].
  - cbn [fold_left filter].
    destruct (step_stage net i j s e st He Hst) as (st1 & Hst1 & Hr1).
    { destruct Hs as (_ & Hsound & _). eauto. }
    destruct (IH _ st1 (step_invariant net doc0 j s Hs) Hst1) as (st' & Hst' & Hr').
    exists st'. split; [exact Hst' |].
    destruct (Nat.eqb i j); cbn [List.length] in *; lia.
Qed.

(** X10.  In the first pass, a callback that has been resumed three times
    has finished, whatever the other callbacks have done in between; if the
    document loaded for its entry has [render: false] and its selector
    matched at most one element at the start, the selector matches nothing
    afterwards. *)
Theorem first_pass_hides_section (net : ContentLoader.network)
  (schedule : list nat) (w : ContentLoader.world) (i : nat)
  (e : string * Dom.selector) :
  nth_error ContentLoader.sectionsToCheck i = Some e ->
  3 <= FirstPass.resumptions i schedule ->
  Spec.render_false (Spec.loaded net (fst e)) = true ->
  Dom.count_in (Dom.matches (snd e)) (ContentLoader.document w) <= 1 ->
  let s := FirstPass.run net schedule (FirstPass.start w) in
  nth_error (FirstPass.stages s) i = Some FirstPass.Finished /\
  Dom.querySelector (snd e) (ContentLoader.document (FirstPass.world s)) = None.
Proof.
  intros He H3 Hr H1 s. subst s.
  pose proof (start_invariant net w) as Hstart.
  assert (Hst : nth_error (FirstPass.stages (FirstPass.start w)) i
                = Some FirstPass.Fetching).
  { unfold FirstPass.start. cbn [FirstPass.stages].
    rewrite nth_error_map, He. reflexivity. }
  destruct (run_rank net _ i e schedule He _ _ Hstart Hst) as (st' & Hst' & Hrank).
  assert (st' = FirstPass.Finished).
  { destruct st'; cbn [FirstPass.rank] in Hrank; try lia. reflexivity. }
  subst st'. split; [exact Hst' |].
  apply querySelector_none_count.
  pose proof (run_invariant net _ schedule _ Hstart) as (_ & _ & Hgone & _).
  eapply Hgone; eassumption.
Qed.

(** X10 on the sample page: only the About document loads, with
    [render: false]; its callback is resumed between those of other
    sections. *)
Lemma first_pass_hides_section_witness :
  let net : ContentLoader.network :=
    fun url =>
      if String.eqb url "content/about.json"
      then Some (ContentLoader.mkResponse true
                   (Some (Js.VObj [("render", Js.VBool false)])))
      else None in
  Dom.querySelector (Dom.ById "about") Spec.sample_page = Some [2] /\
  Dom.querySelector (Dom.ById "about")
    (ContentLoader.document
       (FirstPass.world
          (FirstPass.run net [4; 0; 2; 0; 6; 0; 4]
             (FirstPass.start Spec.sample_world))))
  = None.
Proof.
  intros net. split; [reflexivity |].
  apply (first_pass_hides_section net [4; 0; 2; 0; 6; 0; 4] Spec.sample_world 0
           ("about", Dom.ById "about")).
  - reflexivity.
  - cbn. lia.
  - reflexivity.
  - cbn. lia.
Defined.

(** ** The contact form, continued *)

Lemma validated_validated (f : App.form) :
  Spec.validated (Spec.validated f) = Spec.validated f.
Proof. reflexivity. Qed.

Lemma inline_error_length (fld : App.field) (v : string) :
  List.length (Spec.inline_error fld v) <= 1.
Proof. unfold Spec.inline_error. destruct (Spec.rule_of fld v); cbn; lia. Qed.

(** X11.  After [validateForm], on any form: the result is true exactly when
    no inline error is shown; a field carries the class [error] exactly when
    an inline error stands beside it, and at most one does; the texts of the
    fields are untouched; and validating again gives the same result and
    the same form (errors of an earlier validation do not accumulate). *)
Theorem validateForm_consistent (w : App.world) :
  let r := App.validateForm w in
  let f' := App.theForm (snd r) in
  (fst r = Js.Normal true <-> App.fieldErrors f' = []) /\
  (forall fld,
     App.errorClass (App.get_input fld f') = true <->
     Spec.errors_of fld f' <> []) /\
  (forall fld, List.length (Spec.errors_of fld f') <= 1) /\
  (forall fld,
     App.value (App.get_input fld f')
     = App.value (App.get_input fld (App.theForm w))) /\
  App.validateForm (snd r) = r.
Proof.
  intros r f'. subst r f'. rewrite !validateForm_eq.
  destruct w as [f al co sc].
  cbn [fst snd App.set_form App.theForm App.alerts App.console App.scopes].
  split; [| split; [| split; [| split]]].
  - unfold Spec.passes.
    destruct (App.fieldErrors (Spec.validated f)); split; congruence.
  - intros fld. rewrite errors_of_validated. unfold Spec.inline_error.
    destruct fld; cbn [App.get_input Spec.validated App.nameInput App.emailInput
      App.messageInput Spec.marked App.errorClass];
      match goal with
      | |- context [Spec.rule_of ?x ?v] => destruct (Spec.rule_of x v)
      end; cbn; split; congruence.
  - intros fld. rewrite errors_of_validated, length_map.
    apply inline_error_length.
  - intros []; reflexivity.
  - reflexivity.
Qed.

Lemma count_char_append (c : ascii) (a b : string) :
  Cases.count_char c (a ++ b) = Cases.count_char c a + Cases.count_char c b.
Proof. induction a as [|x a IH]; cbn; [reflexivity | rewrite IH; lia]. Qed.

Lemma count_at_local (s : string) :
  Js.all_chars App.local_char s = true -> Cases.count_char "@" s = 0.
Proof.
  induction s as [|x s IH]; cbn [Cases.count_char Js.all_chars]; [reflexivity |].
  intros H. apply andb_prop in H as [Hx Hs]. rewrite (IH Hs).
  unfold App.local_char in Hx. apply negb_true_iff, orb_false_iff in Hx as [_ Hx].
  rewrite Ascii.eqb_sym in Hx. now rewrite Hx.
Qed.

Lemma length_nonempty (s : string) : s <> EmptyString -> 1 <= String.length s.
Proof. destruct s; [congruence | cbn; lia]. Qed.

Lemma passes_rules (f : App.form) :
  Spec.passes f = true ->
  Spec.name_rule (App.value (App.nameInput f)) = None /\
  Spec.email_rule (App.value (App.emailInput f)) = None /\
  Spec.message_rule (App.value (App.messageInput f)) = None.
Proof.
  unfold Spec.passes, Spec.validated, Spec.inline_error. cbn.
  destruct (Spec.name_rule _); [discriminate |].
  destruct (Spec.email_rule _); [discriminate |].
  destruct (Spec.message_rule _); [discriminate |]. auto.
Qed.

(** X12.  A form that passes validation has a name that is not blank, an
    email with exactly one '@', without white space (also at its ends, which
    for the email are not trimmed away) and of at least five characters,
    and a message of at least ten characters after trimming. *)
Theorem valid_form_shape (w : App.world) :
  fst (App.validateForm w) = Js.Normal true ->
  let name := App.value (App.nameInput (App.theForm w)) in
  let email := App.value (App.emailInput (App.theForm w)) in
  let message := App.value (App.messageInput (App.theForm w)) in
  Js.trim name <> EmptyString /\
  Cases.count_char "@" email = 1 /\
  Js.all_chars Js.non_space email = true /\
  Js.trim email = email /\
  5 <= String.length email /\
  10 <= String.length (Js.trim message).
Proof.
  intros Hv name email message. subst name email message.
  apply validateForm_result, passes_rules in Hv as (Hn & He & Hm).
  split; [| split; [| split; [| split; [| split]]]].
  - unfold Spec.name_rule in Hn.
    destruct (Js.trim _); [discriminate | discriminate].
  - apply email_rule_none in He as (a & b & c & -> & Ha & Hb & Hc & Pa & Pb & Pc).
    rewrite !count_char_append, (count_at_local a Pa), (count_at_local b Pb),
      (count_at_local c Pc). reflexivity.
  - apply email_rule_none in He as (a & b & c & -> & Ha & Hb & Hc & Pa & Pb & Pc).
    rewrite !all_chars_append.
    rewrite (all_chars_impl _ _ a local_char_non_space Pa).
    rewrite (all_chars_impl _ _ b local_char_non_space Pb).
    rewrite (all_chars_impl _ _ c local_char_non_space Pc).
    reflexivity.
  - apply email_rule_none in He as (a & b & c & -> & Ha & Hb & Hc & Pa & Pb & Pc).
    apply trim_no_space. rewrite !all_chars_append.
    rewrite (all_chars_impl _ _ a local_char_non_space Pa).
    rewrite (all_chars_impl _ _ b local_char_non_space Pb).
    rewrite (all_chars_impl _ _ c local_char_non_space Pc).
    reflexivity.
  - apply email_rule_none in He as (a & b & c & -> & Ha & Hb & Hc & Pa & Pb & Pc).
    rewrite !length_append. cbn [String.length].
    apply length_nonempty in Ha, Hb, Hc. lia.
  - unfold Spec.message_rule in Hm.
    destruct (Js.truthy_string _); [| discriminate].
    destruct (Nat.ltb _ 10) eqn:E; [discriminate |].
    apply Nat.ltb_ge in E. exact E.
Qed.

(** X12 on the valid submission of the specification. *)
Lemma valid_form_shape_witness :
  let w := Spec.filled_form "Jane Doe" "jane@example.com"
             "Hello, I'd like to book a session." "Send Message" in
  fst (App.validateForm w) = Js.Normal true /\
  Cases.count_char "@" "jane@example.com" = 1 /\
  10 <= String.length (Js.trim "Hello, I'd like to book a session.").
Proof.
  intros w.
  assert (Hv : fst (App.validateForm w) = Js.Normal true)
    by (vm_compute; reflexivity).
  split; [exact Hv |].
  destruct (valid_form_shape w Hv) as (_ & Hat & _ & _ & _ & Hm).
  split; [exact Hat | exact Hm].
Defined.

Lemma handleFormSubmit_no_button (w : App.world) :
  Spec.passes (App.theForm w) = true ->
  App.submitBtn (App.theForm w) = None ->
  App.handleFormSubmit w
  = (Js.Thrown (Js.TypeError "Cannot set properties of null"),
     App.mkWorld (Spec.validated (App.theForm w))
       (App.alerts w
        ++ [("danger", "An error occurred. Please try again later.")])
       (App.console w ++ ["Form submission error:"; "Event: form_error"])
       (App.scopes w)).
Proof.
  intros Hp Hb. unfold App.handleFormSubmit, App.block, App.declare.
  unfold Eff.bind at 1. unfold Eff.modify at 1.
  unfold Eff.bind at 1. cbv beta.
  rewrite validateForm_eq. destruct w as [f al co sc].
  destruct f as [ni ei mi errs btn]. cbn in Hb. subst btn.
  cbn -[Spec.validated Spec.passes] in *. rewrite Hp.
  unfold Spec.validated.
  cbn -[Spec.inline_error Spec.marked App.lookup].
  unfold Eff.try_catch_finally, Eff.try_catch, App.resolve, Eff.bind,
    App.get_textContent, App.set_disabled, App.set_textContent, Eff.modify,
    App.simulated_delay, App.showErrorMessage, App.showNotification,
    App.reset, App.logEvent, App.log, Eff.ret, Eff.throw.
  cbn -[Spec.inline_error Spec.marked]. rewrite <- app_assoc. reflexivity.
Qed.

(** X13.  A valid submission of a form without submit button: the try block
    throws on reading the label of the missing button, the catch block logs
    and shows the error banner, and the finally block throws in turn on the
    missing button, which is how the attempt ends; the fields keep their
    texts (the form is not reset) and no success banner is shown. *)
Theorem submit_without_button (w : App.world) :
  fst (App.validateForm w) = Js.Normal true ->
  App.submitBtn (App.theForm w) = None ->
  let r := App.handleFormSubmit w in
  fst r = Js.Thrown (Js.TypeError "Cannot set properties of null") /\
  App.alerts (snd r)
  = (App.alerts w
     ++ [("danger", "An error occurred. Please try again later.")])%list /\
  App.console (snd r)
  = (App.console w ++ ["Form submission error:"; "Event: form_error"])%list /\
  (forall fld,
     App.value (App.get_input fld (App.theForm (snd r)))
     = App.value (App.get_input fld (App.theForm w))).
Proof.
  intros Hv Hb r. subst r. apply validateForm_result in Hv.
  rewrite (handleFormSubmit_no_button w Hv Hb).
  cbn [fst snd App.alerts App.console App.theForm].
  repeat split. intros []; reflexivity.
Qed.

(** X13 on the valid submission of the specification, without button. *)
Lemma submit_without_button_witness :
  let w := App.mkWorld
             (App.mkForm (App.mkInput "Jane Doe" EmptyString false)
                (App.mkInput "jane@example.com" EmptyString false)
                (App.mkInput "Hello, I'd like to book a session." EmptyString false)
                [] None)
             [] [] [App.module_scope; App.global_scope] in
  App.alerts (snd (App.handleFormSubmit w))
  = [("danger", "An error occurred. Please try again later.")] /\
  App.value (App.nameInput (App.theForm (snd (App.handleFormSubmit w))))
  = "Jane Doe".
Proof.
  intros w.
  destruct (submit_without_button w) as (_ & Ha & _ & Hv);
    [vm_compute; reflexivity | reflexivity |].
  split; [exact Ha | exact (Hv App.FName)].
Defined.

(** X14.  A valid submission on a page with submit button and without
    binding for [originalText]: every field returns to its initial text
    and carries no error, only the event [form_submission] is logged, no
    error banner is added (the catch block does not run: the error of the
    attempt comes from the finally block), and the scope chain is as
    before. *)
Theorem valid_submission_effects (w : App.world) (b : App.button) :
  fst (App.validateForm w) = Js.Normal true ->
  App.submitBtn (App.theForm w) = Some b ->
  App.lookup "originalText" (App.scopes w) = None ->
  let w' := snd (App.handleFormSubmit w) in
  (forall fld,
     App.value (App.get_input fld (App.theForm w'))
     = App.defaultValue (App.get_input fld (App.theForm w)) /\
     App.errorClass (App.get_input fld (App.theForm w')) = false) /\
  App.fieldErrors (App.theForm w') = [] /\
  App.console w' = (App.console w ++ ["Event: form_submission"])%list /\
  (forall message, ~ In ("danger", message) (App.alerts w) ->
                   ~ In ("danger", message) (App.alerts w')) /\
  App.scopes w' = App.scopes w.
Proof.
  intros Hv Hb Hs w'. subst w'. apply validateForm_result in Hv.
  rewrite (handleFormSubmit_valid w b Hv Hb Hs).
  cbn [snd App.theForm App.console App.alerts App.scopes].
  pose proof (passes_rules _ Hv) as (Hn & He & Hm).
  split; [| split; [| split; [| split]]].
  - intros []; cbn; rewrite ?Hn, ?He, ?Hm; auto.
  - cbn. unfold Spec.inline_error. cbn. now rewrite Hn, He, Hm.
  - reflexivity.
  - intros message Hnot Hin. apply in_app_iff in Hin as [Hin | [Hin | []]];
      [contradiction | discriminate].
  - reflexivity.
Qed.

(** X14 on a form whose email field has an initial text. *)
Lemma valid_submission_effects_witness :
  let w := App.mkWorld
             (App.mkForm (App.mkInput "Jane Doe" EmptyString false)
                (App.mkInput "jane@example.com" "you@example.com" false)
                (App.mkInput "Hello, I'd like to book a session." EmptyString false)
                [] (Some (App.mkButton false "Send Message")))
             [] [] [App.module_scope; App.global_scope] in
  App.value (App.emailInput (App.theForm (snd (App.handleFormSubmit w))))
  = "you@example.com" /\
  App.console (snd (App.handleFormSubmit w)) = ["Event: form_submission"].
Proof.
  intros w.
  destruct (valid_submission_effects w (App.mkButton false "Send Message"))
    as (Hf & _ & Hc & _); [vm_compute; reflexivity | reflexivity | reflexivity |].
  split; [exact (proj1 (Hf App.FEmail)) | exact Hc].
Defined.

(** ** Notifications *)

Lemma drop_nth_perm {A} (l : list A) :
  forall i x, nth_error l i = Some x ->
              Permutation l (x :: Notifications.drop_nth i l).
Proof.
  induction l as [|y l IH]; intros i x H.
  - destruct i; discriminate.
  - destruct i as [|i]; cbn in *.
    + inversion H; subst. reflexivity.
    + rewrite perm_swap. constructor. now apply IH.
Qed.

Lemma drop_nth_incl {A} (l : list A) :
  forall i x, In x (Notifications.drop_nth i l) -> In x l.
Proof.
  induction l as [|y l IH]; intros i x H; [destruct i; destruct H |].
  destruct i as [|i]; cbn in *; [auto |].
  destruct H as [H | H]; [auto | right; eapply IH; eassumption].
Qed.

Lemma NoDup_snoc {A} (l : list A) (x : A) :
  NoDup l -> ~ In x l -> NoDup (l ++ [x]).
Proof.
  intros Hl Hx. apply (Permutation_NoDup (l := x :: l)).
  - apply Permutation_cons_append.
  - now constructor.
Qed.

Lemma alert_ids_filter (id : nat) (l : list Notifications.alert) :
  map Notifications.alertId
    (filter (fun a => negb (Nat.eqb id (Notifications.alertId a))) l)
  = filter (fun x => negb (Nat.eqb id x)) (map Notifications.alertId l).
Proof.
  induction l as [|a l IH]; cbn; [reflexivity |].
  destruct (Nat.eqb id (Notifications.alertId a)); cbn; now rewrite IH.
Qed.

Lemma consistent_show (now : Z) (message type : string) (p : Notifications.page) :
  Notifications.consistent p -> Notifications.consistent (Notifications.showNotification now message type p).
Proof.
  intros (Ht & Ha & Hiff & Hlt & Haw).
  unfold Notifications.consistent, Notifications.timer_ids, Notifications.alert_ids, Notifications.showNotification in *.
  cbn [Notifications.body Notifications.timers Notifications.created].
  rewrite !map_app. cbn [map snd Notifications.task_id Notifications.alertId].
  assert (Hfresh : ~ In (Notifications.created p)
                     (map (fun dt => Notifications.task_id (snd dt))
                        (Notifications.timers p))).
  { intros H. apply Hlt in H. lia. }
  split; [now apply NoDup_snoc |].
  split; [apply NoDup_snoc; [assumption | now rewrite Hiff] |].
  split; [intros id; rewrite !in_app_iff, Hiff; reflexivity |].
  split.
  - intros id H. apply in_app_iff in H as [H | [<- | []]]; [apply Hlt in H |]; lia.
  - intros a due t Hin Htm Hid.
    apply in_app_iff in Hin as [Hin | [<- | []]];
      apply in_app_iff in Htm as [Htm | [Htm | []]].
    + eapply Haw; eassumption.
    + inversion Htm; subst. cbn in Hid. exfalso. apply Hfresh. rewrite <- Hiff.
      rewrite Hid. now apply in_map.
    + exfalso. apply Hfresh. cbn in Hid. rewrite <- Hid.
      apply (in_map (fun dt => Notifications.task_id (snd dt)) _ _ Htm).
    + inversion Htm; subst. left. split; reflexivity.
Qed.

Lemma consistent_fire (now : Z) (i : nat) (p : Notifications.page) :
  Notifications.consistent p -> Notifications.consistent (Notifications.step (Notifications.Fire now i) p).
Proof.
  intros Hp. cbn [Notifications.step].
  destruct (nth_error (Notifications.timers p) i) as [[due t]|] eqn:Hi;
    [| exact Hp].
  destruct (Z.leb due now); [| exact Hp].
  destruct Hp as (Ht & Ha & Hiff & Hlt & Haw).
  unfold Notifications.consistent, Notifications.timer_ids, Notifications.alert_ids in *.
  pose proof (drop_nth_perm _ _ _ Hi) as Hperm.
  pose proof (Permutation_map (fun dt => Notifications.task_id (snd dt)) Hperm)
    as Hpid.
  cbn [map snd] in Hpid.
  set (ids := map (fun dt => Notifications.task_id (snd dt)) (Notifications.timers p)) in *.
  set (rest := Notifications.drop_nth i (Notifications.timers p)) in *.
  set (rids := map (fun dt => Notifications.task_id (snd dt)) rest) in *.
  assert (Hnd : NoDup (Notifications.task_id t :: rids))
    by (eapply Permutation_NoDup; eassumption).
  inversion Hnd as [| x l Hnotin Hrest]; subst x l.
  assert (Hin_ids : forall id, In id ids <-> id = Notifications.task_id t \/ In id rids).
  { intros id. split; intros H.
    - apply (Permutation_in _ Hpid) in H. destruct H; auto.
    - apply (Permutation_in _ (Permutation_sym Hpid)). destruct H; [left | right]; auto. }
  destruct t as [id | id]; cbn [Notifications.run_task Notifications.body
    Notifications.timers Notifications.created Notifications.task_id] in *.
  - (* the slide-out starts *)
    rewrite map_app, map_map. cbn [map snd Notifications.task_id].
    fold rids.
    assert (Hids : map (fun a => Notifications.alertId
                          (if Nat.eqb id (Notifications.alertId a)
                           then Notifications.mkAlert (Notifications.alertId a)
                                  (Notifications.className a) (Notifications.text a)
                                  "slideOut 0.3s ease-in-out"
                           else a)) (Notifications.body p)
                   = map Notifications.alertId (Notifications.body p)).
    { apply map_ext. intros a. destruct (Nat.eqb id (Notifications.alertId a)); reflexivity. }
    rewrite Hids.
    split; [now apply NoDup_snoc |].
    split; [assumption |].
    split; [intros x; rewrite Hiff, Hin_ids, in_app_iff; cbn; intuition |].
    split; [intros x H; apply Hlt, Hin_ids; apply in_app_iff in H as [H | [<- | []]]; auto |].
    intros a' due' t' Hin Htm Hid.
    apply in_map_iff in Hin as (a & <- & Hin).
    apply in_app_iff in Htm as [Htm | [Htm | []]].
    + assert (Hne : Notifications.task_id t' <> id).
      { intros <-. apply Hnotin.
        apply (in_map (fun dt => Notifications.task_id (snd dt)) _ _ Htm). }
      destruct (Nat.eqb id (Notifications.alertId a)) eqn:E.
      * apply Nat.eqb_eq in E. cbn in Hid. congruence.
      * eapply Haw; [exact Hin | | exact Hid].
        eapply drop_nth_incl. exact Htm.
    + inversion Htm; subst. cbn in Hid.
      destruct (Nat.eqb id (Notifications.alertId a)) eqn:E.
      * apply Nat.eqb_eq in E. right. split; [cbn; congruence | reflexivity].
      * apply Nat.eqb_neq in E. congruence.
  - (* the alert is removed *)
    rewrite alert_ids_filter. fold rids.
    split; [assumption |].
    split; [now apply NoDup_filter |].
    split.
    { intros x. rewrite filter_In, Hiff, Hin_ids, negb_true_iff, Nat.eqb_neq.
      split.
      - intros [[-> | H] Hne]; [congruence | exact H].
      - intros H. split; [auto |]. intros <-. contradiction. }
    split; [intros x H; apply Hlt, Hin_ids; auto |].
    intros a due' t' Hin Htm Hid.
    apply filter_In in Hin as [Hin _].
    eapply Haw; [exact Hin | | exact Hid].
    eapply drop_nth_incl. exact Htm.
Qed.

Lemma consistent_steps (trace : list Notifications.event) :
  forall p, Notifications.consistent p -> Notifications.consistent (Notifications.steps trace p).
Proof.
  unfold Notifications.steps.
  induction trace as [|e trace IH]; intros p Hp; [exact Hp |].
  cbn [fold_left]. apply IH.
  destruct e as [now message type | now i].
  - now apply consistent_show.
  - now apply consistent_fire.
Qed.

Lemma consistent_empty : Notifications.consistent Notifications.empty.
Proof.
  repeat split; try constructor; cbn; try tauto; intros; contradiction.
Qed.

Lemma NoDup_map_inj {A B} (f : A -> B) (l : list A) :
  NoDup (map f l) ->
  forall x y, In x l -> In y l -> f x = f y -> x = y.
Proof.
  induction l as [|z l IH]; intros Hnd x y Hx Hy Hf; [destruct Hx |].
  cbn in Hnd. inversion Hnd as [| ? ? Hnotin Hrest]; subst.
  destruct Hx as [-> | Hx], Hy as [-> | Hy].
  - reflexivity.
  - exfalso. apply Hnotin. rewrite Hf. now apply in_map.
  - exfalso. apply Hnotin. rewrite <- Hf. now apply in_map.
  - now apply IH.
Qed.

(** X15.  Notifications, for every sequence of calls of [showNotification]
    and of timers firing in any order that respects their due times: the
    alerts of the body are distinct elements and no two pending timers hold
    the same element; every alert of the body waits for exactly one pending
    timer, which is the one it waits for (the slide-out while it slides in,
    the removal once it slides out); every pending timer belongs to exactly
    one alert of the body; so there are as many alerts as pending timers,
    and no alert is left once no timer is pending. *)
Theorem notifications_await_their_timers (trace : list Notifications.event) :
  let p := Notifications.steps trace Notifications.empty in
  NoDup (Notifications.alert_ids p) /\
  NoDup (Notifications.timer_ids p) /\
  (forall a,
     In a (Notifications.body p) ->
     exists due t,
       In (due, t) (Notifications.timers p) /\ Notifications.awaits a t /\
       forall due' t',
         In (due', t') (Notifications.timers p) ->
         Notifications.task_id t' = Notifications.alertId a ->
         (due', t') = (due, t)) /\
  (forall due t,
     In (due, t) (Notifications.timers p) ->
     exists a,
       In a (Notifications.body p) /\ Notifications.awaits a t /\
       forall a',
         In a' (Notifications.body p) ->
         Notifications.alertId a' = Notifications.task_id t ->
         a' = a) /\
  List.length (Notifications.body p) = List.length (Notifications.timers p) /\
  (Notifications.timers p = [] -> Notifications.body p = []).
Proof.
  intros p.
  destruct (consistent_steps trace _ consistent_empty)
    as (Ht & Ha & Hiff & Hlt & Haw).
  fold p in Ht, Ha, Hiff, Hlt, Haw.
  assert (Hlen : List.length (Notifications.body p)
                 = List.length (Notifications.timers p)).
  { rewrite <- (length_map Notifications.alertId),
      <- (length_map (fun dt => Notifications.task_id (snd dt))).
    apply Permutation_length, NoDup_Permutation; assumption. }
  split; [exact Ha |]. split; [exact Ht |].
  split; [| split; [| split; [exact Hlen |]]].
  - intros a Hin.
    assert (H : In (Notifications.alertId a) (Notifications.timer_ids p))
      by (apply Hiff; now apply in_map).
    apply in_map_iff in H as ([due t] & Hid & Htm). cbn in Hid.
    exists due, t. split; [exact Htm |].
    split; [eapply Haw; eassumption |].
    intros due' t' Htm' Hid'.
    apply (NoDup_map_inj (fun dt => Notifications.task_id (snd dt)) _ Ht);
      [exact Htm' | exact Htm | cbn; congruence].
  - intros due t Htm.
    assert (H : In (Notifications.task_id t) (Notifications.alert_ids p)).
    { apply Hiff.
      apply (in_map (fun dt => Notifications.task_id (snd dt)) _ _ Htm). }
    apply in_map_iff in H as (a & Hid & Hin).
    exists a. split; [exact Hin |].
    split; [eapply Haw; eauto |].
    intros a' Hin' Hid'.
    apply (NoDup_map_inj Notifications.alertId _ Ha);
      [exact Hin' | exact Hin | congruence].
  - intros H. rewrite H in Hlen. now apply length_zero_iff_nil.
Qed.

(** ** Navigation, continued *)

Lemma remove_not_contains (c : string) (l : Navigation.classList) :
  Navigation.contains c l = false -> Navigation.remove c l = l.
Proof.
  unfold Navigation.contains, Navigation.remove.
  induction l as [|x l IH]; cbn; [reflexivity |].
  destruct (String.eqb c x); cbn; [discriminate |].
  intros H. now rewrite IH.
Qed.

Lemma remove_remove (c : string) (l : Navigation.classList) :
  Navigation.remove c (Navigation.remove c l) = Navigation.remove c l.
Proof. apply remove_not_contains, contains_remove_same. Qed.

Lemma remove_snoc (c : string) (l : Navigation.classList) :
  Navigation.remove c (l ++ [c])%list = Navigation.remove c l.
Proof.
  unfold Navigation.remove. rewrite filter_app. cbn.
  rewrite String.eqb_refl. cbn. apply app_nil_r.
Qed.

Lemma remove_add (c : string) (l : Navigation.classList) :
  Navigation.remove c (Navigation.add c l) = Navigation.remove c l.
Proof.
  unfold Navigation.add. destruct (Navigation.contains c l); [reflexivity |].
  apply remove_snoc.
Qed.

Lemma remove_toggle (c : string) (l : Navigation.classList) :
  Navigation.remove c (Navigation.toggle c l) = Navigation.remove c l.
Proof.
  unfold Navigation.toggle. destruct (Navigation.contains c l).
  - apply remove_remove.
  - apply remove_snoc.
Qed.

Lemma occurrences_remove (c : string) (l : Navigation.classList) :
  Cases.occurrences c (Navigation.remove c l) = 0.
Proof.
  unfold Cases.occurrences, Navigation.remove.
  induction l as [|x l IH]; cbn; [reflexivity |].
  destruct (String.eqb c x) eqn:E; cbn; [assumption |].
  now rewrite E.
Qed.

Lemma occurrences_add_remove (c : string) (l : Navigation.classList) :
  Cases.occurrences c (Navigation.add c (Navigation.remove c l)) = 1.
Proof.
  unfold Navigation.add. rewrite contains_remove_same.
  unfold Cases.occurrences. rewrite filter_app, length_app.
  fold (Cases.occurrences c (Navigation.remove c l)).
  rewrite occurrences_remove. cbn. now rewrite String.eqb_refl.
Qed.

Lemma updateLink_updateLink (current : option string) (l : Navigation.navLink) :
  Navigation.updateLink current (Navigation.updateLink current l)
  = Navigation.updateLink current l.
Proof.
  unfold Navigation.updateLink.
  cbn [Navigation.dataSection Navigation.linkClasses].
  destruct (Navigation.attr_eqb (Navigation.dataSection l) current).
  - now rewrite remove_add, remove_remove.
  - now rewrite remove_remove.
Qed.

(** X18.  A run of the scroll listener settles the links: a second run at
    the same scroll offset changes nothing; afterwards no link carries
    [active] more than once; and the other classes of every link are as
    before, in their order. *)
Theorem onScroll_settles (scrollY : Z) (sections : list Navigation.section)
  (links : list Navigation.navLink) :
  let links' := Navigation.onScroll scrollY sections links in
  Navigation.onScroll scrollY sections links' = links' /\
  (forall l', In l' links' ->
     Cases.occurrences Navigation.activeClass (Navigation.linkClasses l') <= 1) /\
  map (fun l => Navigation.remove Navigation.activeClass (Navigation.linkClasses l))
    links'
  = map (fun l => Navigation.remove Navigation.activeClass (Navigation.linkClasses l))
      links.
Proof.
  intros links'. subst links'. unfold Navigation.onScroll.
  split; [| split].
  - rewrite map_map. apply map_ext. intros l. apply updateLink_updateLink.
  - intros l' H. apply in_map_iff in H as (l & <- & _).
    unfold Navigation.updateLink. cbn [Navigation.linkClasses].
    destruct (Navigation.attr_eqb _ _).
    + rewrite occurrences_add_remove. lia.
    + rewrite occurrences_remove. lia.
  - rewrite map_map. apply map_ext. intros l.
    unfold Navigation.updateLink. cbn [Navigation.linkClasses].
    destruct (Navigation.attr_eqb _ _).
    + now rewrite remove_add, remove_remove.
    + now rewrite remove_remove.
Qed.

Lemma run_other_classes (l : Navigation.listener) (m : Navigation.menu) :
  Navigation.remove Navigation.activeClass
    (Navigation.menuToggle (Navigation.run l m))
  = Navigation.remove Navigation.activeClass (Navigation.menuToggle m) /\
  Navigation.remove Navigation.activeClass
    (Navigation.navMenu (Navigation.run l m))
  = Navigation.remove Navigation.activeClass (Navigation.navMenu m).
Proof.
  destruct l as [| | inside]; cbn [Navigation.run].
  - cbn [Navigation.menuToggle Navigation.navMenu].
    now rewrite !remove_toggle.
  - cbn [Navigation.menuToggle Navigation.navMenu].
    now rewrite !remove_remove.
  - destruct (negb inside && _); [| split; reflexivity].
    cbn [Navigation.menuToggle Navigation.navMenu].
    now rewrite !remove_remove.
Qed.

(** X16.  Whatever listeners of the menu run, in any order and from any
    state: the classes of #menu-toggle and of #nav-menu other than [active]
    stay as they were, in their order. *)
Theorem menu_keeps_other_classes (ls : list Navigation.listener)
  (m : Navigation.menu) :
  Navigation.remove Navigation.activeClass
    (Navigation.menuToggle (Navigation.runs ls m))
  = Navigation.remove Navigation.activeClass (Navigation.menuToggle m) /\
  Navigation.remove Navigation.activeClass
    (Navigation.navMenu (Navigation.runs ls m))
  = Navigation.remove Navigation.activeClass (Navigation.navMenu m).
Proof.
  unfold Navigation.runs. revert m.
  induction ls as [|l ls IH]; intros m; cbn [fold_left]; [split; reflexivity |].
  destruct (IH (Navigation.run l m)) as [-> ->]. apply run_other_classes.
Qed.

(** X17.  One click, with the listeners it runs while bubbling, from any
    state of the menu: on the toggle inside #navbar it opens a closed menu
    and closes an open one; on a menu link, or anywhere outside #navbar, it
    leaves the menu closed; elsewhere inside #navbar it changes nothing.  A
    toggle that lies outside #navbar never opens the menu: the listener of
    the document closes it in the same click. *)
Theorem menu_click_outcome (m : Navigation.menu) :
  Menu.open (Menu.after_click (Menu.OnToggle true) m) = negb (Menu.open m) /\
  Menu.open (Menu.after_click (Menu.OnToggle false) m) = false /\
  (forall inNavbar, Menu.open (Menu.after_click (Menu.OnLink inNavbar) m) = false) /\
  Menu.open (Menu.after_click (Menu.Elsewhere true) m) = Menu.open m /\
  Menu.open (Menu.after_click (Menu.Elsewhere false) m) = false.
Proof.
  unfold Menu.open, Menu.after_click, Navigation.runs.
  repeat split; try intros [|];
    cbn [Menu.listeners_of fold_left Navigation.run negb andb Navigation.navMenu
         Navigation.menuToggle];
    rewrite ?contains_toggle, ?contains_remove_same;
    destruct (Navigation.contains Navigation.activeClass (Navigation.navMenu m))
      eqn:E;
    cbn [negb Navigation.navMenu];
    rewrite ?contains_toggle, ?contains_remove_same, ?E; reflexivity.
Qed.

(** ** The throttle of the scroll listener *)

Lemma spaced_cons (limit t : Z) (times : list Z) :
  Forall (fun t' => (t + limit <= t')%Z) times ->
  Throttle.spaced limit times -> Throttle.spaced limit (t :: times).
Proof.
  intros Hall Hs. destruct times as [|t2 rest]; [exact I |].
  split; [now inversion Hall | exact Hs].
Qed.

Lemma throttle_runs (limit : Z) (trace : list Throttle.event) :
  (0 <= limit)%Z ->
  forall s now lb,
    Throttle.ordered now trace ->
    (Throttle.inThrottle s = false /\ Throttle.timers s = [] /\ (lb <= now)%Z) \/
    (Throttle.inThrottle s = true /\ Throttle.timers s = [lb]) ->
    Forall (fun t => (lb <= t)%Z) (Throttle.run_times limit trace s) /\
    Throttle.spaced limit (Throttle.run_times limit trace s) /\
    (forall t, In t (Throttle.run_times limit trace s) ->
               In (Throttle.Call t) trace).
Proof.
  intros Hlimit.
  induction trace as [|e trace IH]; intros s now lb Ho Hs.
  - cbn. repeat split; [constructor | intros t []].
  - destruct Ho as [Hnow Ho]. destruct s as [flag ts].
    cbn [Throttle.inThrottle Throttle.timers] in Hs.
    destruct e as [t | t]; cbn [Throttle.time_of] in *;
      cbn [Throttle.run_times Throttle.step Throttle.inThrottle Throttle.timers
           Throttle.time_of].
    + destruct Hs as [(-> & -> & Hlb) | (-> & ->)]; cbn [negb app].
      * destruct (IH (Throttle.mkState true [(t + limit)%Z]) t (t + limit)%Z Ho)
          as (Hall & Hsp & Hin); [right; auto |].
        split; [| split].
        -- constructor; [cbn; lia |].
           eapply Forall_impl; [| exact Hall]. cbn. intros; lia.
        -- apply spaced_cons; assumption.
        -- intros t' [<- | H]; [left; reflexivity | right; auto].
      * destruct (IH (Throttle.mkState true [lb]) t lb Ho)
          as (Hall & Hsp & Hin); [right; auto |].
        split; [| split]; auto. intros t' H. right. auto.
    + destruct Hs as [(-> & -> & Hlb) | (-> & ->)].
      * destruct (IH (Throttle.mkState false []) t lb Ho)
          as (Hall & Hsp & Hin); [left; repeat split; lia |].
        split; [| split]; auto. intros t' H. right. auto.
      * destruct (Z.leb lb t) eqn:E.
        -- apply Z.leb_le in E.
           destruct (IH (Throttle.mkState false []) t lb Ho)
             as (Hall & Hsp & Hin); [left; auto |].
           split; [| split]; auto. intros t' H. right. auto.
        -- destruct (IH (Throttle.mkState true [lb]) t lb Ho)
             as (Hall & Hsp & Hin); [right; auto |].
           split; [| split]; auto. intros t' H. right. auto.
Qed.

(** X19.  [throttle], for a limit that is not negative and events in the
    order of their times: two consecutive applications of the function are
    at least [limit] apart, every application happens at a call, and the
    first call is always applied. *)
Theorem throttle_spacing (limit start : Z) (trace : list Throttle.event) :
  (0 <= limit)%Z ->
  Throttle.ordered start trace ->
  Throttle.spaced limit (Throttle.run_times limit trace Throttle.initial) /\
  (forall t, In t (Throttle.run_times limit trace Throttle.initial) ->
             In (Throttle.Call t) trace) /\
  (forall t rest, trace = Throttle.Call t :: rest ->
                  exists later,
                    Throttle.run_times limit trace Throttle.initial = t :: later).
Proof.
  intros Hlimit Ho.
  destruct (throttle_runs limit trace Hlimit Throttle.initial start start Ho)
    as (_ & Hs & Hin); [left; repeat split; lia |].
  split; [exact Hs |]. split; [exact Hin |].
  intros t rest ->. cbn. eauto.
Qed.

(** X19 on the scroll listener: of five scroll events, the ones at 0, 130
    and 240 ms are handled. *)
Lemma throttle_spacing_witness :
  let trace := [Throttle.Call 0; Throttle.Call 40; Throttle.Fire 100;
                Throttle.Call 130; Throttle.Call 180; Throttle.Fire 235;
                Throttle.Call 240]%Z in
  Throttle.run_times Throttle.scrollLimit trace Throttle.initial = [0; 130; 240]%Z /\
  Throttle.spaced Throttle.scrollLimit
    (Throttle.run_times Throttle.scrollLimit trace Throttle.initial).
Proof.
  intros trace. split; [reflexivity |].
  apply (throttle_spacing Throttle.scrollLimit 0 trace).
  - unfold Throttle.scrollLimit. lia.
  - cbn. lia.
Defined.

(** ** Smooth scrolling *)

(** X20.  The click listener of a navigation link suppresses the default
    navigation exactly when the href starts with '#'.  It scrolls only to an
    element whose id is the rest of the href, not empty, and which is the
    first such element of the page; for an href '#' alone, or when no
    element has that id, it scrolls nowhere. *)
Theorem smooth_scroll_target (href : option string) (doc : list Dom.node) :
  let o := SmoothScroll.onClick href doc in
  (SmoothScroll.defaultPrevented o = true <->
   exists targetId, href = Some (String "#" targetId)) /\
  (forall c,
     SmoothScroll.scrolledTo o = Some c ->
     exists targetId tag cn attrs children,
       href = Some (String "#" targetId) /\
       targetId <> EmptyString /\
       Dom.querySelector (Dom.ById targetId) doc = Some c /\
       Dom.node_at c doc = Some (Dom.Element tag targetId cn attrs children)) /\
  (forall targetId,
     href = Some (String "#" targetId) ->
     (SmoothScroll.scrolledTo o = None <->
      targetId = EmptyString \/
      Dom.count_in (Dom.matches (Dom.ById targetId)) doc = 0)).
Proof.
  intros o. subst o. unfold SmoothScroll.onClick.
  destruct href as [[|ch targetId]|]; cbn [SmoothScroll.defaultPrevented
                                          SmoothScroll.scrolledTo].
  - split; [split; [discriminate | intros [t H]; discriminate] |].
    split; [discriminate | intros t H; discriminate].
  - destruct (Ascii.eqb ch "#") eqn:E.
    + apply Ascii.eqb_eq in E. subst ch.
      cbn [SmoothScroll.defaultPrevented SmoothScroll.scrolledTo].
      split; [split; eauto |]. split.
      * intros c Hc. unfold SmoothScroll.getElementById in Hc.
        destruct targetId as [|a t]; [discriminate |].
        destruct (querySelector_node_at _ _ _ Hc)
          as (tag & id & cn & attrs & children & Hn & Hm).
        cbn [Dom.matches] in Hm. apply String.eqb_eq in Hm. subst id.
        exists (String a t), tag, cn, attrs, children.
        repeat split; auto. discriminate.
      * intros t H. inversion H; subst t.
        unfold SmoothScroll.getElementById.
        destruct targetId as [|a t]; [split; auto |].
        rewrite querySelector_none_count. split; [auto |].
        intros [H0 | H0]; [discriminate | exact H0].
    + cbn [SmoothScroll.defaultPrevented SmoothScroll.scrolledTo].
      split; [split; [discriminate |] |].
      * intros [t H]. inversion H; subst.
        rewrite Ascii.eqb_refl in E. discriminate.
      * split; [discriminate |]. intros t H. inversion H; subst.
        rewrite Ascii.eqb_refl in E. discriminate.
  - split; [split; [discriminate | intros [t H]; discriminate] |].
    split; [discriminate | intros t H; discriminate].
Qed.

